(** * tinyfs: a flat file store over one fixed-size image

    A shallow embedding of [tinyfs.c] (superblock, inode table, free-block
    bitmap, data blocks, and the create / write / read / list operations over
    them), with the allocator and the in-memory store of [minifs_2.c] and the
    create of [omin.c] kept beside it in modules of their own.

    Conventions of the embedding:
    - a C [int] is a [Z]; where the C arithmetic can leave the 32-bit range
      the wrap-around is written out with [wrap_int];
    - a [char] or [unsigned char] is a [Byte.byte]; a [const char *] argument
      is the list of bytes it points to, read up to its first NUL ([cstr]);
    - a fixed-size C array is a list, indexed with stdpp's lookup; the shape
      of the arrays (128 inodes, 10 block pointers, 1024 bitmap bytes) is the
      predicate [wf_shape];
    - the image file is a byte-addressed store with a position ([FILE]);
      [time(NULL)] is an argument [now]. *)

From Stdlib Require Import ZArith Lia List.
From Stdlib.Strings Require Import Byte String.
From stdpp Require Import base tactics option list numbers.

Local Open Scope Z_scope.

(** ** Constants ([#define]s of tinyfs.c) *)

Definition BLOCK_SIZE : Z := 4096.
Definition TOTAL_BLOCKS : Z := 1024.
Definition MAX_INODES : Z := 128.
Definition MAX_FILENAME : Z := 32.
Definition MAX_FILE_SIZE : Z := BLOCK_SIZE * 10.

(** Number of direct block pointers of an inode:
    [int blocks[MAX_FILE_SIZE / BLOCK_SIZE]]. *)
Definition NBLOCKS : Z := MAX_FILE_SIZE / BLOCK_SIZE.

(** ** Machine integers and bytes *)

(** Reduction of a mathematical integer to a 32-bit two's-complement [int]. *)
Definition wrap_int (z : Z) : Z := (z + 2 ^ 31) mod 2 ^ 32 - 2 ^ 31.

Definition INT_MAX : Z := 2 ^ 31 - 1.
Definition INT_MIN : Z := - 2 ^ 31.

#[global] Instance byte_eq_dec : EqDecision byte.
Proof.
  intros a b. destruct (Byte.eqb a b) eqn:E.
  - left. now apply Byte.byte_dec_bl.
  - right. intros ->. rewrite Byte.byte_dec_lb in E; [discriminate | reflexivity].
Defined.

#[global] Instance byte_inhabited : Inhabited byte := populate x00.

(** Conversion of an [int] to [unsigned char] (the store [bitmap[block] = value]). *)
Definition byte_of_int (v : Z) : byte :=
  default x00 (Byte.of_N (Z.to_N (v mod 256))).

Definition int_of_byte (b : byte) : Z := Z.of_N (Byte.to_N b).

(** ** The part of the C library the code uses *)

(** The string a [char *] points to: the bytes before the first NUL. The end
    of the list stands for the end of the object pointed to. *)
Fixpoint cstr (s : list byte) : list byte :=
  match s with
  | [] => []
  | c :: s' => if decide (c = x00) then [] else c :: cstr s'
  end.

Definition strlen (s : list byte) : Z := Z.of_nat (length (cstr s)).

Fixpoint strcmp_go (a b : list byte) : Z :=
  match a, b with
  | [], [] => 0
  | [], y :: _ => - int_of_byte y
  | x :: _, [] => int_of_byte x
  | x :: a', y :: b' =>
      if decide (x = y) then strcmp_go a' b' else int_of_byte x - int_of_byte y
  end.

(** [strcmp]: zero exactly when the two strings are equal. *)
Definition strcmp (a b : list byte) : Z := strcmp_go (cstr a) (cstr b).

(** [strncpy(dst, src, n)]: the [n] bytes left in [dst]: the string, cut at
    [n] bytes (then without terminator) or padded with NULs up to [n]. *)
Definition strncpy (src : list byte) (n : Z) : list byte :=
  take (Z.to_nat n) (cstr src ++ replicate (Z.to_nat n) x00).

(** A stdio stream on the image: the bytes of the file and the position. A
    byte that was never written reads as whatever [content] holds there. *)
Record FILE := mkFILE { content : Z → byte; position : Z }.

(** [fseek(fp, off, SEEK_SET)]: fails, leaving the position, on a negative
    offset. *)
Definition fseek (fp : FILE) (off : Z) : FILE :=
  if decide (off < 0) then fp
  else {| content := content fp; position := off |}.

(** [fwrite(buf, 1, length buf, fp)]. *)
Definition fwrite (fp : FILE) (buf : list byte) : FILE :=
  let p := position fp in
  let n := Z.of_nat (length buf) in
  {| content := λ a, if decide (p ≤ a < p + n)
                     then buf !!! Z.to_nat (a - p) else content fp a;
     position := p + n |}.

(** [fread(buf, 1, n, fp)]: the bytes read and the stream after it. *)
Definition fread (fp : FILE) (n : Z) : list byte * FILE :=
  (content fp <$> seqZ (position fp) n,
   {| content := content fp; position := position fp + n |}).

(** [for (k = i; k < i + n; k++) if (p k) return k;  return -1;] *)
Fixpoint first_from (p : Z → bool) (i : Z) (n : nat) : Z :=
  match n with
  | O => -1
  | S n' => if p i then i else first_from p (i + 1) n'
  end.

(** ** Data model *)

Record Superblock := mkSuperblock {
  total_blocks : Z;
  free_blocks : Z;
  block_size : Z;
  inode_table_start : Z;
  bitmap_start : Z;
  data_start : Z
}.

Record Inode := mkInode {
  name : list byte;     (* char name[MAX_FILENAME] *)
  size : Z;
  blocks : list Z;      (* int blocks[MAX_FILE_SIZE / BLOCK_SIZE] *)
  created : Z;
  modified : Z
}.

Record FileSystem := mkFileSystem {
  super : Superblock;
  inodes : list Inode;      (* Inode inodes[MAX_INODES] *)
  bitmap : list byte;       (* unsigned char bitmap[TOTAL_BLOCKS] *)
  fp : FILE
}.

(** The five ways an operation reports failure (its [printf] before
    [return -1]), named as the specification names them. *)
Inductive error :=
  | AlreadyExists   (* "File %s already exists." *)
  | NoFreeInode     (* "No free inodes available." *)
  | NotFound        (* "File %s not found." *)
  | TooLarge        (* "Data too large." *)
  | NoFreeBlock.    (* "No free blocks available." *)

#[global] Instance error_eq_dec : EqDecision error.
Proof. solve_decision. Defined.

(** The unused entry of [blocks[]]. *)
Definition SENTINEL : Z := -1.

(** Field updates, as the C assignments through [fs->] and [inode->]. *)
Definition set_super (fs : FileSystem) (sb : Superblock) : FileSystem :=
  {| super := sb; inodes := inodes fs; bitmap := bitmap fs; fp := fp fs |}.
Definition set_inodes (fs : FileSystem) (t : list Inode) : FileSystem :=
  {| super := super fs; inodes := t; bitmap := bitmap fs; fp := fp fs |}.
Definition set_bitmap (fs : FileSystem) (bm : list byte) : FileSystem :=
  {| super := super fs; inodes := inodes fs; bitmap := bm; fp := fp fs |}.
Definition set_fp (fs : FileSystem) (f : FILE) : FileSystem :=
  {| super := super fs; inodes := inodes fs; bitmap := bitmap fs; fp := f |}.

Definition set_free_blocks (sb : Superblock) (n : Z) : Superblock :=
  {| total_blocks := total_blocks sb; free_blocks := n;
     block_size := block_size sb; inode_table_start := inode_table_start sb;
     bitmap_start := bitmap_start sb; data_start := data_start sb |}.

Definition set_blocks (ino : Inode) (bl : list Z) : Inode :=
  {| name := name ino; size := size ino; blocks := bl;
     created := created ino; modified := modified ino |}.
Definition set_size_modified (ino : Inode) (sz now : Z) : Inode :=
  {| name := name ino; size := sz; blocks := blocks ino;
     created := created ino; modified := now |}.

(** Array reads. An index outside the array is undefined behaviour in C; the
    model reads nothing there ([None]). *)
Definition inode_at (fs : FileSystem) (i : Z) : option Inode :=
  if decide (0 ≤ i) then inodes fs !! Z.to_nat i else None.
Definition bitmap_at (fs : FileSystem) (i : Z) : option byte :=
  if decide (0 ≤ i) then bitmap fs !! Z.to_nat i else None.
Definition block_at (ino : Inode) (j : Z) : option Z :=
  if decide (0 ≤ j) then blocks ino !! Z.to_nat j else None.

(** [inode.name[0] != '\0']: the slot is in use. *)
Definition in_use (ino : Inode) : bool :=
  match name ino with
  | c :: _ => bool_decide (c ≠ x00)
  | [] => false
  end.

(** ** Object representations

    [fwrite] and [fread] move the bytes of the C objects to and from the
    image. How a [Superblock] or an [Inode] is laid out in bytes belongs to
    the platform, so it is an interface here. [sizeof(Superblock)] is six
    4-byte [int]s; [sizeof(Inode)] is 32 + 4 + 40 bytes and two [time_t],
    which is 84 bytes with a 4-byte [time_t] and 96 bytes with an 8-byte,
    8-byte-aligned one. *)
Class ABI := {
  sizeof_Inode : Z;
  sizeof_Inode_range : 84 ≤ sizeof_Inode ≤ 96;
  repr_Superblock : Superblock → list byte;
  repr_Superblock_length :
    ∀ sb, Z.of_nat (length (repr_Superblock sb)) = 24;
  load_Superblock : list byte → Superblock;
  repr_inodes : list Inode → list byte;
  repr_inodes_length :
    ∀ t, Z.of_nat (length (repr_inodes t)) = sizeof_Inode * MAX_INODES;
  load_inodes : list byte → list Inode
}.

Definition sizeof_Superblock : Z := 24.

(** An inode slot after [memset(fs->inodes, 0, sizeof(fs->inodes))]. *)
Definition zero_inode : Inode :=
  {| name := replicate (Z.to_nat MAX_FILENAME) x00; size := 0;
     blocks := replicate (Z.to_nat NBLOCKS) 0; created := 0; modified := 0 |}.

(** A file just created by [fopen(FS_FILENAME, "w+b")]. *)
Definition new_file : FILE := {| content := λ _, x00; position := 0 |}.

(** ** Bitmap helpers *)

(** [get_free_block]: scan of the bitmap from [data_start] up to
    [total_blocks - 1]; nothing is written. *)
Definition get_free_block (fs : FileSystem) : Z :=
  first_from (λ i, bool_decide (bitmap_at fs i = Some x00))
             (data_start (super fs))
             (Z.to_nat (total_blocks (super fs) - data_start (super fs))).

(** [set_block]: bounds-checked store into the bitmap. *)
Definition set_block (fs : FileSystem) (block value : Z) : FileSystem :=
  if decide (block < 0 ∨ block >= TOTAL_BLOCKS) then fs
  else set_bitmap fs (<[Z.to_nat block := byte_of_int value]> (bitmap fs)).

(** ** Inode lookup *)

(** [fs_find_inode]: first slot in use whose name compares equal. *)
Definition fs_find_inode (fs : FileSystem) (nm : list byte) : Z :=
  first_from (λ i, match inode_at fs i with
                   | Some ino => in_use ino && bool_decide (strcmp (name ino) nm = 0)
                   | None => false
                   end)
             0 (Z.to_nat MAX_INODES).

Section Operations.
Context `{ABI}.

(** The three write-backs of metadata: each seeks to the region and writes the
    whole object. *)
Definition flush_super (fs : FileSystem) : FileSystem :=
  set_fp fs (fwrite (fseek (fp fs) 0) (repr_Superblock (super fs))).
Definition flush_inodes (fs : FileSystem) : FileSystem :=
  set_fp fs (fwrite (fseek (fp fs)
                       (wrap_int (inode_table_start (super fs) * BLOCK_SIZE)))
                    (repr_inodes (inodes fs))).
Definition flush_bitmap (fs : FileSystem) : FileSystem :=
  set_fp fs (fwrite (fseek (fp fs)
                       (wrap_int (bitmap_start (super fs) * BLOCK_SIZE)))
                    (bitmap fs)).

(** ** Format and mount: [fs_init] *)

Definition ceil_blocks (bytes : Z) : Z :=
  bytes / BLOCK_SIZE + (if decide (bytes mod BLOCK_SIZE ≠ 0) then 1 else 0).

Fixpoint fwrite_times (f : FILE) (buf : list byte) (n : nat) : FILE :=
  match n with
  | O => f
  | S n' => fwrite_times (fwrite f buf) buf n'
  end.

(** The branch of [fs_init] taken when the image does not exist yet. *)
Definition fs_format (f0 : FILE) : FileSystem :=
  let its := 1 in
  let bms := its + ceil_blocks (sizeof_Inode * MAX_INODES) in
  let ds := bms + ceil_blocks TOTAL_BLOCKS in
  let sb := {| total_blocks := TOTAL_BLOCKS; free_blocks := TOTAL_BLOCKS - 1;
               block_size := BLOCK_SIZE; inode_table_start := its;
               bitmap_start := bms; data_start := ds |} in
  let fs := {| super := sb;
               inodes := replicate (Z.to_nat MAX_INODES) zero_inode;
               bitmap := replicate (Z.to_nat TOTAL_BLOCKS) x00;
               fp := f0 |} in
  let fs := set_block fs 0 1 in
  let fs := flush_super fs in
  let fs := flush_inodes fs in
  let fs := flush_bitmap fs in
  set_fp fs (fwrite_times (fp fs) (replicate (Z.to_nat BLOCK_SIZE) x00)
               (Z.to_nat (TOTAL_BLOCKS - data_start (super fs)))).

(** The branch taken when the image exists: the three regions are read back as
    they are, with no check. *)
Definition fs_mount (f0 : FILE) : FileSystem :=
  let '(b, f) := fread (fseek f0 0) sizeof_Superblock in
  let sb := load_Superblock b in
  let '(b, f) := fread (fseek f (wrap_int (inode_table_start sb * BLOCK_SIZE)))
                       (sizeof_Inode * MAX_INODES) in
  let t := load_inodes b in
  let '(b, f) := fread (fseek f (wrap_int (bitmap_start sb * BLOCK_SIZE)))
                       TOTAL_BLOCKS in
  {| super := sb; inodes := t; bitmap := b; fp := f |}.

(** [fs_init]: [image] is the existing file, if [fopen(.., "r+b")] finds one. *)
Definition fs_init (image : option FILE) : FileSystem :=
  match image with
  | None => fs_format new_file
  | Some f => fs_mount f
  end.

(** ** create *)

Definition fs_create_file (fs : FileSystem) (nm : list byte) (now : Z)
  : FileSystem * (error + Z) :=
  if decide (fs_find_inode fs nm ≠ -1) then (fs, inl AlreadyExists)
  else
    let inode_num :=
      first_from (λ i, match inode_at fs i with
                       | Some ino => negb (in_use ino)
                       | None => false
                       end) 0 (Z.to_nat MAX_INODES) in
    if decide (inode_num = -1) then (fs, inl NoFreeInode)
    else
      let init (ino : Inode) : Inode :=
        {| name := strncpy nm MAX_FILENAME;
           size := 0;
           blocks := replicate (length (blocks ino)) SENTINEL;
           created := now;
           modified := now |} in
      let fs := set_inodes fs (alter init (Z.to_nat inode_num) (inodes fs)) in
      (flush_inodes fs, inr inode_num).

(** ** write *)

(** [inode->blocks[i] = block] for the inode [inode_num]. *)
Definition assign_block (fs : FileSystem) (inode_num i block : Z) : FileSystem :=
  set_inodes fs
    (alter (λ ino, set_blocks ino (<[Z.to_nat i := block]> (blocks ino)))
           (Z.to_nat inode_num) (inodes fs)).

(** One allocation: the body of [if (inode->blocks[i] == -1)] once
    [get_free_block] has returned [block]. *)
Definition alloc_step (fs : FileSystem) (inode_num i block : Z) : FileSystem :=
  let fs := assign_block fs inode_num i block in
  let fs := set_block fs block 1 in
  let fs := set_super fs (set_free_blocks (super fs)
                            (wrap_int (free_blocks (super fs) - 1))) in
  let fs := flush_bitmap fs in
  flush_super fs.

(** The allocation loop of [fs_write_file], from ordinal [i] for [n] rounds.
    The flag is [false] when the loop left through [return -1]. *)
Fixpoint alloc_blocks (fs : FileSystem) (inode_num i : Z) (n : nat)
  : FileSystem * bool :=
  match n with
  | O => (fs, true)
  | S n' =>
      match inode_at fs inode_num ≫= λ ino, block_at ino i with
      | Some b =>
          if decide (b = SENTINEL) then
            let block := get_free_block fs in
            if decide (block = -1) then (fs, false)
            else alloc_blocks (alloc_step fs inode_num i block) inode_num (i + 1) n'
          else alloc_blocks fs inode_num (i + 1) n'
      | None => alloc_blocks fs inode_num (i + 1) n'
      end
  end.

(** The block buffer: [memset(buffer, 0, BLOCK_SIZE)] then
    [memcpy(buffer, data + off, copy_len)]. *)
Definition block_buffer (data : list byte) (off copy_len : Z) : list byte :=
  let chunk := take (Z.to_nat copy_len) (drop (Z.to_nat off) data) in
  chunk ++ replicate (Z.to_nat BLOCK_SIZE - length chunk) x00.

(** The data loop of [fs_write_file]; [data_len] is what is left to copy. *)
Fixpoint write_blocks (fs : FileSystem) (inode_num : Z) (data : list byte)
    (data_len i : Z) (n : nat) : FileSystem :=
  match n with
  | O => fs
  | S n' =>
      match inode_at fs inode_num ≫= λ ino, block_at ino i with
      | Some block =>
          if decide (block = SENTINEL)
          then write_blocks fs inode_num data data_len (i + 1) n'
          else
            let copy_len :=
              if decide (data_len > BLOCK_SIZE) then BLOCK_SIZE else data_len in
            let buffer := block_buffer data (i * BLOCK_SIZE) copy_len in
            let fs := set_fp fs (fwrite (fseek (fp fs) (wrap_int (block * BLOCK_SIZE)))
                                        buffer) in
            write_blocks fs inode_num data (data_len - copy_len) (i + 1) n'
      | None => write_blocks fs inode_num data data_len (i + 1) n'
      end
  end.

Definition fs_write_file (fs : FileSystem) (nm data : list byte) (now : Z)
  : FileSystem * (error + Z) :=
  let inode_num := fs_find_inode fs nm in
  if decide (inode_num = -1) then (fs, inl NotFound)
  else
    let data_len := wrap_int (strlen data) in
    if decide (data_len > MAX_FILE_SIZE) then (fs, inl TooLarge)
    else
      let blocks_needed := (data_len + BLOCK_SIZE - 1) `quot` BLOCK_SIZE in
      let '(fs, ok) := alloc_blocks fs inode_num 0 (Z.to_nat blocks_needed) in
      if ok then
        let fs := write_blocks fs inode_num (cstr data) data_len 0
                               (Z.to_nat blocks_needed) in
        let fs := set_inodes fs
                    (alter (λ ino, set_size_modified ino (wrap_int (strlen data)) now)
                           (Z.to_nat inode_num) (inodes fs)) in
        (flush_inodes fs, inr 0)
      else (fs, inl NoFreeBlock).

(** ** read *)

(** The loop of [fs_read_file]:
    [for (i = 0; i < 10 && bytes_read < inode->size; i++)], leaving at the
    first unused entry. [acc] is what [data] holds so far. *)
Fixpoint read_blocks (f : FILE) (ino : Inode) (acc : list byte)
    (bytes_read i : Z) (n : nat) : list byte * FILE :=
  match n with
  | O => (acc, f)
  | S n' =>
      if decide (bytes_read < size ino) then
        match block_at ino i with
        | Some block =>
            if decide (block = SENTINEL) then (acc, f)
            else
              let '(buffer, f) := fread (fseek f (wrap_int (block * BLOCK_SIZE))) BLOCK_SIZE in
              let copy_len := if decide (size ino - bytes_read > BLOCK_SIZE)
                              then BLOCK_SIZE else size ino - bytes_read in
              read_blocks f ino (acc ++ take (Z.to_nat copy_len) buffer)
                          (bytes_read + copy_len) (i + 1) n'
        | None => (acc, f)
        end
      else (acc, f)
  end.

(** [fs_read_file]: the content it prints. *)
Definition fs_read_file (fs : FileSystem) (nm : list byte)
  : FileSystem * (error + list byte) :=
  let inode_num := fs_find_inode fs nm in
  if decide (inode_num = -1) then (fs, inl NotFound)
  else
    match inode_at fs inode_num with
    | Some ino =>
        if decide (size ino = 0) then (fs, inr [])
        else
          let '(data, f) := read_blocks (fp fs) ino [] 0 0 (Z.to_nat NBLOCKS) in
          (set_fp fs f, inr data)
    | None => (fs, inl NotFound)
    end.

(** ** list *)

(** [fs_list_files]: name and size of every slot in use, in table order. *)
Definition fs_list_files (fs : FileSystem) : list (list byte * Z) :=
  (λ ino, (cstr (name ino), size ino)) <$> filter (λ ino, in_use ino = true) (inodes fs).

(** ** Sessions *)

Inductive op :=
  | Create (nm : list byte) (now : Z)
  | Write (nm data : list byte) (now : Z)
  | Read (nm : list byte)
  | List.

Definition step (fs : FileSystem) (o : op) : FileSystem :=
  match o with
  | Create nm now => (fs_create_file fs nm now).1
  | Write nm data now => (fs_write_file fs nm data now).1
  | Read nm => (fs_read_file fs nm).1
  | List => fs
  end.

(** The state after a sequence of operations. *)
Definition run (fs : FileSystem) (ops : list op) : FileSystem :=
  foldl step fs ops.

End Operations.

(** ** A concrete platform: little-endian LP64

    4-byte [int], 8-byte [time_t] aligned to 8 bytes: [sizeof(Inode) = 96],
    with 4 bytes of padding between [blocks] and [created]. *)
Module LP64.

(** The [n] low bytes of [z], least significant first. *)
Fixpoint le_bytes (n : nat) (z : Z) : list byte :=
  match n with
  | O => []
  | S n' => byte_of_int z :: le_bytes n' (z / 256)
  end.

Definition le_unsigned (bs : list byte) : Z :=
  foldr (λ b acc, int_of_byte b + 256 * acc) 0 bs.

Definition le_int (bs : list byte) : Z := wrap_int (le_unsigned bs).

Definition le_long (bs : list byte) : Z :=
  (le_unsigned bs + 2 ^ 63) mod 2 ^ 64 - 2 ^ 63.

(** A list cut or padded to exactly [n] entries: a C array of [n]. *)
Definition fit {A} (n : nat) (d : A) (l : list A) : list A :=
  take n (l ++ replicate n d).

Definition enc_Superblock (sb : Superblock) : list byte :=
  le_bytes 4 (total_blocks sb) ++ le_bytes 4 (free_blocks sb) ++
  le_bytes 4 (block_size sb) ++ le_bytes 4 (inode_table_start sb) ++
  le_bytes 4 (bitmap_start sb) ++ le_bytes 4 (data_start sb).

Definition dec_Superblock (b : list byte) : Superblock :=
  {| total_blocks := le_int (take 4 b);
     free_blocks := le_int (take 4 (drop 4 b));
     block_size := le_int (take 4 (drop 8 b));
     inode_table_start := le_int (take 4 (drop 12 b));
     bitmap_start := le_int (take 4 (drop 16 b));
     data_start := le_int (take 4 (drop 20 b)) |}.

Definition enc_Inode (ino : Inode) : list byte :=
  fit 32 x00 (name ino) ++ le_bytes 4 (size ino) ++
  fit 40 x00 (fit 10 0 (blocks ino) ≫= le_bytes 4) ++
  replicate 4 x00 ++ le_bytes 8 (created ino) ++ le_bytes 8 (modified ino).

Definition dec_Inode (b : list byte) : Inode :=
  {| name := take 32 b;
     size := le_int (take 4 (drop 32 b));
     blocks := (λ j : nat, le_int (take 4 (drop (36 + 4 * j) b))) <$> seq 0 10;
     created := le_long (take 8 (drop 80 b));
     modified := le_long (take 8 (drop 88 b)) |}.

Definition enc_inodes (t : list Inode) : list byte :=
  fit (96 * 128) x00 (fit 128 zero_inode t ≫= enc_Inode).

Definition dec_inodes (b : list byte) : list Inode :=
  (λ i : nat, dec_Inode (take 96 (drop (96 * i) b))) <$> seq 0 128.

Definition abi : ABI.
Proof.
  assert (Hle : ∀ n z, length (le_bytes n z) = n).
  { intros n. induction n as [|n IH]; intros z; cbn [le_bytes length];
      [reflexivity | by rewrite IH]. }
  assert (Hfit : ∀ n (l : list byte), length (fit n x00 l) = n).
  { intros n l. unfold fit. rewrite length_take, length_app, length_replicate. lia. }
  refine {| sizeof_Inode := 96;
            repr_Superblock := enc_Superblock;
            load_Superblock := dec_Superblock;
            repr_inodes := enc_inodes;
            load_inodes := dec_inodes |}.
  - lia.
  - intros sb. unfold enc_Superblock. rewrite !length_app, !Hle. reflexivity.
  - intros t. unfold enc_inodes. rewrite Hfit. reflexivity.
Defined.

End LP64.

(** ** Well-formed states *)

(** A value an [int] can hold. *)
Definition int_range (z : Z) : Prop := INT_MIN ≤ z ≤ INT_MAX.

(** The shape the C types give the arrays, and the counter an [int]. *)
Definition inode_shape (ino : Inode) : Prop :=
  length (name ino) = Z.to_nat MAX_FILENAME ∧
  length (blocks ino) = Z.to_nat NBLOCKS.

Definition wf_shape (fs : FileSystem) : Prop :=
  length (inodes fs) = Z.to_nat MAX_INODES ∧
  Forall inode_shape (inodes fs) ∧
  length (bitmap fs) = Z.to_nat TOTAL_BLOCKS ∧
  int_range (free_blocks (super fs)).

#[global] Instance inode_shape_dec ino : Decision (inode_shape ino).
Proof. unfold inode_shape. apply _. Defined.

#[global] Instance wf_shape_dec fs : Decision (wf_shape fs).
Proof. unfold wf_shape, int_range. apply _. Defined.

(** Slot [i] of the table is in use and holds the string [nm]. *)
Definition holds_name (fs : FileSystem) (i : Z) (nm : list byte) : Prop :=
  0 ≤ i < MAX_INODES ∧
  ∃ ino, inode_at fs i = Some ino ∧ in_use ino = true ∧ cstr (name ino) = cstr nm.

(** Slot [i] of the table is free. *)
Definition free_slot (fs : FileSystem) (i : Z) : Prop :=
  0 ≤ i < MAX_INODES ∧
  ∃ ino, inode_at fs i = Some ino ∧ in_use ino = false.

(** A C string literal. *)
Definition str (s : string) : list byte := list_byte_of_string s.

(** Inode [i] is in use and its [blocks[j]] holds the block index [b]. *)
Definition owns (fs : FileSystem) (i j b : Z) : Prop :=
  ∃ ino, inode_at fs i = Some ino ∧ in_use ino = true ∧
         block_at ino j = Some b ∧ b ≠ SENTINEL.

(** Any slot of the table, in use or free, whose [blocks[j]] is not -1. *)
Definition slot_entry (fs : FileSystem) (i j b : Z) : Prop :=
  ∃ ino, inode_at fs i = Some ino ∧ block_at ino j = Some b ∧ b ≠ SENTINEL.

Definition blocks_in_data_region (fs : FileSystem) : Prop :=
  ∀ i j b, owns fs i j b →
    data_start (super fs) ≤ b < total_blocks (super fs).

Definition blocks_marked_used (fs : FileSystem) : Prop :=
  ∀ i j b, owns fs i j b → bitmap_at fs b = Some x01.

Definition blocks_unshared (fs : FileSystem) : Prop :=
  ∀ i j i' j' b, owns fs i j b → owns fs i' j' b → i = i' ∧ j = j'.

(** The entries of [blocks[]] that are not -1 come first. *)
Definition prefix_blocks (ino : Inode) : Prop :=
  ∀ j j' b, block_at ino j = Some SENTINEL → j ≤ j' →
            block_at ino j' = Some b → b = SENTINEL.

(** Every ordinal that [size] reaches into has a block. *)
Definition covers_size (ino : Inode) : Prop :=
  ∀ j, 0 ≤ j → j * BLOCK_SIZE < size ino →
       ∃ b, block_at ino j = Some b ∧ b ≠ SENTINEL.

(** The layout fields as [fs_init] computes them on format. *)
Definition formatted_layout (sb : Superblock) : Prop :=
  total_blocks sb = TOTAL_BLOCKS ∧ block_size sb = BLOCK_SIZE ∧
  inode_table_start sb = 1 ∧ bitmap_start sb = 4 ∧ data_start sb = 5.

(** Number of bitmap entries marked used. *)
Definition count_used (bm : list byte) : Z :=
  Z.of_nat (length (filter (λ b, b ≠ x00) bm)).

(** The invariant of a session that started from a formatted image. *)
Record fs_inv (fs : FileSystem) : Prop := {
  inv_shape : wf_shape fs;
  inv_layout : formatted_layout (super fs);
  inv_region : blocks_in_data_region fs;
  inv_used : blocks_marked_used fs;
  inv_unshared : blocks_unshared fs;
  inv_prefix : ∀ i ino, inode_at fs i = Some ino → prefix_blocks ino;
  inv_size : ∀ i ino, inode_at fs i = Some ino → covers_size ino;
  inv_count : free_blocks (super fs) = TOTAL_BLOCKS - count_used (bitmap fs)
}.

(** Number of positions that hold -1 in [old] and a block in [new]: the
    blocks a write attached. *)
Fixpoint count_new (old new : list Z) : Z :=
  match old, new with
  | a :: old', b :: new' =>
      (if decide (a = SENTINEL ∧ b ≠ SENTINEL) then 1 else 0) + count_new old' new'
  | _, _ => 0
  end.

(** Number of blocks attached to inode [k] between the states [fs] and
    [fs']. *)
Definition attached (fs fs' : FileSystem) (k : Z) : Z :=
  match inode_at fs k, inode_at fs' k with
  | Some ino, Some ino' => count_new (blocks ino) (blocks ino')
  | _, _ => 0
  end.

(** Number of entries of [blocks[]] that are not -1. *)
Definition count_blocks (bl : list Z) : Z :=
  Z.of_nat (length (filter (λ b, b ≠ SENTINEL) bl)).

(** The least [k] with [k * BLOCK_SIZE >= len], for [len >= 0]. *)
Definition ceil_div_block (len : Z) : Z := - ((- len) / BLOCK_SIZE).

(** What the allocation loop has done to the state [fs0] it started from when
    it is about to handle ordinal [i] of inode [k] (which was [ino0]). *)
Record alloc_rel (fs0 : FileSystem) (ino0 : Inode) (k i : Z) (fs : FileSystem)
  : Prop := {
  ar_super : set_free_blocks (super fs) (free_blocks (super fs0)) = super fs0;
  ar_bitmap_length : length (bitmap fs) = length (bitmap fs0);
  ar_used : ∀ b x, bitmap_at fs0 b = Some x → x ≠ x00 → bitmap_at fs b = Some x;
  ar_free : ∀ b, bitmap_at fs b = Some x00 → bitmap_at fs0 b = Some x00;
  ar_others : ∀ j, j ≠ k → inode_at fs j = inode_at fs0 j;
  ar_inode : ∃ ino,
    inode_at fs k = Some ino ∧
    name ino = name ino0 ∧ size ino = size ino0 ∧
    created ino = created ino0 ∧ modified ino = modified ino0 ∧
    length (blocks ino) = length (blocks ino0) ∧
    (∀ j, i ≤ j → block_at ino j = block_at ino0 j) ∧
    (∀ j b0, block_at ino0 j = Some b0 → b0 ≠ SENTINEL → block_at ino j = Some b0) ∧
    (∀ j b, block_at ino0 j = Some SENTINEL → block_at ino j = Some b →
            b ≠ SENTINEL →
            bitmap_at fs0 b = Some x00 ∧ bitmap_at fs b = Some x01) ∧
    free_blocks (super fs) =
      wrap_int (free_blocks (super fs0) - count_new (blocks ino0) (blocks ino))
}.

(** The bytes of block [b] in the image. *)
Definition block_content (f : FILE) (b : Z) : list byte :=
  content f <$> seqZ (b * BLOCK_SIZE) BLOCK_SIZE.

(** What is left to copy of [len] bytes when the loop reaches ordinal [j]. *)
Definition remaining (len j : Z) : Z := Z.max 0 (len - j * BLOCK_SIZE).

(** The bitmap entries of the blocks before the data region, as format leaves
    them: block 0 marked, the blocks of the inode table and of the bitmap
    not. *)
Definition metadata_bits (fs : FileSystem) : Prop :=
  bitmap_at fs 0 = Some x01 ∧
  ∀ b, 1 ≤ b < data_start (super fs) → bitmap_at fs b = Some x00.

(** Number of blocks of the data region the bitmap has free: the blocks
    [get_free_block] can still return. *)
Definition free_data_blocks (fs : FileSystem) : Z :=
  Z.of_nat (length (filter (λ b, b = x00)
                      (drop (Z.to_nat (data_start (super fs))) (bitmap fs)))).

(** The slots in use come first in the table: after a free slot every slot is
    free. *)
Definition slots_in_order (fs : FileSystem) : Prop :=
  ∀ i j ino, free_slot fs i → i ≤ j → inode_at fs j = Some ino → in_use ino = false.

(** Slot [k] holds in [fs'] a file that reads as in [fs]: the same [size],
    and at every ordinal [size] reaches into the same block, inside the
    image, with the same bytes. *)
Definition same_file (fs fs' : FileSystem) (k : Z) : Prop :=
  ∃ ino ino',
    inode_at fs k = Some ino ∧ inode_at fs' k = Some ino' ∧
    size ino' = size ino ∧
    ∀ j, 0 ≤ j → j * BLOCK_SIZE < size ino →
         ∃ b, block_at ino j = Some b ∧ block_at ino' j = Some b ∧
              b ≠ SENTINEL ∧ 0 ≤ b < TOTAL_BLOCKS ∧
              block_content (fp fs') b = block_content (fp fs) b.

(** ** The image *)

(** The [n] bytes of the image from offset [off]. *)
Definition region (f : FILE) (off n : Z) : list byte := content f <$> seqZ off n.

Section Image.
Context `{ABI}.

(** The image holds the superblock and the bitmap of the state. *)
Definition counters_on_image (fs : FileSystem) : Prop :=
  region (fp fs) 0 sizeof_Superblock = repr_Superblock (super fs) ∧
  region (fp fs) (bitmap_start (super fs) * BLOCK_SIZE) TOTAL_BLOCKS = bitmap fs.

(** The image holds the inode table of the state. *)
Definition inodes_on_image (fs : FileSystem) : Prop :=
  region (fp fs) (inode_table_start (super fs) * BLOCK_SIZE)
         (sizeof_Inode * MAX_INODES)
  = repr_inodes (inodes fs).

End Image.

(** ** The allocator of minifs_2.c

    There the store lives in memory, [fs_init] sets [data_start = 0] and
    [total_blocks = TOTAL_BLOCKS], and the scan runs over the whole bitmap. *)
Module Minifs2.

Definition get_free_block (bitmap : list byte) : Z :=
  first_from (λ i, bool_decide (bitmap !! Z.to_nat i = Some x00))
             0 (Z.to_nat TOTAL_BLOCKS).

(** The superblock [fs_init] of minifs_2.c leaves. *)
Definition init_super : Superblock :=
  {| total_blocks := TOTAL_BLOCKS; free_blocks := TOTAL_BLOCKS;
     block_size := BLOCK_SIZE; inode_table_start := 0;
     bitmap_start := 0; data_start := 0 |}.

End Minifs2.

(** ** The create of omin.c

    An earlier draft of the same program: its [fs_create_file] sizes the new
    file from the length of its name and gives it blocks at once, and it has
    no write or read. It shares [fs_find_inode], [get_free_block] and
    [set_block] with tinyfs.c. *)
Module Omin.

(** [for (i = 0; i < num_blocks; i++)]: a block for every ordinal, whatever
    the entry held. *)
Fixpoint create_blocks (fs : FileSystem) (inode_num i : Z) (n : nat)
  : FileSystem * bool :=
  match n with
  | O => (fs, true)
  | S n' =>
      let free_block := get_free_block fs in
      if decide (free_block = -1) then (fs, false)
      else
        let fs := assign_block fs inode_num i free_block in
        let fs := set_block fs free_block 1 in
        create_blocks fs inode_num (i + 1) n'
  end.

(** The array [dst] after [strcpy(dst, src)], for a string that fits it: the
    bytes after the terminator stay. *)
Definition strcpy (dst src : list byte) : list byte :=
  take (length dst) (cstr src ++ x00 :: drop (S (length (cstr src))) dst).

Definition fs_create_file `{ABI} (fs : FileSystem) (nm : list byte) (now : Z)
  : FileSystem * (error + Z) :=
  if decide (fs_find_inode fs nm ≠ -1) then (fs, inl AlreadyExists)
  else
    let inode_num :=
      first_from (λ i, match inode_at fs i with
                       | Some ino => negb (in_use ino)
                       | None => false
                       end) 0 (Z.to_nat MAX_INODES) in
    if decide (inode_num = -1) then (fs, inl NoFreeInode)
    else
      let num_blocks := wrap_int ((strlen nm + 1) / BLOCK_SIZE + 1) in
      let '(fs, ok) := create_blocks fs inode_num 0 (Z.to_nat num_blocks) in
      if ok then
        let fs := set_inodes fs
                    (alter (λ ino, {| name := strcpy (name ino) nm;
                                      size := wrap_int (strlen nm + 1);
                                      blocks := blocks ino;
                                      created := now; modified := now |})
                           (Z.to_nat inode_num) (inodes fs)) in
        (flush_inodes fs, inr 0)
      else (fs, inl NoFreeBlock).

End Omin.

(** ** The store of minifs_2.c

    minifs_2.c keeps the whole file system in one global in memory: the
    superblock, the inode table, the bitmap and the array
    [char data[TOTAL_BLOCKS][BLOCK_SIZE]], which is byte-addressed here
    ([data[b][o]] at [b * BLOCK_SIZE + o]). Its [Inode] has the fields of
    tinyfs.c, with [ctime] and [mtime] for [created] and [modified]. An
    operation that indexes the inode table with -1 has no defined result
    ([None]). *)
Module Minifs2Store.

Record Store := mkStore {
  st_super : Superblock;
  st_inodes : list Inode;
  st_bitmap : list byte;
  st_data : Z → byte
}.

(** [fs_init]: [memset(&fs, 0, sizeof(FileSystem))] and the superblock. *)
Definition fs_init : Store :=
  {| st_super := Minifs2.init_super;
     st_inodes := replicate (Z.to_nat MAX_INODES) zero_inode;
     st_bitmap := replicate (Z.to_nat TOTAL_BLOCKS) x00;
     st_data := λ _, x00 |}.

(** [fs_find_inode]: the first slot whose name compares equal; whether the
    slot is in use is not looked at. *)
Definition fs_find_inode (s : Store) (nm : list byte) : Z :=
  first_from (λ i, match st_inodes s !! Z.to_nat i with
                   | Some ino => bool_decide (strcmp (name ino) nm = 0)
                   | None => false
                   end)
             0 (Z.to_nat MAX_INODES).

(** The [blocks] array after [fs_update_inode] has recorded [block_index]. *)
Definition record_block (ino : Inode) (block_index : Z) : list Z :=
  if decide (size ino = 0) then <[0%nat := block_index]> (blocks ino)
  else
    let i := first_from (λ i, bool_decide (blocks ino !! Z.to_nat i = Some 0))
                        0 10 in
    if decide (i = -1) then blocks ino
    else <[Z.to_nat i := block_index]> (blocks ino).

Definition fs_update_inode (s : Store) (inode_index block_index sz : Z) : Store :=
  {| st_super := st_super s;
     st_inodes :=
       alter (λ ino, {| name := name ino; size := sz;
                        blocks := record_block ino block_index;
                        created := created ino; modified := modified ino |})
             (Z.to_nat inode_index) (st_inodes s);
     st_bitmap := <[Z.to_nat block_index := x01]> (st_bitmap s);
     st_data := st_data s |}.

(** [memcpy(fs.data[block], src + start, len)]. *)
Definition memcpy_block (d : Z → byte) (block : Z) (src : list byte)
    (start len : Z) : Z → byte :=
  λ a, if decide (block * BLOCK_SIZE ≤ a < block * BLOCK_SIZE + len)
       then src !!! Z.to_nat (start + (a - block * BLOCK_SIZE))
       else d a.

(** The loop of [fs_write_file]: a fresh block for every chunk. The flag is
    [false] when it left through "No free blocks available". *)
Fixpoint write_chunks (s : Store) (inode_index : Z) (data : list byte)
    (data_len i : Z) (n : nat) : Store * bool :=
  match n with
  | O => (s, true)
  | S n' =>
      let block_index := Minifs2.get_free_block (st_bitmap s) in
      if decide (block_index = -1) then (s, false)
      else
        let start := i * BLOCK_SIZE in
        let end_ := if decide (start + BLOCK_SIZE < data_len)
                    then start + BLOCK_SIZE else data_len in
        let s := {| st_super := st_super s; st_inodes := st_inodes s;
                    st_bitmap := st_bitmap s;
                    st_data := memcpy_block (st_data s) block_index data
                                            start (end_ - start) |} in
        let s := fs_update_inode s inode_index block_index end_ in
        write_chunks s inode_index data data_len (i + 1) n'
  end.

(** [fs_write_file]: creates the file when the name is not found. *)
Definition fs_write_file (s : Store) (nm data : list byte) (now : Z)
  : option Store :=
  let found := fs_find_inode s nm in
  let '(s, inode_index) :=
    if decide (found = -1) then
      let i := first_from (λ i, match st_inodes s !! Z.to_nat i with
                                | Some ino => negb (in_use ino)
                                | None => false
                                end) 0 (Z.to_nat MAX_INODES) in
      if decide (i = -1) then (s, -1)
      else
        ({| st_super := st_super s;
            st_inodes :=
              alter (λ ino, {| name := Omin.strcpy (name ino) nm;
                               size := size ino; blocks := blocks ino;
                               created := now; modified := modified ino |})
                    (Z.to_nat i) (st_inodes s);
            st_bitmap := st_bitmap s; st_data := st_data s |}, i)
    else (s, found) in
  if decide (inode_index = -1) then None
  else
    let data_len := wrap_int (strlen data) in
    let blocks_needed := (data_len + BLOCK_SIZE - 1) `quot` BLOCK_SIZE in
    let '(s, ok) := write_chunks s inode_index (cstr data) data_len 0
                                 (Z.to_nat blocks_needed) in
    if ok then
      Some {| st_super := st_super s;
              st_inodes :=
                alter (λ ino, {| name := name ino; size := size ino;
                                 blocks := blocks ino; created := created ino;
                                 modified := now |})
                      (Z.to_nat inode_index) (st_inodes s);
              st_bitmap := st_bitmap s; st_data := st_data s |}
    else Some s.

(** [printf("%s", fs.data[b])]: the bytes from the start of the block up to
    the first NUL of the array. *)
Definition string_at (d : Z → byte) (b : Z) : list byte :=
  cstr (d <$> seqZ (b * BLOCK_SIZE) (TOTAL_BLOCKS * BLOCK_SIZE - b * BLOCK_SIZE)).

(** [fs_read_file]: what it prints of the file, one [%s] for every entry of
    [blocks] that is not 0. *)
Definition fs_read_file (s : Store) (nm : list byte) : error + list byte :=
  let k := fs_find_inode s nm in
  if decide (k = -1) then inl NotFound
  else
    match st_inodes s !! Z.to_nat k with
    | Some ino =>
        inr (concat ((λ b, string_at (st_data s) b)
                       <$> filter (λ b, b ≠ 0) (blocks ino)))
    | None => inl NotFound
    end.

End Minifs2Store.

(** ** Concrete states on the LP64 platform *)
Module Runs.

(** The state right after format, and after creating ["a.txt"] in it. *)
Definition fs0 : FileSystem := fs_init (H := LP64.abi) None.
Definition fs1 : FileSystem :=
  run (H := LP64.abi) fs0 [Create (str "a.txt") 100].

(** A string of 4097 bytes: one block and one byte. *)
Definition two_blocks : list byte := replicate 4096 "a"%byte ++ ["b"%byte].

(** The state after a write of two blocks to ["a.txt"]. *)
Definition fs2 : FileSystem :=
  run (H := LP64.abi) fs0 [Create (str "a.txt") 100; Write (str "a.txt") two_blocks 200].

(** A session that fills the image: 101 files of ten blocks each, which
    leaves 9 of the 1019 data blocks, and one more empty file. *)
Definition fname (k : nat) : list byte :=
  [byte_of_int (65 + Z.of_nat k / 26); byte_of_int (97 + Z.of_nat k mod 26)].

Definition full_file : list byte := replicate (Z.to_nat MAX_FILE_SIZE) "x"%byte.

Definition fill_ops (n : nat) : list op :=
  seq 0 n ≫= λ k, [Create (fname k) 0; Write (fname k) full_file 0].

Definition fs_full : FileSystem :=
  run (H := LP64.abi) fs0 (fill_ops 101 ++ [Create (fname 101) 0]).

(** A string of 8193 bytes: two blocks and one byte. *)
Definition three_blocks : list byte :=
  replicate 4096 "a"%byte ++ replicate 4096 "b"%byte ++ ["c"%byte].

(** The image omin.c leaves after its format and its create of ["a.txt"]
    (omin.c and tinyfs.c open the same file name and format alike), and the
    state tinyfs.c mounts from that image. *)
Definition omin_image : FILE :=
  fp (Omin.fs_create_file (H := LP64.abi) fs0 (str "a.txt") 100).1.

Definition mounted : FileSystem := fs_init (H := LP64.abi) (Some omin_image).

End Runs.

(** ** More concrete states on the LP64 platform *)
Module Sessions.
Import Runs.

(** The session of the specification: format, create ["a.txt"], write
    ["hello world"] to it. *)
Definition hello_ops : list op :=
  [Create (str "a.txt") 100; Write (str "a.txt") (str "hello world") 200].

Definition fs_hello : FileSystem := run (H := LP64.abi) fs0 hello_ops.

(** A state whose inode table has no free slot. *)
Definition full_table : FileSystem :=
  set_inodes fs0
    (replicate (Z.to_nat MAX_INODES)
       {| name := strncpy (str "x") MAX_FILENAME; size := 0;
          blocks := replicate (Z.to_nat NBLOCKS) SENTINEL;
          created := 0; modified := 0 |}).

End Sessions.

(** * Properties *)

(** ** Loops and arithmetic *)

Lemma first_from_spec (p : Z → bool) (i : Z) (n : nat) :
  (first_from p i n = -1 ∧ ∀ k, i ≤ k < i + Z.of_nat n → p k = false) ∨
  (i ≤ first_from p i n < i + Z.of_nat n ∧ p (first_from p i n) = true ∧
   ∀ k, i ≤ k < first_from p i n → p k = false).
Proof.
  revert i. induction n as [|n IH]; intros i; simpl.
  - left. split; [done | intros k Hk; lia].
  - destruct (p i) eqn:Hp.
    + right. split; [lia | split; [done | intros k Hk; lia]].
    + destruct (IH (i + 1)) as [[Hr Hall] | (Hr & Hpr & Hall)].
      * left. split; [done |]. intros k Hk.
        destruct (decide (k = i)) as [-> | Hne]; [done | apply Hall; lia].
      * right. split; [lia | split; [done |]]. intros k Hk.
        destruct (decide (k = i)) as [-> | Hne]; [done | apply Hall; lia].
Qed.

Lemma first_from_ext (p q : Z → bool) (i : Z) (n : nat) :
  (∀ k, i ≤ k < i + Z.of_nat n → p k = q k) →
  first_from p i n = first_from q i n.
Proof.
  revert i. induction n as [|n IH]; intros i Hpq; simpl; [done |].
  rewrite <- (Hpq i) by lia. destruct (p i); [done |].
  apply IH. intros k Hk. apply Hpq. lia.
Qed.

Lemma wrap_int_id (z : Z) : INT_MIN ≤ z ≤ INT_MAX → wrap_int z = z.
Proof.
  unfold INT_MIN, INT_MAX, wrap_int. intros Hz.
  rewrite Z.mod_small by lia. lia.
Qed.

Lemma wrap_int_range (z : Z) : INT_MIN ≤ wrap_int z ≤ INT_MAX.
Proof.
  unfold INT_MIN, INT_MAX, wrap_int.
  pose proof (Z.mod_pos_bound (z + 2 ^ 31) (2 ^ 32)). lia.
Qed.

Lemma byte_of_int_1 : byte_of_int 1 = x01.
Proof. reflexivity. Qed.

(** ** The allocator *)

Lemma bitmap_at_free_bounds (fs : FileSystem) (i : Z) (b : byte) :
  bitmap_at fs i = Some b → 0 ≤ i < Z.of_nat (length (bitmap fs)).
Proof.
  unfold bitmap_at. destruct (decide (0 ≤ i)); [| done].
  intros Hb%lookup_lt_Some. lia.
Qed.

Lemma get_free_block_spec (fs : FileSystem) :
  let ds := data_start (super fs) in
  let tb := total_blocks (super fs) in
  let r := get_free_block fs in
  (r = -1 ∧ ∀ k, ds ≤ k < tb → bitmap_at fs k ≠ Some x00) ∨
  (r ≠ -1 ∧ ds ≤ r < tb ∧ bitmap_at fs r = Some x00 ∧
   ∀ k, ds ≤ k < r → bitmap_at fs k ≠ Some x00).
Proof.
  intros ds tb r. unfold r, get_free_block. fold ds tb.
  destruct (first_from_spec (λ i, bool_decide (bitmap_at fs i = Some x00)) ds
              (Z.to_nat (tb - ds))) as [[Hr Hall] | (Hr & Hpr & Hall)].
  - left. split; [done |]. intros k Hk.
    specialize (Hall k). rewrite bool_decide_eq_false in Hall. apply Hall. lia.
  - right. apply bool_decide_eq_true in Hpr.
    split; [| split; [lia | split; [done |]]].
    + apply bitmap_at_free_bounds in Hpr. lia.
    + intros k Hk. specialize (Hall k Hk). by apply bool_decide_eq_false in Hall.
Qed.

Section Properties.
Context `{ABI}.

(** ** Format *)

Lemma ceil_blocks_spec (bytes : Z) :
  0 ≤ bytes →
  BLOCK_SIZE * (ceil_blocks bytes - 1) < bytes ≤ BLOCK_SIZE * ceil_blocks bytes.
Proof.
  intros Hb. unfold ceil_blocks, BLOCK_SIZE.
  pose proof (Z.div_mod bytes 4096 ltac:(lia)).
  pose proof (Z.mod_pos_bound bytes 4096 ltac:(lia)).
  case_decide; lia.
Qed.

Lemma ceil_blocks_inodes : ceil_blocks (sizeof_Inode * MAX_INODES) = 3.
Proof.
  pose proof sizeof_Inode_range as Hs.
  pose proof (ceil_blocks_spec (sizeof_Inode * MAX_INODES)) as Hc.
  unfold MAX_INODES, BLOCK_SIZE in *. lia.
Qed.

Lemma ceil_blocks_bitmap : ceil_blocks TOTAL_BLOCKS = 1.
Proof. reflexivity. Qed.

Lemma format_super (f0 : FILE) :
  super (fs_format f0) =
  {| total_blocks := TOTAL_BLOCKS; free_blocks := TOTAL_BLOCKS - 1;
     block_size := BLOCK_SIZE; inode_table_start := 1;
     bitmap_start := 1 + ceil_blocks (sizeof_Inode * MAX_INODES);
     data_start := 1 + ceil_blocks (sizeof_Inode * MAX_INODES)
                   + ceil_blocks TOTAL_BLOCKS |}.
Proof. reflexivity. Qed.

Lemma format_bitmap (f0 : FILE) :
  bitmap (fs_format f0) = x01 :: replicate (Z.to_nat TOTAL_BLOCKS - 1) x00.
Proof. reflexivity. Qed.

Lemma format_inodes (f0 : FILE) :
  inodes (fs_format f0) = replicate (Z.to_nat MAX_INODES) zero_inode.
Proof. reflexivity. Qed.

(** C5. Right after the format path of [fs_init], bitmap entry 0 is used (1),
    every entry from 1 to [total_blocks - 1] is free (0), and the superblock
    counts [total_blocks - 1] free blocks. *)
Theorem C5_format_bitmap (f0 : FILE) :
  let fs := fs_format f0 in
  bitmap_at fs 0 = Some x01 ∧
  (∀ i, 1 ≤ i < total_blocks (super fs) → bitmap_at fs i = Some x00) ∧
  free_blocks (super fs) = total_blocks (super fs) - 1.
Proof.
  intros fs. unfold fs. split; [reflexivity | split; [| reflexivity]].
  intros i Hi. rewrite format_super in Hi. simpl in Hi.
  unfold bitmap_at. rewrite decide_True by lia. rewrite format_bitmap.
  replace (Z.to_nat i) with (S (Z.to_nat (i - 1))) by lia.
  change (replicate (Z.to_nat TOTAL_BLOCKS - 1) x00 !! Z.to_nat (i - 1) = Some x00).
  apply lookup_replicate_2. unfold TOTAL_BLOCKS in *. lia.
Qed.

(** C6. The layout computed on format: the inode table starts at block 1, the
    bitmap starts after the least number of blocks that holds the inode table,
    the data region after the least number of blocks that holds the bitmap,
    and the three starts are strictly increasing and within the image. *)
Theorem C6_format_layout (f0 : FILE) :
  let sb := super (fs_format f0) in
  let inode_table_bytes := sizeof_Inode * MAX_INODES in
  let bitmap_bytes := TOTAL_BLOCKS in
  inode_table_start sb = 1 ∧
  (∃ k, bitmap_start sb = inode_table_start sb + k ∧
        block_size sb * (k - 1) < inode_table_bytes ≤ block_size sb * k) ∧
  (∃ k, data_start sb = bitmap_start sb + k ∧
        block_size sb * (k - 1) < bitmap_bytes ≤ block_size sb * k) ∧
  inode_table_start sb < bitmap_start sb < data_start sb ∧
  data_start sb ≤ total_blocks sb.
Proof.
  intros sb tbytes bbytes. unfold sb. rewrite format_super.
  cbn [inode_table_start bitmap_start data_start block_size total_blocks].
  pose proof sizeof_Inode_range as Hs.
  pose proof (ceil_blocks_spec tbytes ltac:(unfold tbytes, MAX_INODES; lia)) as Ht.
  pose proof (ceil_blocks_spec bbytes ltac:(done)) as Hb.
  unfold tbytes, bbytes in *.
  rewrite ceil_blocks_inodes, ceil_blocks_bitmap in *.
  split; [done |].
  split; [exists 3; split; [done | exact Ht] |].
  split; [exists 1; split; [done | exact Hb] |].
  unfold TOTAL_BLOCKS. lia.
Qed.

(** C7. [get_free_block] is a function of the state that returns no state (it
    writes nothing). Its result is the least index from [data_start] to
    [total_blocks - 1] whose bitmap entry is free; an index whose entry is not
    free is never returned; and it is -1 exactly when no entry of that range
    is free. *)
Theorem C7_get_free_block (fs : FileSystem) :
  let ds := data_start (super fs) in
  let tb := total_blocks (super fs) in
  let r := get_free_block fs in
  (r ≠ -1 →
     ds ≤ r < tb ∧ bitmap_at fs r = Some x00 ∧
     ∀ k, ds ≤ k < r → bitmap_at fs k ≠ Some x00) ∧
  (r = -1 ↔ ∀ k, ds ≤ k < tb → bitmap_at fs k ≠ Some x00).
Proof.
  intros ds tb r. subst ds tb r.
  pose proof (get_free_block_spec fs) as Hs. cbv zeta in Hs.
  destruct Hs as [[Hr Hall] | (Hr & Hrange & Hfree & Hmin)].
  - split; [done |]. split; [done | done].
  - split; [done |]. split; [done |]. intros Hall.
    exfalso. by apply (Hall (get_free_block fs)).
Qed.

(** The scan of minifs_2.c is the scan of tinyfs.c under the superblock its
    own [fs_init] leaves ([data_start = 0], [total_blocks = TOTAL_BLOCKS]). *)
Lemma minifs2_get_free_block_agrees (fs : FileSystem) :
  super fs = Minifs2.init_super →
  Minifs2.get_free_block (bitmap fs) = get_free_block fs.
Proof.
  intros Hs. unfold Minifs2.get_free_block, get_free_block. rewrite Hs.
  cbn [data_start total_blocks Minifs2.init_super]. rewrite Z.sub_0_r.
  apply first_from_ext. intros k Hk. unfold bitmap_at.
  destruct (decide (0 ≤ k)); [reflexivity | lia].
Qed.

(** So it returns the least free index of the whole bitmap, or -1 when there
    is none. *)
Lemma minifs2_get_free_block_spec (bm : list byte) :
  let r := Minifs2.get_free_block bm in
  (r ≠ -1 →
     0 ≤ r < TOTAL_BLOCKS ∧ bm !! Z.to_nat r = Some x00 ∧
     ∀ k, 0 ≤ k < r → bm !! Z.to_nat k ≠ Some x00) ∧
  (r = -1 ↔ ∀ k, 0 ≤ k < TOTAL_BLOCKS → bm !! Z.to_nat k ≠ Some x00).
Proof.
  intros r. unfold r, Minifs2.get_free_block. clear r.
  match goal with |- context [first_from ?p 0 ?n] =>
    destruct (first_from_spec p 0 n) as [[Hr Hall] | (Hr & Hpr & Hall)];
    set (r := first_from p 0 n) in * end.
  - split; [done |]. split; [| done]. intros _ k Hk.
    specialize (Hall k ltac:(unfold TOTAL_BLOCKS in *; lia)).
    by apply bool_decide_eq_false in Hall.
  - apply bool_decide_eq_true in Hpr.
    assert (Hrr : 0 ≤ r < TOTAL_BLOCKS) by (unfold TOTAL_BLOCKS in *; lia).
    split.
    + intros _. split; [exact Hrr |]. split; [exact Hpr |].
      intros k Hk. specialize (Hall k Hk). by apply bool_decide_eq_false in Hall.
    + split; [lia |]. intros Hnone. exfalso. exact (Hnone r Hrr Hpr).
Qed.

(** ** C strings *)

Lemma int_of_byte_inj (x y : byte) : int_of_byte x = int_of_byte y → x = y.
Proof.
  unfold int_of_byte. intros Hxy%N2Z.inj.
  pose proof (Byte.of_to_N x) as Hx. pose proof (Byte.of_to_N y) as Hy.
  rewrite Hxy in Hx. congruence.
Qed.

Lemma int_of_byte_nonneg (x : byte) : 0 ≤ int_of_byte x.
Proof. unfold int_of_byte. lia. Qed.

Lemma int_of_byte_0 (x : byte) : int_of_byte x = 0 → x = x00.
Proof. intros Hx. apply int_of_byte_inj. rewrite Hx. reflexivity. Qed.

Lemma cstr_no_nul (s : list byte) : x00 ∉ cstr s.
Proof.
  induction s as [|c s IH]; simpl; [apply not_elem_of_nil |].
  case_decide; [apply not_elem_of_nil |].
  intros [Hc | Hs]%elem_of_cons; [congruence | done].
Qed.

Lemma cstr_id (s : list byte) : x00 ∉ s → cstr s = s.
Proof.
  induction s as [|c s IH]; simpl; [done |]. intros Hs.
  apply not_elem_of_cons in Hs as [Hc Hs].
  rewrite decide_False by congruence. by rewrite IH.
Qed.

Lemma cstr_idemp (s : list byte) : cstr (cstr s) = cstr s.
Proof. apply cstr_id, cstr_no_nul. Qed.

Lemma cstr_app_nul (s t : list byte) : cstr (cstr s ++ x00 :: t) = cstr s.
Proof.
  induction s as [|c s IH]; simpl; [done |].
  case_decide; simpl; [done |].
  rewrite decide_False by done. by rewrite IH.
Qed.

Lemma strcmp_go_0 (a b : list byte) :
  x00 ∉ a → x00 ∉ b → strcmp_go a b = 0 ↔ a = b.
Proof.
  revert b. induction a as [|x a IH]; intros [|y b] Ha Hb; simpl.
  - done.
  - apply not_elem_of_cons in Hb as [Hy _].
    split; [| done]. intros Hy0.
    exfalso. apply Hy. symmetry. apply int_of_byte_0. lia.
  - apply not_elem_of_cons in Ha as [Hx _].
    split; [| done]. intros Hx0. exfalso. apply Hx. symmetry. by apply int_of_byte_0.
  - apply not_elem_of_cons in Ha as [_ Ha]. apply not_elem_of_cons in Hb as [_ Hb].
    case_decide as Hxy.
    + subst y. rewrite IH by done. split; [by intros -> | by intros [= ->]].
    + split; [| by intros [= -> ->]]. intros Hd. exfalso. apply Hxy.
      apply int_of_byte_inj. lia.
Qed.

Lemma strcmp_0 (a b : list byte) : strcmp a b = 0 ↔ cstr a = cstr b.
Proof. unfold strcmp. apply strcmp_go_0; apply cstr_no_nul. Qed.

(** [strncpy] leaves the string itself, terminated, when it is shorter than
    the destination. *)
Lemma cstr_strncpy (s : list byte) (n : Z) :
  strlen s < n → cstr (strncpy s n) = cstr s.
Proof.
  unfold strlen, strncpy. intros Hlen.
  rewrite take_app_ge by lia.
  replace (Z.to_nat n - length (cstr s))%nat
    with (S (Z.to_nat n - length (cstr s) - 1)) by lia.
  rewrite take_replicate. 
  replace (S (Z.to_nat n - length (cstr s) - 1) `min` Z.to_nat n)%nat
    with (S (Z.to_nat n - length (cstr s) - 1)) by lia.
  change (replicate (S ?k) x00) with (x00 :: replicate k x00).
  apply cstr_app_nul.
Qed.

Lemma strncpy_length (s : list byte) (n : Z) :
  length (strncpy s n) = Z.to_nat n.
Proof.
  unfold strncpy. rewrite length_take, length_app, length_replicate. lia.
Qed.

Lemma strncpy_head (s : list byte) (n : Z) :
  0 < n → head (strncpy s n) = Some (default x00 (head (cstr s))).
Proof.
  unfold strncpy. intros Hn.
  replace (Z.to_nat n) with (S (Z.to_nat n - 1)) by lia.
  destruct (cstr s) as [|c t]; reflexivity.
Qed.

(** ** Lookup by name *)

Lemma inode_at_neg (fs : FileSystem) (i : Z) : i < 0 → inode_at fs i = None.
Proof. intros Hi. unfold inode_at. by rewrite decide_False by lia. Qed.

Lemma find_test_holds (fs : FileSystem) (nm : list byte) (i : Z) :
  0 ≤ i < MAX_INODES →
  match inode_at fs i with
  | Some ino => in_use ino && bool_decide (strcmp (name ino) nm = 0)
  | None => false
  end = true ↔ holds_name fs i nm.
Proof.
  intros Hi. unfold holds_name. destruct (inode_at fs i) as [ino|].
  - rewrite andb_true_iff, bool_decide_eq_true, strcmp_0. split.
    + intros [Hu Hn]. split; [done |]. by exists ino.
    + intros [_ (ino' & [= <-] & Hu & Hn)]. done.
  - split; [done |]. by intros [_ (ino' & [=] & _)].
Qed.

Lemma fs_find_inode_cases (fs : FileSystem) (nm : list byte) :
  (fs_find_inode fs nm = -1 ∧ ∀ j, ¬ holds_name fs j nm) ∨
  (holds_name fs (fs_find_inode fs nm) nm ∧
   ∀ j, j < fs_find_inode fs nm → ¬ holds_name fs j nm).
Proof.
  unfold fs_find_inode.
  match goal with |- context [first_from ?p 0 ?n] =>
    destruct (first_from_spec p 0 n) as [[Hr Hall] | (Hr & Hpr & Hall)] end.
  - left. split; [done |]. intros j Hj.
    pose proof Hj as [Hrange _]. apply find_test_holds in Hj; [| done].
    rewrite Hall in Hj; [done |]. unfold MAX_INODES in *. lia.
  - right. assert (0 ≤ first_from
        (λ i, match inode_at fs i with
              | Some ino => in_use ino && bool_decide (strcmp (name ino) nm = 0)
              | None => false
              end) 0 (Z.to_nat MAX_INODES) < MAX_INODES) as Hrange
      by (unfold MAX_INODES in *; lia).
    split; [by apply find_test_holds |].
    intros j Hj Hh. pose proof Hh as [Hjr _].
    apply find_test_holds in Hh; [| done]. rewrite Hall in Hh; [done | lia].
Qed.

Lemma holds_name_not_neg1 (fs : FileSystem) (nm : list byte) :
  ¬ holds_name fs (-1) nm.
Proof. intros [Hr _]. lia. Qed.

Lemma fs_find_inode_none (fs : FileSystem) (nm : list byte) :
  fs_find_inode fs nm = -1 ↔ ∀ j, ¬ holds_name fs j nm.
Proof.
  destruct (fs_find_inode_cases fs nm) as [[Hr Hall] | [Hh Hmin]].
  - done.
  - split.
    + intros Hr. rewrite Hr in Hh. by apply holds_name_not_neg1 in Hh.
    + intros Hall. by apply Hall in Hh.
Qed.

Lemma fs_find_inode_found (fs : FileSystem) (nm : list byte) :
  fs_find_inode fs nm ≠ -1 →
  holds_name fs (fs_find_inode fs nm) nm ∧
  ∀ j, j < fs_find_inode fs nm → ¬ holds_name fs j nm.
Proof.
  intros Hne. by destruct (fs_find_inode_cases fs nm) as [[Hr Hall] | ?].
Qed.

Lemma fs_find_inode_first (fs : FileSystem) (nm : list byte) (k : Z) :
  holds_name fs k nm → (∀ j, j < k → ¬ holds_name fs j nm) →
  fs_find_inode fs nm = k.
Proof.
  intros Hk Hmin.
  destruct (fs_find_inode_cases fs nm) as [[Hr Hall] | [Hh Hm]].
  - by apply Hall in Hk.
  - destruct (Z.lt_trichotomy (fs_find_inode fs nm) k) as [Hlt | [Heq | Hgt]].
    + by apply Hmin in Hlt.
    + done.
    + by apply Hm in Hgt.
Qed.

(** The first free slot, as [fs_create_file] searches it. *)
Lemma first_free_cases (fs : FileSystem) :
  let k := first_from (λ i, match inode_at fs i with
                            | Some ino => negb (in_use ino)
                            | None => false
                            end) 0 (Z.to_nat MAX_INODES) in
  (k = -1 ∧ ∀ j, ¬ free_slot fs j) ∨
  (free_slot fs k ∧ ∀ j, j < k → ¬ free_slot fs j).
Proof.
  intros k. unfold k.
  match goal with |- context [first_from ?p 0 ?n] =>
    destruct (first_from_spec p 0 n) as [[Hr Hall] | (Hr & Hpr & Hall)] end.
  - left. split; [done |]. intros j [Hj (ino & Hino & Hu)].
    specialize (Hall j). rewrite Hino, Hu in Hall.
    unfold MAX_INODES in *. by specialize (Hall ltac:(lia)).
  - right. split.
    + split; [unfold MAX_INODES in *; lia |].
      destruct (inode_at fs _) as [ino|]; [| done].
      exists ino. split; [done |]. by apply negb_true_iff.
    + intros j Hj [Hjr (ino & Hino & Hu)].
      specialize (Hall j). rewrite Hino, Hu in Hall. by specialize (Hall ltac:(lia)).
Qed.

(** ** create *)

Lemma inode_at_alter (fs : FileSystem) (f : Inode → Inode) (k j : Z) :
  0 ≤ k →
  inode_at (set_inodes fs (alter f (Z.to_nat k) (inodes fs))) j =
  if decide (j = k) then f <$> inode_at fs k else inode_at fs j.
Proof.
  intros Hk. unfold inode_at. cbn [inodes set_inodes].
  rewrite (decide_True (P := 0 ≤ k)) by done.
  destruct (decide (j = k)) as [-> | Hne].
  - rewrite decide_True by done. rewrite list_lookup_alter.
    by rewrite decide_True.
  - destruct (decide (0 ≤ j)); [| done].
    rewrite list_lookup_alter. rewrite decide_False by lia. done.
Qed.

Lemma inode_at_flush_inodes (fs : FileSystem) (j : Z) :
  inode_at (flush_inodes fs) j = inode_at fs j.
Proof. reflexivity. Qed.

Lemma holds_name_ext (fs fs' : FileSystem) (j : Z) (nm : list byte) :
  inode_at fs' j = inode_at fs j → holds_name fs' j nm ↔ holds_name fs j nm.
Proof. intros Heq. unfold holds_name. by rewrite Heq. Qed.

Lemma in_use_head (ino : Inode) :
  in_use ino = true ↔ ∃ c, head (name ino) = Some c ∧ c ≠ x00.
Proof.
  unfold in_use. destruct (name ino) as [|c t]; simpl.
  - split; [done | by intros (c & [=] & _)].
  - rewrite bool_decide_eq_true. split.
    + intros Hc. by exists c.
    + by intros (c' & [= <-] & Hc).
Qed.

Lemma cstr_head_nonempty (s : list byte) :
  0 < strlen s → ∃ c, head (cstr s) = Some c ∧ c ≠ x00.
Proof.
  unfold strlen. pose proof (cstr_no_nul s) as Hn.
  destruct (cstr s) as [|c t]; simpl; [lia |]. intros _.
  exists c. split; [done |]. intros ->. apply Hn. left.
Qed.

(** What [fs_create_file] does when the name is new and slot [k] is the first
    free one. *)
Lemma fs_create_file_fresh (fs : FileSystem) (nm : list byte) (now k : Z) :
  (∀ i, ¬ holds_name fs i nm) →
  free_slot fs k → (∀ j, j < k → ¬ free_slot fs j) →
  fs_create_file fs nm now =
    (flush_inodes
       (set_inodes fs
          (alter (λ ino, {| name := strncpy nm MAX_FILENAME; size := 0;
                            blocks := replicate (length (blocks ino)) SENTINEL;
                            created := now; modified := now |})
                 (Z.to_nat k) (inodes fs))),
     inr k).
Proof.
  intros Hnew Hk Hmin. unfold fs_create_file.
  apply fs_find_inode_none in Hnew. rewrite decide_False by (rewrite Hnew; lia).
  pose proof (first_free_cases fs) as Hc. cbv zeta in Hc.
  destruct Hc as [[_ Hall] | [Hfree Hm]]; [by apply Hall in Hk |].
  match type of Hfree with free_slot _ ?r =>
    assert (r = k) as Hr; [| rewrite Hr] end.
  { match goal with |- ?r = k =>
      destruct (Z.lt_trichotomy r k) as [Hlt | [Heq | Hgt]] end.
    - by apply Hmin in Hlt.
    - done.
    - by apply Hm in Hgt. }
  destruct Hk as [Hk _]. rewrite decide_False by lia. done.
Qed.


(** The create of omin.c has the same first step: a name already held stops
    it with the state untouched. *)
Lemma omin_create_exists (fs : FileSystem) (nm : list byte) (now : Z) :
  (∃ i, holds_name fs i nm) →
  Omin.fs_create_file fs nm now = (fs, inl AlreadyExists).
Proof.
  intros [i Hi]. unfold Omin.fs_create_file.
  rewrite decide_True; [done |].
  intros Hnone. by apply fs_find_inode_none in Hi.
Qed.

(** ** The allocation loop *)

Lemma alloc_step_super (fs : FileSystem) (k i b : Z) :
  super (alloc_step fs k i b) =
  set_free_blocks (super fs) (wrap_int (free_blocks (super fs) - 1)).
Proof. unfold alloc_step, set_block. by case_decide. Qed.

Lemma alloc_step_inodes (fs : FileSystem) (k i b : Z) :
  inodes (alloc_step fs k i b) =
  alter (λ ino, set_blocks ino (<[Z.to_nat i := b]> (blocks ino)))
        (Z.to_nat k) (inodes fs).
Proof. unfold alloc_step, set_block. by case_decide. Qed.

Lemma alloc_step_bitmap (fs : FileSystem) (k i b : Z) :
  0 ≤ b < TOTAL_BLOCKS →
  bitmap (alloc_step fs k i b) = <[Z.to_nat b := x01]> (bitmap fs).
Proof.
  intros Hb. unfold alloc_step, set_block.
  rewrite decide_False by lia. reflexivity.
Qed.

Lemma inode_at_alloc_step (fs : FileSystem) (k i b j : Z) :
  0 ≤ k →
  inode_at (alloc_step fs k i b) j =
  if decide (j = k)
  then (λ ino, set_blocks ino (<[Z.to_nat i := b]> (blocks ino))) <$> inode_at fs k
  else inode_at fs j.
Proof.
  intros Hk. rewrite <- (inode_at_alter fs _ k j Hk).
  unfold inode_at. by rewrite alloc_step_inodes.
Qed.

Lemma bitmap_at_alloc_step (fs : FileSystem) (k i b c : Z) (x : byte) :
  bitmap_at fs b = Some x → b < TOTAL_BLOCKS →
  bitmap_at (alloc_step fs k i b) c =
  if decide (c = b) then Some x01 else bitmap_at fs c.
Proof.
  intros Hx Hb. pose proof (bitmap_at_free_bounds _ _ _ Hx) as Hbound.
  unfold bitmap_at. rewrite alloc_step_bitmap by lia.
  destruct (decide (c = b)) as [-> | Hne].
  - rewrite decide_True by lia. apply list_lookup_insert_eq. lia.
  - destruct (decide (0 ≤ c)); [| done].
    apply list_lookup_insert_ne. lia.
Qed.

Lemma block_at_set_blocks (ino : Inode) (i b j : Z) :
  0 ≤ i →
  block_at (set_blocks ino (<[Z.to_nat i := b]> (blocks ino))) j =
  if decide (j = i) then (λ _, b) <$> block_at ino i else block_at ino j.
Proof.
  intros Hi. unfold block_at. cbn [blocks set_blocks].
  rewrite (decide_True (P := 0 ≤ i)) by done.
  destruct (decide (j = i)) as [-> | Hne].
  - rewrite decide_True by done.
    destruct (blocks ino !! Z.to_nat i) eqn:Hl.
    + apply lookup_lt_Some in Hl. by rewrite list_lookup_insert_eq.
    + apply lookup_ge_None in Hl. rewrite list_insert_ge by done.
      by apply lookup_ge_None.
  - destruct (decide (0 ≤ j)); [| done].
    apply list_lookup_insert_ne. lia.
Qed.

(** Induction over the rounds of the allocation loop: a property indexed by
    the ordinal about to be handled, kept by a round that finds a block, by a
    round beyond the array, and by a round that allocates. *)
Lemma alloc_blocks_loop (P : Z → FileSystem → Prop) (k : Z) :
  (∀ i fs b, P i fs →
     inode_at fs k ≫= (λ ino, block_at ino i) = Some b → b ≠ SENTINEL →
     P (i + 1) fs) →
  (∀ i fs, P i fs →
     inode_at fs k ≫= (λ ino, block_at ino i) = None → P (i + 1) fs) →
  (∀ i fs, P i fs →
     inode_at fs k ≫= (λ ino, block_at ino i) = Some SENTINEL →
     get_free_block fs ≠ -1 →
     P (i + 1) (alloc_step fs k i (get_free_block fs))) →
  ∀ n i fs, P i fs →
    if (alloc_blocks fs k i n).2
    then P (i + Z.of_nat n) (alloc_blocks fs k i n).1
    else ∃ j, i ≤ j < i + Z.of_nat n ∧ P j (alloc_blocks fs k i n).1 ∧
              inode_at (alloc_blocks fs k i n).1 k ≫= (λ ino, block_at ino j)
                = Some SENTINEL ∧
              get_free_block (alloc_blocks fs k i n).1 = -1.
Proof.
  intros Hskip Hnone Halloc. induction n as [|n IH]; intros i fs HP.
  - cbn [alloc_blocks fst snd]. by rewrite Z.add_0_r.
  - cbn [alloc_blocks].
    assert (Hnext : ∀ fs1, P (i + 1) fs1 →
      if (alloc_blocks fs1 k (i + 1) n).2
      then P (i + Z.of_nat (S n)) (alloc_blocks fs1 k (i + 1) n).1
      else ∃ j, i ≤ j < i + Z.of_nat (S n) ∧ P j (alloc_blocks fs1 k (i + 1) n).1 ∧
                inode_at (alloc_blocks fs1 k (i + 1) n).1 k
                  ≫= (λ ino, block_at ino j) = Some SENTINEL ∧
                get_free_block (alloc_blocks fs1 k (i + 1) n).1 = -1).
    { intros fs1 HP1. specialize (IH (i + 1) fs1 HP1).
      destruct (alloc_blocks fs1 k (i + 1) n).2.
      - replace (i + Z.of_nat (S n)) with (i + 1 + Z.of_nat n) by lia. done.
      - destruct IH as (j & Hj & IH). exists j. split; [lia | done]. }
    destruct (inode_at fs k ≫= λ ino, block_at ino i) as [b|] eqn:Hb.
    + destruct (decide (b = SENTINEL)) as [-> | Hne].
      * destruct (decide (get_free_block fs = -1)) as [Hfull | Hfree].
        -- cbn [fst snd]. exists i. split; [lia | done].
        -- apply Hnext. by apply Halloc.
      * apply Hnext. by eapply Hskip.
    + apply Hnext. by apply Hnone.
Qed.

Lemma count_used_nonneg (bm : list byte) : 0 ≤ count_used bm ≤ Z.of_nat (length bm).
Proof. unfold count_used. pose proof (length_filter (λ b, b ≠ x00) bm). lia. Qed.

Lemma count_used_cons (c : byte) (bm : list byte) :
  count_used (c :: bm) = (if decide (c ≠ x00) then 1 else 0) + count_used bm.
Proof.
  unfold count_used. rewrite filter_cons.
  destruct (decide (c ≠ x00)); cbn [length]; lia.
Qed.

Lemma count_used_insert (bm : list byte) (n : nat) :
  bm !! n = Some x00 → count_used (<[n := x01]> bm) = count_used bm + 1.
Proof.
  revert n. induction bm as [|c bm IH]; intros [|n] Hn; try done.
  - injection Hn as ->. change (<[0%nat := x01]> (x00 :: bm)) with (x01 :: bm).
    rewrite !count_used_cons.
    rewrite decide_True by done. rewrite decide_False by (intros Hx; by apply Hx). lia.
  - change (<[S n := x01]> (c :: bm)) with (c :: <[n := x01]> bm).
    rewrite !count_used_cons, (IH n Hn). lia.
Qed.

Lemma count_used_free (bm : list byte) (n : nat) :
  bm !! n = Some x00 → count_used bm < Z.of_nat (length bm).
Proof.
  intros Hn. pose proof (count_used_insert bm n Hn) as Hc.
  pose proof (count_used_nonneg (<[n := x01]> bm)) as Hb.
  rewrite length_insert in Hb. lia.
Qed.

Lemma in_use_set_blocks (ino : Inode) (bl : list Z) :
  in_use (set_blocks ino bl) = in_use ino.
Proof. reflexivity. Qed.

(** The entries owned after one allocation: the new one, and those owned
    before. *)
Lemma owns_alloc_step (fs : FileSystem) (k i b : Z) (ino : Inode) (i0 j0 c : Z) :
  0 ≤ k → 0 ≤ i → inode_at fs k = Some ino → block_at ino i = Some SENTINEL →
  owns (alloc_step fs k i b) i0 j0 c →
  (i0 = k ∧ j0 = i ∧ c = b ∧ in_use ino = true) ∨ owns fs i0 j0 c.
Proof.
  intros Hk Hi Hino Hsent (ino' & Hat & Hu & Hb & Hc).
  rewrite inode_at_alloc_step in Hat by done.
  destruct (decide (i0 = k)) as [-> | Hne].
  - rewrite Hino in Hat. injection Hat as <-.
    rewrite in_use_set_blocks in Hu.
    rewrite block_at_set_blocks in Hb by done.
    destruct (decide (j0 = i)) as [-> | Hnej].
    + rewrite Hsent in Hb. injection Hb as <-. by left.
    + right. by exists ino.
  - right. by exists ino'.
Qed.

Lemma owns_alloc_step_old (fs : FileSystem) (k i b : Z) (ino : Inode) (i0 j0 c : Z) :
  0 ≤ k → 0 ≤ i → inode_at fs k = Some ino → block_at ino i = Some SENTINEL →
  owns fs i0 j0 c → owns (alloc_step fs k i b) i0 j0 c.
Proof.
  intros Hk Hi Hino Hsent (ino' & Hat & Hu & Hb & Hc).
  unfold owns. rewrite inode_at_alloc_step by done.
  destruct (decide (i0 = k)) as [-> | Hne].
  - rewrite Hino in Hat. injection Hat as <-. rewrite Hino.
    eexists. split; [done |]. rewrite in_use_set_blocks. split; [done |].
    rewrite block_at_set_blocks by done.
    rewrite decide_False; [done |]. intros ->. congruence.
  - by exists ino'.
Qed.

Lemma inode_at_shape (fs : FileSystem) (i : Z) (ino : Inode) :
  wf_shape fs → inode_at fs i = Some ino →
  inode_shape ino ∧ 0 ≤ i < MAX_INODES.
Proof.
  intros (Hlen & Hshape & _). unfold inode_at.
  destruct (decide (0 ≤ i)); [| done]. intros Hl. split.
  - by eapply Forall_lookup_1.
  - apply lookup_lt_Some in Hl. unfold MAX_INODES in *. lia.
Qed.

Lemma block_at_is_Some (ino : Inode) (j : Z) :
  inode_shape ino → 0 ≤ j < NBLOCKS → is_Some (block_at ino j).
Proof.
  intros [_ Hlen] Hj. unfold block_at. rewrite decide_True by lia.
  apply lookup_lt_is_Some. lia.
Qed.

Lemma block_at_Some_range (ino : Inode) (j b : Z) :
  inode_shape ino → block_at ino j = Some b → 0 ≤ j < NBLOCKS.
Proof.
  intros [_ Hlen]. unfold block_at. destruct (decide (0 ≤ j)); [| done].
  intros Hl%lookup_lt_Some. lia.
Qed.

Lemma wf_shape_alloc_step (fs : FileSystem) (k i b : Z) :
  wf_shape fs → wf_shape (alloc_step fs k i b).
Proof.
  intros (Hlen & Hshape & Hbm & Hfb). unfold wf_shape.
  rewrite alloc_step_inodes. split; [by rewrite length_alter |]. split; [| split].
  - apply Forall_alter; [done |]. intros ino _ [Hn Hb]. split; [done |].
    cbn [blocks set_blocks]. by rewrite length_insert.
  - unfold alloc_step, set_block. case_decide; [done |].
    cbn [bitmap set_bitmap flush_super flush_bitmap set_super set_fp].
    by rewrite length_insert.
  - rewrite alloc_step_super. apply wrap_int_range.
Qed.

(** One allocation keeps the invariant. *)
Lemma fs_inv_alloc_step (fs : FileSystem) (k i : Z) (ino : Inode) :
  fs_inv fs → 0 ≤ i →
  inode_at fs k = Some ino → in_use ino = true →
  block_at ino i = Some SENTINEL →
  (∀ j b, 0 ≤ j < i → block_at ino j = Some b → b ≠ SENTINEL) →
  get_free_block fs ≠ -1 →
  fs_inv (alloc_step fs k i (get_free_block fs)).
Proof.
  intros Hinv Hi Hino Hu Hsent Hbefore Hfree.
  pose proof (get_free_block_spec fs) as Hs. cbv zeta in Hs.
  destruct Hs as [[Hr _] | (_ & Hrange & Hb0 & _)]; [done |].
  set (b := get_free_block fs) in *.
  destruct (inv_layout fs Hinv) as (Htb & Hbs & Hits & Hbms & Hds).
  rewrite Htb, Hds in Hrange.
  destruct (inode_at_shape fs k ino (inv_shape fs Hinv) Hino) as [Hsh Hk].
  assert (Hkk : 0 ≤ k) by lia.
  assert (Hbm : ∀ c, bitmap_at (alloc_step fs k i b) c =
                     if decide (c = b) then Some x01 else bitmap_at fs c).
  { intros c. eapply bitmap_at_alloc_step; [exact Hb0 | lia]. }
  split.
  - apply wf_shape_alloc_step, (inv_shape fs Hinv).
  - rewrite alloc_step_super. exact (inv_layout fs Hinv).
  - intros i0 j0 c Ho. rewrite alloc_step_super.
    cbn [data_start total_blocks set_free_blocks].
    destruct (owns_alloc_step fs k i b ino i0 j0 c Hkk Hi Hino Hsent Ho)
      as [(-> & -> & -> & _) | Ho'].
    + lia.
    + by eapply (inv_region fs Hinv).
  - intros i0 j0 c Ho. rewrite Hbm.
    destruct (owns_alloc_step fs k i b ino i0 j0 c Hkk Hi Hino Hsent Ho)
      as [(-> & -> & -> & _) | Ho'].
    + by rewrite decide_True.
    + apply (inv_used fs Hinv) in Ho'. case_decide; [done | done].
  - intros i0 j0 i1 j1 c Ho0 Ho1.
    destruct (owns_alloc_step fs k i b ino i0 j0 c Hkk Hi Hino Hsent Ho0)
      as [(E1 & E2 & E3 & _) | Ho0'];
      destruct (owns_alloc_step fs k i b ino i1 j1 c Hkk Hi Hino Hsent Ho1)
        as [(F1 & F2 & F3 & _) | Ho1'].
    + by subst.
    + subst c. apply (inv_used fs Hinv) in Ho1'. congruence.
    + subst c. apply (inv_used fs Hinv) in Ho0'. congruence.
    + by eapply (inv_unshared fs Hinv).
  - intros i0 ino0. rewrite inode_at_alloc_step by done.
    destruct (decide (i0 = k)) as [-> | Hne]; [| apply (inv_prefix fs Hinv)].
    rewrite Hino. intros [= <-] j j' c Hj Hjj' Hc.
    rewrite block_at_set_blocks in Hj, Hc by done.
    assert (b ≠ SENTINEL) as Hbne by (unfold SENTINEL; lia).
    destruct (decide (j = i)) as [-> | Hji];
      [rewrite Hsent in Hj; cbn in Hj; congruence |].
    assert (i < j) as Hlt.
    { destruct (decide (i < j)); [done |]. exfalso.
      pose proof (block_at_Some_range _ _ _ Hsh Hj) as Hjr.
      by apply (Hbefore j SENTINEL ltac:(lia) Hj). }
    rewrite decide_False in Hc by lia.
    by eapply (inv_prefix fs Hinv k ino Hino j j').
  - intros i0 ino0. rewrite inode_at_alloc_step by done.
    destruct (decide (i0 = k)) as [-> | Hne]; [| apply (inv_size fs Hinv)].
    rewrite Hino. intros [= <-].
    pose proof (inv_size fs Hinv k ino Hino) as Hcov.
    intros j Hj Hjs.
    destruct (Hcov j Hj Hjs) as (c & Hc & Hcne).
    exists c. split; [| done]. cbn [size set_blocks] in *.
    rewrite block_at_set_blocks by done.
    rewrite decide_False; [done |]. intros ->. congruence.
  - rewrite alloc_step_super, alloc_step_bitmap by lia.
    cbn [free_blocks set_free_blocks].
    unfold bitmap_at in Hb0. rewrite decide_True in Hb0 by lia.
    rewrite (count_used_insert _ _ Hb0).
    pose proof (count_used_nonneg (bitmap fs)) as Hc.
    destruct (inv_shape fs Hinv) as (_ & _ & Hlen & _). rewrite Hlen in Hc.
    rewrite (inv_count fs Hinv).
    rewrite wrap_int_id; [lia |]. unfold INT_MIN, INT_MAX, TOTAL_BLOCKS in *. lia.
Qed.

(** The allocation loop keeps the invariant, and after a run that did not
    fail every ordinal it went over has a block. *)
Lemma fs_inv_alloc_blocks (fs : FileSystem) (k : Z) (n : nat) (ino : Inode) :
  fs_inv fs → inode_at fs k = Some ino → in_use ino = true →
  fs_inv (alloc_blocks fs k 0 n).1 ∧
  ∃ ino', inode_at (alloc_blocks fs k 0 n).1 k = Some ino' ∧
          in_use ino' = true ∧
          ((alloc_blocks fs k 0 n).2 = true →
           ∀ j b, 0 ≤ j < Z.of_nat n → block_at ino' j = Some b → b ≠ SENTINEL).
Proof.
  intros Hinv Hino Hu.
  set (P := λ (i : Z) (fs : FileSystem),
         0 ≤ i ∧ fs_inv fs ∧
         ∃ ino, inode_at fs k = Some ino ∧ in_use ino = true ∧
                ∀ j b, 0 ≤ j < i → block_at ino j = Some b → b ≠ SENTINEL).
  assert (HP0 : P 0 fs).
  { split; [done |]. split; [done |]. exists ino. split; [done |]. split; [done |].
    intros j b Hj. lia. }
  pose proof (alloc_blocks_loop P k) as Hloop.
  specialize (Hloop) with (n := n) (i := 0) (fs := fs).
  assert (Hres : if (alloc_blocks fs k 0 n).2
                 then P (0 + Z.of_nat n) (alloc_blocks fs k 0 n).1
                 else ∃ j, 0 ≤ j < 0 + Z.of_nat n ∧ P j (alloc_blocks fs k 0 n).1 ∧
                           inode_at (alloc_blocks fs k 0 n).1 k
                             ≫= (λ ino, block_at ino j) = Some SENTINEL ∧
                           get_free_block (alloc_blocks fs k 0 n).1 = -1).
  { apply Hloop; [| | | exact HP0]; clear Hloop HP0.
    - intros i fs1 b (Hi & Hinv1 & ino1 & Hino1 & Hu1 & Hbefore) Hb Hne.
      split; [lia |]. split; [done |]. exists ino1. split; [done |]. split; [done |].
      intros j c Hj Hc. destruct (decide (j = i)) as [-> | Hji].
      + rewrite Hino1 in Hb. cbn in Hb. congruence.
      + apply (Hbefore j c); [lia | done].
    - intros i fs1 (Hi & Hinv1 & ino1 & Hino1 & Hu1 & Hbefore) Hb.
      split; [lia |]. split; [done |]. exists ino1. split; [done |]. split; [done |].
      intros j c Hj Hc. destruct (decide (j = i)) as [-> | Hji].
      + rewrite Hino1 in Hb. cbn in Hb. congruence.
      + apply (Hbefore j c); [lia | done].
    - intros i fs1 (Hi & Hinv1 & ino1 & Hino1 & Hu1 & Hbefore) Hb Hfree.
      rewrite Hino1 in Hb. cbn in Hb.
      destruct (inode_at_shape fs1 k ino1 (inv_shape fs1 Hinv1) Hino1) as [Hsh Hk].
      split; [lia |]. split; [by eapply fs_inv_alloc_step |].
      rewrite inode_at_alloc_step, Hino1 by lia. rewrite decide_True by done.
      eexists. split; [done |]. split; [done |].
      intros j c Hj. rewrite block_at_set_blocks by done.
      destruct (decide (j = i)) as [-> | Hji].
      + rewrite Hb. intros [= <-].
        pose proof (get_free_block_spec fs1) as Hs. cbv zeta in Hs.
        destruct Hs as [[Hr _] | (_ & Hrange & Hb0 & _)]; [done |].
        apply bitmap_at_free_bounds in Hb0. unfold SENTINEL. lia.
      + apply Hbefore. lia. }
  destruct (alloc_blocks fs k 0 n).2.
  - destruct Hres as (_ & Hinv' & ino' & Hino' & Hu' & Hall).
    split; [done |]. exists ino'. split; [done |]. split; [done |].
    intros _ j b Hj. apply Hall. lia.
  - destruct Hres as (j & _ & (_ & Hinv' & ino' & Hino' & Hu' & _) & _).
    split; [done |]. exists ino'. by split.
Qed.

Lemma count_new_refl (l : list Z) : count_new l l = 0.
Proof.
  induction l as [|a l IH]; [done |]. cbn [count_new].
  rewrite decide_False by (intros [? ?]; done). lia.
Qed.

Lemma count_new_nonneg (old new : list Z) : 0 ≤ count_new old new.
Proof.
  revert new. induction old as [|a old IH]; intros [|b new]; cbn [count_new]; try lia.
  specialize (IH new). case_decide; lia.
Qed.

Lemma count_new_insert (old new : list Z) (n : nat) (b : Z) :
  old !! n = Some SENTINEL → new !! n = Some SENTINEL → b ≠ SENTINEL →
  count_new old (<[n := b]> new) = count_new old new + 1.
Proof.
  revert new n. induction old as [|a old IH]; intros [|c new] [|n] Ho Hn Hb; try done.
  - injection Ho as ->. injection Hn as ->.
    change (<[0%nat := b]> (SENTINEL :: new)) with (b :: new). cbn [count_new].
    rewrite decide_True by done. rewrite decide_False by (intros [? ?]; done). lia.
  - change (<[S n := b]> (c :: new)) with (c :: <[n := b]> new). cbn [count_new].
    rewrite (IH new n) by done. lia.
Qed.

Lemma wrap_int_pred (a m : Z) :
  wrap_int (wrap_int (a - m) - 1) = wrap_int (a - (m + 1)).
Proof.
  unfold wrap_int.
  replace ((a - m + 2 ^ 31) mod 2 ^ 32 - 2 ^ 31 - 1 + 2 ^ 31)
    with ((a - m + 2 ^ 31) mod 2 ^ 32 - 1) by lia.
  rewrite Zminus_mod_idemp_l. f_equal. f_equal. lia.
Qed.

Lemma alloc_rel_start (fs : FileSystem) (ino : Inode) (k : Z) :
  inode_at fs k = Some ino → int_range (free_blocks (super fs)) →
  alloc_rel fs ino k 0 fs.
Proof.
  intros Hino Hfree. split; try done.
  - by destruct (super fs).
  - exists ino. split_and!; try done.
    + intros j b Hs Hb Hne. congruence.
    + rewrite count_new_refl, Z.sub_0_r. by rewrite wrap_int_id.
Qed.

Lemma alloc_rel_skip (fs0 : FileSystem) (ino0 : Inode) (k i : Z) (fs : FileSystem) :
  alloc_rel fs0 ino0 k i fs → alloc_rel fs0 ino0 k (i + 1) fs.
Proof.
  intros [Hsup Hlen Hused Hfree Hoth
            (ino & Hino & Hn & Hsz & Hc & Hm & Hl & Hrest & Hkept & Hnew & Hfb)].
  split; try done.
  exists ino. split_and!; try done. intros j Hj. apply Hrest. lia.
Qed.

Lemma alloc_rel_step (fs0 : FileSystem) (ino0 : Inode) (k i : Z) (fs : FileSystem) :
  0 ≤ k → 0 ≤ i → length (bitmap fs0) = Z.to_nat TOTAL_BLOCKS →
  alloc_rel fs0 ino0 k i fs →
  inode_at fs k ≫= (λ ino, block_at ino i) = Some SENTINEL →
  get_free_block fs ≠ -1 →
  alloc_rel fs0 ino0 k (i + 1) (alloc_step fs k i (get_free_block fs)).
Proof.
  intros Hk Hi Hbml
    [Hsup Hlen Hused Hfree Hoth
       (ino & Hino & Hn & Hsz & Hc & Hm & Hl & Hrest & Hkept & Hnew & Hfb)]
    Hsent Hfreeblk.
  rewrite Hino in Hsent. cbn in Hsent.
  pose proof (get_free_block_spec fs) as Hs. cbv zeta in Hs.
  destruct Hs as [[Hr _] | (_ & _ & Hb0 & _)]; [done |].
  set (b := get_free_block fs) in *.
  pose proof (bitmap_at_free_bounds _ _ _ Hb0) as Hbb.
  rewrite Hlen, Hbml in Hbb.
  assert (Hbm : ∀ c, bitmap_at (alloc_step fs k i b) c =
                     if decide (c = b) then Some x01 else bitmap_at fs c).
  { intros c. eapply bitmap_at_alloc_step; [exact Hb0 | lia]. }
  assert (Hbne : b ≠ SENTINEL) by (unfold SENTINEL; lia).
  split.
  - rewrite alloc_step_super. rewrite <- Hsup. by destruct (super fs).
  - rewrite alloc_step_bitmap by lia. by rewrite length_insert.
  - intros c x Hx Hx0. rewrite Hbm. case_decide as Hcb.
    + subst c. apply Hused in Hx; [| done]. congruence.
    + by apply Hused.
  - intros c. rewrite Hbm. case_decide; [done | apply Hfree].
  - intros j Hj. rewrite inode_at_alloc_step by done.
    rewrite decide_False by done. by apply Hoth.
  - rewrite inode_at_alloc_step by done. rewrite decide_True by done.
    rewrite Hino. exists (set_blocks ino (<[Z.to_nat i := b]> (blocks ino))).
    split; [done |]. split_and!; try done.
    + cbn [blocks set_blocks]. by rewrite length_insert.
    + intros j Hj. rewrite block_at_set_blocks by done.
      rewrite decide_False by lia. apply Hrest. lia.
    + intros j b0 Hj Hb0ne. rewrite block_at_set_blocks by done.
      rewrite decide_False; [by apply Hkept |].
      intros ->. rewrite <- Hrest in Hj by lia. congruence.
    + intros j c Hj0 Hjc Hcne.
      rewrite block_at_set_blocks in Hjc by done. rewrite Hbm.
      destruct (decide (j = i)) as [-> | Hji].
      * rewrite Hsent in Hjc. injection Hjc as <-.
        split; [by apply Hfree | by rewrite decide_True].
      * destruct (Hnew j c Hj0 Hjc Hcne) as [Hc0 Hc1]. split; [done |].
        case_decide; [done | done].
    + rewrite alloc_step_super. cbn [free_blocks set_free_blocks].
      rewrite Hfb. rewrite wrap_int_pred. f_equal. f_equal.
      cbn [blocks set_blocks].
      symmetry. apply count_new_insert; [| | done].
      * specialize (Hrest i ltac:(lia)). rewrite Hsent in Hrest.
        unfold block_at in Hrest. by rewrite decide_True in Hrest by done.
      * unfold block_at in Hsent. by rewrite decide_True in Hsent by done.
Qed.

(** The state the allocation loop leaves, against the state it started from:
    it stopped before some ordinal [i], having given a block to every ordinal
    below [i] that had none. *)
Lemma alloc_blocks_rel (fs : FileSystem) (k : Z) (n : nat) (ino : Inode) :
  wf_shape fs → inode_at fs k = Some ino →
  ∃ i, 0 ≤ i ≤ Z.of_nat n ∧
       alloc_rel fs ino k i (alloc_blocks fs k 0 n).1 ∧
       wf_shape (alloc_blocks fs k 0 n).1 ∧
       (∀ ino' j b, inode_at (alloc_blocks fs k 0 n).1 k = Some ino' →
                    0 ≤ j < i → block_at ino' j = Some b → b ≠ SENTINEL) ∧
       if (alloc_blocks fs k 0 n).2 then i = Z.of_nat n
       else i < Z.of_nat n ∧
            inode_at (alloc_blocks fs k 0 n).1 k ≫= (λ ino', block_at ino' i)
              = Some SENTINEL ∧
            get_free_block (alloc_blocks fs k 0 n).1 = -1.
Proof.
  intros Hwf Hino.
  destruct (inode_at_shape fs k ino Hwf Hino) as [_ Hk].
  set (P := λ (i : Z) (fs1 : FileSystem),
         0 ≤ i ∧ alloc_rel fs ino k i fs1 ∧ wf_shape fs1 ∧
         ∀ ino' j b, inode_at fs1 k = Some ino' →
                     0 ≤ j < i → block_at ino' j = Some b → b ≠ SENTINEL).
  assert (HP0 : P 0 fs).
  { split; [done |]. split; [apply alloc_rel_start; [done | apply Hwf] |].
    split; [done |]. intros ino' j b _ Hj. lia. }
  assert (Hres : if (alloc_blocks fs k 0 n).2
                 then P (0 + Z.of_nat n) (alloc_blocks fs k 0 n).1
                 else ∃ j, 0 ≤ j < 0 + Z.of_nat n ∧ P j (alloc_blocks fs k 0 n).1 ∧
                           inode_at (alloc_blocks fs k 0 n).1 k
                             ≫= (λ ino, block_at ino j) = Some SENTINEL ∧
                           get_free_block (alloc_blocks fs k 0 n).1 = -1).
  { apply (alloc_blocks_loop P k); [| | | exact HP0]; clear HP0.
    - intros i fs1 b (Hi & Hrel & Hwf1 & Hbefore) Hb Hne.
      split; [lia |]. split; [by apply alloc_rel_skip |]. split; [done |].
      intros ino' j c Hino' Hj Hc. destruct (decide (j = i)) as [-> | Hji].
      + rewrite Hino' in Hb. cbn in Hb. congruence.
      + apply (Hbefore ino' j c); [done | lia | done].
    - intros i fs1 (Hi & Hrel & Hwf1 & Hbefore) Hb.
      split; [lia |]. split; [by apply alloc_rel_skip |]. split; [done |].
      intros ino' j c Hino' Hj Hc. destruct (decide (j = i)) as [-> | Hji].
      + rewrite Hino' in Hb. cbn in Hb. congruence.
      + apply (Hbefore ino' j c); [done | lia | done].
    - intros i fs1 (Hi & Hrel & Hwf1 & Hbefore) Hb Hfree.
      split; [lia |].
      split; [apply alloc_rel_step; try done; [lia | apply Hwf] |].
      split; [by apply wf_shape_alloc_step |].
      intros ino' j c. rewrite inode_at_alloc_step by lia.
      rewrite decide_True by done.
      destruct (inode_at fs1 k) as [ino1|] eqn:Hino1; [| done].
      cbn in Hb. intros [= <-] Hj. rewrite block_at_set_blocks by done.
      destruct (decide (j = i)) as [-> | Hji].
      + rewrite Hb. intros [= <-].
        pose proof (get_free_block_spec fs1) as Hs. cbv zeta in Hs.
        destruct Hs as [[Hr _] | (_ & Hrange & Hb0 & _)]; [done |].
        apply bitmap_at_free_bounds in Hb0. unfold SENTINEL. lia.
      + apply Hbefore; [done | lia]. }
  destruct (alloc_blocks fs k 0 n).2.
  - destruct Hres as (_ & Hrel & Hwf' & Hall).
    exists (Z.of_nat n). rewrite Z.add_0_l in *. split; [lia |]. done.
  - destruct Hres as (j & Hj & (_ & Hrel & Hwf' & Hall) & Hsent & Hfull).
    exists j. split; [lia |]. split; [done |]. split; [done |]. split; [done |].
    split; [lia | done].
Qed.

(** ** write *)

Lemma write_blocks_frame (fs : FileSystem) (k : Z) (d : list byte)
    (len i : Z) (n : nat) :
  super (write_blocks fs k d len i n) = super fs ∧
  inodes (write_blocks fs k d len i n) = inodes fs ∧
  bitmap (write_blocks fs k d len i n) = bitmap fs.
Proof.
  revert fs len i. induction n as [|n IH]; intros fs len i; [done |].
  cbn [write_blocks].
  destruct (inode_at fs k ≫= λ ino, block_at ino i) as [b|]; [| apply IH].
  case_decide; [apply IH |].
  destruct (IH (set_fp fs (fwrite (fseek (fp fs) (wrap_int (b * BLOCK_SIZE)))
                             (block_buffer d (i * BLOCK_SIZE)
                                (if decide (len > BLOCK_SIZE) then BLOCK_SIZE else len))))
               (len - (if decide (len > BLOCK_SIZE) then BLOCK_SIZE else len))
               (i + 1)) as (-> & -> & ->).
  done.
Qed.

Lemma inode_at_write_blocks (fs : FileSystem) (k : Z) (d : list byte)
    (len i : Z) (n : nat) (j : Z) :
  inode_at (write_blocks fs k d len i n) j = inode_at fs j.
Proof.
  unfold inode_at. by destruct (write_blocks_frame fs k d len i n) as (_ & -> & _).
Qed.

Lemma bitmap_at_write_blocks (fs : FileSystem) (k : Z) (d : list byte)
    (len i : Z) (n : nat) (b : Z) :
  bitmap_at (write_blocks fs k d len i n) b = bitmap_at fs b.
Proof.
  unfold bitmap_at. by destruct (write_blocks_frame fs k d len i n) as (_ & _ & ->).
Qed.

(** The state a successful [fs_write_file] returns. *)
Definition written (fs : FileSystem) (k : Z) (data : list byte) (now : Z)
  : FileSystem :=
  let data_len := wrap_int (strlen data) in
  let n := Z.to_nat ((data_len + BLOCK_SIZE - 1) `quot` BLOCK_SIZE) in
  let fs1 := (alloc_blocks fs k 0 n).1 in
  let fs2 := write_blocks fs1 k (cstr data) data_len 0 n in
  flush_inodes
    (set_inodes fs2
       (alter (λ ino, set_size_modified ino (wrap_int (strlen data)) now)
              (Z.to_nat k) (inodes fs2))).

Lemma fs_write_file_ok (fs : FileSystem) (nm data : list byte) (now : Z)
    (fs' : FileSystem) (r : Z) :
  fs_write_file fs nm data now = (fs', inr r) →
  let k := fs_find_inode fs nm in
  let data_len := wrap_int (strlen data) in
  let n := Z.to_nat ((data_len + BLOCK_SIZE - 1) `quot` BLOCK_SIZE) in
  k ≠ -1 ∧ data_len ≤ MAX_FILE_SIZE ∧ (alloc_blocks fs k 0 n).2 = true ∧
  r = 0 ∧ fs' = written fs k data now.
Proof.
  intros Hw k data_len n. unfold fs_write_file in Hw. unfold written.
  fold k data_len n in Hw. fold data_len n.
  destruct (decide (k = -1)); [done |].
  destruct (decide (data_len > MAX_FILE_SIZE)); [done |].
  destruct (alloc_blocks fs k 0 n) as [fs1 ok]. destruct ok; [| done].
  injection Hw as <- <-. cbn [fst snd]. split_and!; (done || lia).
Qed.


Lemma fs_write_file_cases (fs : FileSystem) (nm data : list byte) (now : Z) :
  let k := fs_find_inode fs nm in
  let data_len := wrap_int (strlen data) in
  let n := Z.to_nat ((data_len + BLOCK_SIZE - 1) `quot` BLOCK_SIZE) in
  fs_write_file fs nm data now = (fs, inl NotFound) ∨
  fs_write_file fs nm data now = (fs, inl TooLarge) ∨
  (k ≠ -1 ∧ fs_write_file fs nm data now = ((alloc_blocks fs k 0 n).1, inl NoFreeBlock)) ∨
  (k ≠ -1 ∧ fs_write_file fs nm data now = (written fs k data now, inr 0)).
Proof.
  intros k data_len n. unfold fs_write_file, written. fold k data_len n.
  destruct (decide (k = -1)); [by left |].
  destruct (decide (data_len > MAX_FILE_SIZE)); [right; by left |].
  destruct (alloc_blocks fs k 0 n) as [fs1 ok]. destruct ok.
  - right. right. right. done.
  - right. right. left. done.
Qed.

Lemma blocks_needed_ceil (len : Z) :
  Z.to_nat ((len + BLOCK_SIZE - 1) `quot` BLOCK_SIZE) = Z.to_nat (ceil_div_block len).
Proof.
  unfold ceil_div_block, BLOCK_SIZE.
  destruct (decide (0 ≤ len + 4096 - 1)) as [Hpos | Hneg].
  - rewrite Z.quot_div_nonneg by lia. f_equal.
    pose proof (Z.div_mod (len + 4096 - 1) 4096 ltac:(lia)).
    pose proof (Z.mod_pos_bound (len + 4096 - 1) 4096 ltac:(lia)).
    pose proof (Z.div_mod (- len) 4096 ltac:(lia)).
    pose proof (Z.mod_pos_bound (- len) 4096 ltac:(lia)).
    lia.
  - pose proof (Z.quot_opp_l (-(len + 4096 - 1)) 4096 ltac:(lia)) as Hq.
    rewrite Z.opp_involutive in Hq.
    pose proof (Z.quot_pos (-(len + 4096 - 1)) 4096 ltac:(lia) ltac:(lia)).
    pose proof (Z.div_mod (- len) 4096 ltac:(lia)).
    pose proof (Z.mod_pos_bound (- len) 4096 ltac:(lia)).
    lia.
Qed.

Lemma ceil_div_block_spec (len : Z) :
  BLOCK_SIZE * (ceil_div_block len - 1) < len ≤ BLOCK_SIZE * ceil_div_block len.
Proof.
  unfold ceil_div_block, BLOCK_SIZE.
  pose proof (Z.div_mod (- len) 4096 ltac:(lia)).
  pose proof (Z.mod_pos_bound (- len) 4096 ltac:(lia)).
  lia.
Qed.

Lemma inode_at_written (fs : FileSystem) (k : Z) (data : list byte) (now j : Z) :
  0 ≤ k →
  let n := Z.to_nat ((wrap_int (strlen data) + BLOCK_SIZE - 1) `quot` BLOCK_SIZE) in
  inode_at (written fs k data now) j =
  if decide (j = k)
  then (λ ino, set_size_modified ino (wrap_int (strlen data)) now)
         <$> inode_at (alloc_blocks fs k 0 n).1 k
  else inode_at (alloc_blocks fs k 0 n).1 j.
Proof.
  intros Hk n. unfold written. fold n.
  rewrite inode_at_flush_inodes, inode_at_alter by done.
  by rewrite !inode_at_write_blocks.
Qed.

Lemma bitmap_at_written (fs : FileSystem) (k : Z) (data : list byte) (now b : Z) :
  let n := Z.to_nat ((wrap_int (strlen data) + BLOCK_SIZE - 1) `quot` BLOCK_SIZE) in
  bitmap_at (written fs k data now) b = bitmap_at (alloc_blocks fs k 0 n).1 b.
Proof.
  intros n. unfold written. fold n.
  change (bitmap_at (flush_inodes ?f) b) with (bitmap_at f b).
  match goal with |- bitmap_at (set_inodes ?f ?t) b = _ =>
    change (bitmap_at (set_inodes f t) b) with (bitmap_at f b) end.
  apply bitmap_at_write_blocks.
Qed.

Lemma super_written (fs : FileSystem) (k : Z) (data : list byte) (now : Z) :
  let n := Z.to_nat ((wrap_int (strlen data) + BLOCK_SIZE - 1) `quot` BLOCK_SIZE) in
  super (written fs k data now) = super (alloc_blocks fs k 0 n).1.
Proof.
  intros n. unfold written. fold n. cbn [super flush_inodes set_fp set_inodes].
  by destruct (write_blocks_frame (alloc_blocks fs k 0 n).1 k (cstr data)
                 (wrap_int (strlen data)) 0 n) as (-> & _ & _).
Qed.

Lemma count_blocks_cons (a : Z) (l : list Z) :
  count_blocks (a :: l) = (if decide (a ≠ SENTINEL) then 1 else 0) + count_blocks l.
Proof.
  unfold count_blocks. rewrite filter_cons.
  destruct (decide (a ≠ SENTINEL)); cbn [length]; lia.
Qed.

Lemma count_blocks_prefix (l : list Z) (n : nat) :
  (n ≤ length l)%nat →
  (∀ j b, (j < n)%nat → l !! j = Some b → b ≠ SENTINEL) →
  (∀ j b, (n ≤ j)%nat → l !! j = Some b → b = SENTINEL) →
  count_blocks l = Z.of_nat n.
Proof.
  revert n. induction l as [|a l IH]; intros n Hn Hlow Hhigh.
  - cbn [length] in Hn. by replace n with 0%nat by lia.
  - rewrite count_blocks_cons. destruct n as [|n].
    + rewrite decide_False by (intros Ha; apply Ha; by apply (Hhigh 0%nat)).
      rewrite (IH 0%nat); [lia | lia | intros j b Hj; lia |].
      intros j b _ Hj. apply (Hhigh (S j)); [lia | done].
    + rewrite decide_True by (by apply (Hlow 0%nat); [lia |]).
      rewrite (IH n); [lia | cbn [length] in Hn; lia | |].
      * intros j b Hj Hb. apply (Hlow (S j)); [lia | done].
      * intros j b Hj Hb. apply (Hhigh (S j)); [lia | done].
Qed.

(** C3, as the code has it. After a successful [fs_write_file] of a string of
    length [L], every ordinal below [ceil(L / BLOCK_SIZE)] of the inode holds
    a block, every entry that held a block before still holds it, and the
    entries from [ceil(L / BLOCK_SIZE)] on are what they were before the
    call. So a file that held no block before holds exactly
    [ceil(L / BLOCK_SIZE)] afterwards, with -1 in all higher entries. *)
Theorem C3_write_blocks (fs : FileSystem) (nm data : list byte) (now : Z)
    (fs' : FileSystem) (r : Z) :
  wf_shape fs → strlen data ≤ INT_MAX →
  fs_write_file fs nm data now = (fs', inr r) →
  let k := fs_find_inode fs nm in
  let need := ceil_div_block (strlen data) in
  ∃ ino ino',
    inode_at fs k = Some ino ∧ inode_at fs' k = Some ino' ∧
    (∀ j, 0 ≤ j < need → ∃ b, block_at ino' j = Some b ∧ b ≠ SENTINEL) ∧
    (∀ j b, block_at ino j = Some b → b ≠ SENTINEL → block_at ino' j = Some b) ∧
    (∀ j, need ≤ j → block_at ino' j = block_at ino j) ∧
    ((∀ j b, block_at ino j = Some b → b = SENTINEL) →
       count_blocks (blocks ino') = need ∧
       ∀ j b, need ≤ j → block_at ino' j = Some b → b = SENTINEL).
Proof.
  intros Hwf Hlen Hw k need.
  apply fs_write_file_ok in Hw. cbv zeta in Hw. fold k in Hw.
  destruct Hw as (Hk & Hmax & Hok & -> & ->).
  assert (Hdl : wrap_int (strlen data) = strlen data).
  { apply wrap_int_id. unfold strlen, INT_MIN in *. lia. }
  rewrite Hdl in *. rewrite blocks_needed_ceil in Hok. fold need in Hok.
  destruct (fs_find_inode_found fs nm Hk) as [[Hkr (ino & Hino & Hu & _)] _].
  fold k in Hkr, Hino.
  destruct (alloc_blocks_rel fs k (Z.to_nat need) ino Hwf Hino)
    as (i & Hi & Hrel & Hwf1 & Hfilled & Hend).
  rewrite Hok in Hend. subst i.
  destruct Hrel as [_ _ _ _ _
    (ino1 & Hino1 & _ & _ & _ & _ & Hl1 & Hrest & Hkept & _ & _)].
  pose proof (ceil_div_block_spec (strlen data)) as Hceil. fold need in Hceil.
  assert (Hneed : 0 ≤ need ≤ NBLOCKS).
  { change NBLOCKS with 10. unfold strlen, MAX_FILE_SIZE, BLOCK_SIZE in *. lia. }
  rewrite Z2Nat.id in Hfilled, Hrest by lia.
  destruct (inode_at_shape _ _ _ Hwf1 Hino1) as [Hsh1 _].
  exists ino, (set_size_modified ino1 (strlen data) now).
  split; [done |]. split.
  { pose proof (inode_at_written fs k data now k ltac:(lia)) as Hat.
    cbv zeta in Hat. rewrite Hdl, blocks_needed_ceil in Hat. fold need in Hat.
    rewrite Hat, decide_True by done. by rewrite Hino1. }
  change (block_at (set_size_modified ino1 (strlen data) now)) with (block_at ino1).
  change (blocks (set_size_modified ino1 (strlen data) now)) with (blocks ino1).
  split_and!.
  - intros j Hj. destruct (block_at_is_Some ino1 j Hsh1 ltac:(lia)) as [b Hb].
    exists b. split; [done |]. by eapply Hfilled.
  - done.
  - done.
  - intros Hfresh. split.
    + rewrite <- (Z2Nat.id need) by lia. apply count_blocks_prefix.
      * destruct Hsh1 as [_ ->]. lia.
      * intros j b Hj Hb. apply (Hfilled ino1 (Z.of_nat j) b Hino1); [lia |].
        unfold block_at. rewrite decide_True by lia. by rewrite Nat2Z.id.
      * intros j b Hj Hb. apply (Hfresh (Z.of_nat j)).
        rewrite <- Hrest by lia.
        unfold block_at. rewrite decide_True by lia. by rewrite Nat2Z.id.
    + intros j b Hj Hb. apply (Hfresh j). by rewrite <- Hrest.
Qed.


(** ** The invariant along a session *)

Lemma fs_inv_ext (fs fs' : FileSystem) :
  super fs' = super fs → inodes fs' = inodes fs → bitmap fs' = bitmap fs →
  fs_inv fs → fs_inv fs'.
Proof.
  destruct fs as [sb t bm f], fs' as [sb' t' bm' f']. cbn [super inodes bitmap].
  intros -> -> -> Hinv. destruct Hinv. by split.
Qed.

Lemma inode_at_format (f0 : FILE) (i : Z) (ino : Inode) :
  inode_at (fs_format f0) i = Some ino → ino = zero_inode.
Proof.
  unfold inode_at. rewrite format_inodes. destruct (decide (0 ≤ i)); [| done].
  by intros [-> _]%lookup_replicate.
Qed.

Lemma zero_inode_blocks (j b : Z) : block_at zero_inode j = Some b → b = 0.
Proof.
  unfold block_at. destruct (decide (0 ≤ j)); [| done].
  by intros [-> _]%lookup_replicate.
Qed.

Lemma fs_inv_format (f0 : FILE) : fs_inv (fs_format f0).
Proof.
  split.
  - unfold wf_shape. rewrite format_inodes, format_bitmap, format_super.
    split_and!; [by rewrite length_replicate | | done | done].
    by apply Forall_replicate.
  - rewrite format_super. unfold formatted_layout.
    cbn [total_blocks block_size inode_table_start bitmap_start data_start].
    by rewrite ceil_blocks_inodes, ceil_blocks_bitmap.
  - intros i j b (ino & Hino & Hu & _). by apply inode_at_format in Hino as ->.
  - intros i j b (ino & Hino & Hu & _). by apply inode_at_format in Hino as ->.
  - intros i j i' j' b (ino & Hino & Hu & _). by apply inode_at_format in Hino as ->.
  - intros i ino Hino j j' b Hj. apply inode_at_format in Hino as ->.
    by apply zero_inode_blocks in Hj.
  - intros i ino Hino j Hj Hsz. apply inode_at_format in Hino as ->.
    cbn [size zero_inode] in Hsz. unfold BLOCK_SIZE in Hsz. lia.
  - rewrite format_super, format_bitmap. reflexivity.
Qed.

Lemma block_at_replicate_sentinel (ino : Inode) (bl : list Z) (j b : Z) (n : nat) :
  blocks ino = replicate n SENTINEL → block_at ino j = Some b → b = SENTINEL.
Proof.
  unfold block_at. intros ->. destruct (decide (0 ≤ j)); [| done].
  by intros [-> _]%lookup_replicate.
Qed.

Lemma fs_inv_create (fs : FileSystem) (nm : list byte) (now : Z) :
  fs_inv fs → fs_inv (fs_create_file fs nm now).1.
Proof.
  intros Hinv. unfold fs_create_file.
  destruct (decide (fs_find_inode fs nm ≠ -1)); [exact Hinv |].
  pose proof (first_free_cases fs) as Hc. cbv zeta in Hc.
  set (k := first_from _ 0 _) in *. clearbody k.
  destruct (decide (k = -1)); [exact Hinv |].
  destruct Hc as [[Hk _] | [[Hkr (ino0 & Hino0 & Hfree)] _]]; [done |].
  cbn [fst].
  set (init := λ ino : Inode, {| name := strncpy nm MAX_FILENAME; size := 0;
                        blocks := replicate (length (blocks ino)) SENTINEL;
                        created := now; modified := now |}).
  set (fs1 := set_inodes fs (alter init (Z.to_nat k) (inodes fs))).
  apply (fs_inv_ext fs1); [reflexivity | reflexivity | reflexivity |].
  assert (Hat : ∀ j, inode_at fs1 j =
                     if decide (j = k) then Some (init ino0) else inode_at fs j).
  { intros j. unfold fs1. rewrite inode_at_alter by lia.
    case_decide; [by rewrite Hino0 | reflexivity]. }
  assert (Hsup : super fs1 = super fs) by reflexivity.
  assert (Hbm : bitmap fs1 = bitmap fs) by reflexivity.
  assert (Hbma : ∀ b, bitmap_at fs1 b = bitmap_at fs b) by reflexivity.
  assert (Hino1 : inodes fs1 = alter init (Z.to_nat k) (inodes fs)) by reflexivity.
  assert (Hinit : ∀ j b, block_at (init ino0) j = Some b → b = SENTINEL).
  { intros j b. by apply (block_at_replicate_sentinel (init ino0) (blocks ino0)
                            j b (length (blocks ino0))). }
  assert (Hshape1 : ∀ ino, inode_shape ino → inode_shape (init ino)).
  { intros ino [Hn Hb]. split.
    - cbn [name init]. by rewrite strncpy_length.
    - cbn [blocks init]. by rewrite length_replicate. }
  assert (Hsize1 : size (init ino0) = 0) by reflexivity.
  clearbody fs1 init.
  assert (Hown : ∀ i j b, owns fs1 i j b → owns fs i j b).
  { intros i j b (ino & Hino & Hu & Hb & Hne). rewrite Hat in Hino.
    destruct (decide (i = k)) as [-> | Hik].
    - injection Hino as <-. exfalso. apply Hne. by eapply Hinit.
    - exists ino. split_and!; assumption. }
  split.
  - destruct (inv_shape fs Hinv) as (Hlen & Hshape & Hbml & Hfb).
    unfold wf_shape. rewrite Hino1, Hbm, Hsup.
    split_and!; [by rewrite length_alter | | exact Hbml | exact Hfb].
    apply Forall_alter; [exact Hshape |]. intros ino _. apply Hshape1.
  - rewrite Hsup. exact (inv_layout fs Hinv).
  - intros i j b Ho. rewrite Hsup. apply Hown in Ho.
    exact (inv_region fs Hinv i j b Ho).
  - intros i j b Ho. rewrite Hbma. apply Hown in Ho.
    exact (inv_used fs Hinv i j b Ho).
  - intros i j i' j' b Ho Ho'. apply Hown in Ho, Ho'.
    exact (inv_unshared fs Hinv i j i' j' b Ho Ho').
  - intros i ino. rewrite Hat. destruct (decide (i = k)) as [-> | Hik];
      [| apply (inv_prefix fs Hinv)].
    intros [= <-] j j' b _ _ Hb. by eapply Hinit.
  - intros i ino. rewrite Hat. destruct (decide (i = k)) as [-> | Hik];
      [| apply (inv_size fs Hinv)].
    intros [= <-] j Hj Hsz. rewrite Hsize1 in Hsz. unfold BLOCK_SIZE in Hsz. lia.
  - rewrite Hsup, Hbm. exact (inv_count fs Hinv).
Qed.

Lemma written_frame (fs : FileSystem) (k : Z) (data : list byte) (now : Z) :
  let n := Z.to_nat ((wrap_int (strlen data) + BLOCK_SIZE - 1) `quot` BLOCK_SIZE) in
  let fs1 := (alloc_blocks fs k 0 n).1 in
  super (written fs k data now) = super fs1 ∧
  bitmap (written fs k data now) = bitmap fs1 ∧
  inodes (written fs k data now) =
    alter (λ ino, set_size_modified ino (wrap_int (strlen data)) now)
          (Z.to_nat k) (inodes fs1).
Proof.
  intros n fs1. unfold written. fold n fs1.
  cbn [super bitmap inodes flush_inodes set_fp set_inodes].
  by destruct (write_blocks_frame fs1 k (cstr data) (wrap_int (strlen data)) 0 n)
    as (-> & -> & ->).
Qed.

Lemma fs_inv_written (fs : FileSystem) (k : Z) (data : list byte) (now : Z)
    (ino : Inode) :
  fs_inv fs → inode_at fs k = Some ino → in_use ino = true →
  wrap_int (strlen data) ≤ MAX_FILE_SIZE →
  let n := Z.to_nat ((wrap_int (strlen data) + BLOCK_SIZE - 1) `quot` BLOCK_SIZE) in
  (alloc_blocks fs k 0 n).2 = true →
  fs_inv (written fs k data now).
Proof.
  intros Hinv Hino Hu Hmax n Hok.
  destruct (fs_inv_alloc_blocks fs k n ino Hinv Hino Hu)
    as (Hinv1 & ino1 & Hino1 & Hu1 & Hfilled).
  specialize (Hfilled Hok).
  destruct (inode_at_shape fs k ino (inv_shape fs Hinv) Hino) as [_ Hk].
  pose proof (written_frame fs k data now) as Hfr. cbv zeta in Hfr. fold n in Hfr.
  pose proof (inode_at_written fs k data now) as Hat. cbv zeta in Hat. fold n in Hat.
  pose proof (bitmap_at_written fs k data now) as Hbm. cbv zeta in Hbm. fold n in Hbm.
  assert (Hn : Z.of_nat n = Z.max 0 (ceil_div_block (wrap_int (strlen data)))).
  { unfold n. rewrite blocks_needed_ceil. lia. }
  pose proof (ceil_div_block_spec (wrap_int (strlen data))) as Hceil.
  set (fs1 := (alloc_blocks fs k 0 n).1) in *.
  set (L := wrap_int (strlen data)) in *.
  set (fs' := written fs k data now) in *.
  clearbody fs1 fs' L n.
  destruct Hfr as (Hsup & Hbml & Hinodes).
  assert (Hat' : ∀ j, inode_at fs' j =
                      if decide (j = k) then Some (set_size_modified ino1 L now)
                      else inode_at fs1 j).
  { intros j. rewrite Hat by lia. case_decide; [by rewrite Hino1 | reflexivity]. }
  assert (Hown : ∀ i j b, owns fs' i j b → owns fs1 i j b).
  { intros i j b (ino' & Hino' & Hu' & Hb & Hne). rewrite Hat' in Hino'.
    destruct (decide (i = k)) as [-> | Hik].
    - injection Hino' as <-. exists ino1. split_and!; assumption.
    - exists ino'. split_and!; assumption. }
  split.
  - destruct (inv_shape fs1 Hinv1) as (Hlen & Hshape & Hbmlen & Hfb).
    unfold wf_shape. rewrite Hsup, Hbml, Hinodes.
    split_and!; [by rewrite length_alter | | exact Hbmlen | exact Hfb].
    apply Forall_alter; [exact Hshape |]. intros ino' _ [Hn' Hb']. by split.
  - rewrite Hsup. exact (inv_layout fs1 Hinv1).
  - intros i j b Ho. rewrite Hsup. apply Hown in Ho.
    exact (inv_region fs1 Hinv1 i j b Ho).
  - intros i j b Ho. rewrite Hbm. apply Hown in Ho.
    exact (inv_used fs1 Hinv1 i j b Ho).
  - intros i j i' j' b Ho Ho'. apply Hown in Ho, Ho'.
    exact (inv_unshared fs1 Hinv1 i j i' j' b Ho Ho').
  - intros i ino'. rewrite Hat'. destruct (decide (i = k)) as [-> | Hik];
      [| apply (inv_prefix fs1 Hinv1)].
    intros [= <-]. exact (inv_prefix fs1 Hinv1 k ino1 Hino1).
  - intros i ino'. rewrite Hat'. destruct (decide (i = k)) as [-> | Hik];
      [| apply (inv_size fs1 Hinv1)].
    intros [= <-] j Hj Hsz. cbn [size set_size_modified] in Hsz.
    change (block_at (set_size_modified ino1 L now)) with (block_at ino1).
    destruct (inode_at_shape fs1 k ino1 (inv_shape fs1 Hinv1) Hino1) as [Hsh1 _].
    assert (j < Z.of_nat n ∧ j < NBLOCKS) as [Hjn Hj10].
    { change NBLOCKS with 10. unfold MAX_FILE_SIZE, BLOCK_SIZE in *. lia. }
    destruct (block_at_is_Some ino1 j Hsh1 ltac:(lia)) as [b Hb].
    exists b. split; [exact Hb |]. apply (Hfilled j b); [lia | exact Hb].
  - rewrite Hsup, Hbml. exact (inv_count fs1 Hinv1).
Qed.

Lemma fs_inv_write (fs : FileSystem) (nm data : list byte) (now : Z) :
  fs_inv fs → fs_inv (fs_write_file fs nm data now).1.
Proof.
  intros Hinv. unfold fs_write_file.
  destruct (decide (fs_find_inode fs nm = -1)) as [| Hk]; [exact Hinv |].
  destruct (decide (wrap_int (strlen data) > MAX_FILE_SIZE)) as [| Hmax];
    [exact Hinv |].
  destruct (fs_find_inode_found fs nm Hk) as [[Hkr (ino & Hino & Hu & _)] _].
  pose proof (fs_inv_written fs (fs_find_inode fs nm) data now ino Hinv Hino Hu
                ltac:(lia)) as Hw. cbv zeta in Hw.
  pose proof (fs_inv_alloc_blocks fs (fs_find_inode fs nm)
                (Z.to_nat ((wrap_int (strlen data) + BLOCK_SIZE - 1) `quot` BLOCK_SIZE))
                ino Hinv Hino Hu) as [Ha _].
  unfold written in Hw.
  destruct (alloc_blocks fs (fs_find_inode fs nm) 0
              (Z.to_nat ((wrap_int (strlen data) + BLOCK_SIZE - 1) `quot` BLOCK_SIZE)))
    as [fs1 ok].
  destruct ok; cbn [fst snd] in *; [by apply Hw | exact Ha].
Qed.

Lemma fs_read_file_frame (fs : FileSystem) (nm : list byte) :
  super (fs_read_file fs nm).1 = super fs ∧
  inodes (fs_read_file fs nm).1 = inodes fs ∧
  bitmap (fs_read_file fs nm).1 = bitmap fs.
Proof.
  unfold fs_read_file. case_decide; [done |].
  destruct (inode_at fs (fs_find_inode fs nm)) as [ino|]; [| done].
  case_decide; [done |].
  by destruct (read_blocks (fp fs) ino [] 0 0 (Z.to_nat NBLOCKS)).
Qed.

Lemma fs_inv_read (fs : FileSystem) (nm : list byte) :
  fs_inv fs → fs_inv (fs_read_file fs nm).1.
Proof.
  destruct (fs_read_file_frame fs nm) as (Hs & Hi & Hb). by apply fs_inv_ext.
Qed.

Lemma fs_inv_step (fs : FileSystem) (o : op) : fs_inv fs → fs_inv (step fs o).
Proof.
  intros Hinv. destruct o as [nm now | nm data now | nm |]; cbn [step].
  - by apply fs_inv_create.
  - by apply fs_inv_write.
  - by apply fs_inv_read.
  - exact Hinv.
Qed.

Lemma fs_inv_run (fs : FileSystem) (ops : list op) :
  fs_inv fs → fs_inv (run fs ops).
Proof.
  revert fs. induction ops as [|o ops IH]; intros fs Hinv; [exact Hinv |].
  apply IH. by apply fs_inv_step.
Qed.

(** Every state of a session that started with a format satisfies the
    invariant. *)
Lemma fs_inv_session (f0 : FILE) (ops : list op) :
  fs_inv (run (fs_format f0) ops).
Proof. apply fs_inv_run, fs_inv_format. Qed.

(** C8, as the code has it. In every state a session reaches from a formatted
    image, every entry other than -1 in the [blocks] of an inode in use lies
    from [data_start] to [total_blocks - 1] and is marked used in the bitmap,
    and no block index stands at two (inode, ordinal) positions of inodes in
    use. (The slots that were never created keep the zeros of the format in
    their [blocks], see [C8_counterexample].) *)
Theorem C8_blocks_owned (f0 : FILE) (ops : list op) :
  let fs := run (fs_format f0) ops in
  (∀ i j b, owns fs i j b →
     data_start (super fs) ≤ b < total_blocks (super fs) ∧
     bitmap_at fs b = Some x01) ∧
  (∀ i j i' j' b, owns fs i j b → owns fs i' j' b → i = i' ∧ j = j').
Proof.
  intros fs. pose proof (fs_inv_session f0 ops) as Hinv. fold fs in Hinv.
  split.
  - intros i j b Ho. split.
    + exact (inv_region fs Hinv i j b Ho).
    + exact (inv_used fs Hinv i j b Ho).
  - exact (inv_unshared fs Hinv).
Qed.

Lemma count_new_le (old new : list Z) : count_new old new ≤ Z.of_nat (length old).
Proof.
  revert new. induction old as [|a old IH]; intros [|b new]; cbn [count_new length];
    try lia.
  specialize (IH new). case_decide; lia.
Qed.

Lemma fs_inv_free_range (fs : FileSystem) :
  fs_inv fs → 0 ≤ free_blocks (super fs) ≤ TOTAL_BLOCKS.
Proof.
  intros Hinv. rewrite (inv_count fs Hinv).
  pose proof (count_used_nonneg (bitmap fs)) as Hc.
  destruct (inv_shape fs Hinv) as (_ & _ & Hlen & _). rewrite Hlen in Hc.
  unfold TOTAL_BLOCKS in *. lia.
Qed.

(** The counter after the allocation loop, in a state that satisfies the
    invariant: one less for each block attached. *)
Lemma free_blocks_alloc_blocks (fs : FileSystem) (k : Z) (n : nat) (ino : Inode) :
  fs_inv fs → inode_at fs k = Some ino →
  ∃ ino1, inode_at (alloc_blocks fs k 0 n).1 k = Some ino1 ∧
          free_blocks (super (alloc_blocks fs k 0 n).1) =
            free_blocks (super fs) - count_new (blocks ino) (blocks ino1).
Proof.
  intros Hinv Hino.
  destruct (alloc_blocks_rel fs k n ino (inv_shape fs Hinv) Hino)
    as (i & _ & Hrel & _ & _ & _).
  destruct Hrel as [_ _ _ _ _ (ino1 & Hino1 & _ & _ & _ & _ & _ & _ & _ & _ & Hfb)].
  exists ino1. split; [exact Hino1 |]. rewrite Hfb. apply wrap_int_id.
  pose proof (fs_inv_free_range fs Hinv) as Hr.
  pose proof (count_new_le (blocks ino) (blocks ino1)) as Hle.
  pose proof (count_new_nonneg (blocks ino) (blocks ino1)) as Hge.
  destruct (inode_at_shape fs k ino (inv_shape fs Hinv) Hino) as [[_ Hl] _].
  rewrite Hl in Hle. unfold INT_MIN, INT_MAX, TOTAL_BLOCKS in *.
  change (Z.of_nat (Z.to_nat NBLOCKS)) with 10 in Hle. lia.
Qed.

Lemma attached_refl (fs : FileSystem) (k : Z) : attached fs fs k = 0.
Proof.
  unfold attached. destruct (inode_at fs k); [apply count_new_refl | done].
Qed.

Lemma attached_nonneg (fs fs' : FileSystem) (k : Z) : 0 ≤ attached fs fs' k.
Proof.
  unfold attached. destruct (inode_at fs k), (inode_at fs' k); try lia.
  apply count_new_nonneg.
Qed.

Lemma free_blocks_write (fs : FileSystem) (nm data : list byte) (now : Z) :
  fs_inv fs →
  free_blocks (super (fs_write_file fs nm data now).1) =
  free_blocks (super fs)
  - attached fs (fs_write_file fs nm data now).1 (fs_find_inode fs nm).
Proof.
  intros Hinv.
  pose proof (fs_write_file_cases fs nm data now) as Hc. cbv zeta in Hc.
  destruct Hc as [-> | [-> | [[Hk ->] | [Hk ->]]]]; cbn [fst].
  - rewrite attached_refl. lia.
  - rewrite attached_refl. lia.
  - destruct (fs_find_inode_found fs nm Hk) as [[Hkr (ino & Hino & Hu & _)] _].
    destruct (free_blocks_alloc_blocks fs (fs_find_inode fs nm)
                (Z.to_nat ((wrap_int (strlen data) + BLOCK_SIZE - 1) `quot` BLOCK_SIZE))
                ino Hinv Hino) as (ino1 & Hino1 & Hfb).
    unfold attached. by rewrite Hino, Hino1.
  - destruct (fs_find_inode_found fs nm Hk) as [[Hkr (ino & Hino & Hu & _)] _].
    destruct (free_blocks_alloc_blocks fs (fs_find_inode fs nm)
                (Z.to_nat ((wrap_int (strlen data) + BLOCK_SIZE - 1) `quot` BLOCK_SIZE))
                ino Hinv Hino) as (ino1 & Hino1 & Hfb).
    pose proof (super_written fs (fs_find_inode fs nm) data now) as Hs.
    cbv zeta in Hs. rewrite Hs, Hfb.
    pose proof (inode_at_written fs (fs_find_inode fs nm) data now
                  (fs_find_inode fs nm) ltac:(lia)) as Hat.
    cbv zeta in Hat. rewrite decide_True, Hino1 in Hat by done.
    unfold attached. by rewrite Hino, Hat.
Qed.

Lemma fs_create_file_super (fs : FileSystem) (nm : list byte) (now : Z) :
  super (fs_create_file fs nm now).1 = super fs.
Proof. unfold fs_create_file. by repeat case_decide. Qed.

(** C9. Along a session that started from a formatted image, [free_blocks]
    never goes up. Create, read and list leave it as it is; a write takes off
    one for each block it attaches to the inode; and one allocation (the body
    of the allocation loop) takes off exactly one. *)
Theorem C9_free_blocks_monotone (f0 : FILE) (ops : list op) (o : op) :
  let fs := run (fs_format f0) ops in
  let fs' := step fs o in
  free_blocks (super fs') ≤ free_blocks (super fs) ∧
  match o with
  | Write nm data now =>
      free_blocks (super fs') =
      free_blocks (super fs) - attached fs fs' (fs_find_inode fs nm)
  | _ => free_blocks (super fs') = free_blocks (super fs)
  end ∧
  (∀ k i, get_free_block fs ≠ -1 →
     free_blocks (super (alloc_step fs k i (get_free_block fs))) =
     free_blocks (super fs) - 1).
Proof.
  intros fs fs'. pose proof (fs_inv_session f0 ops) as Hinv. fold fs in Hinv.
  assert (Hop : match o with
                | Write nm data now =>
                    free_blocks (super fs') =
                    free_blocks (super fs) - attached fs fs' (fs_find_inode fs nm)
                | _ => free_blocks (super fs') = free_blocks (super fs)
                end).
  { unfold fs'. destruct o as [nm now | nm data now | nm |]; cbn [step].
    - by rewrite fs_create_file_super.
    - by apply free_blocks_write.
    - by destruct (fs_read_file_frame fs nm) as (-> & _ & _).
    - done. }
  split; [| split; [exact Hop |]].
  - destruct o as [nm now | nm data now | nm |]; try lia.
    pose proof (attached_nonneg fs fs' (fs_find_inode fs nm)). lia.
  - intros k i _. rewrite alloc_step_super. cbn [free_blocks set_free_blocks].
    apply wrap_int_id. pose proof (fs_inv_free_range fs Hinv).
    unfold INT_MIN, INT_MAX, TOTAL_BLOCKS in *. lia.
Qed.

(** ** The image *)

Lemma content_fwrite_outside (f : FILE) (buf : list byte) (a : Z) :
  ¬ (position f ≤ a < position f + Z.of_nat (length buf)) →
  content (fwrite f buf) a = content f a.
Proof. intros Ha. unfold fwrite. cbn [content]. by rewrite decide_False. Qed.

Lemma content_fwrite_inside (f : FILE) (buf : list byte) (a : Z) (c : byte) :
  position f ≤ a → buf !! Z.to_nat (a - position f) = Some c →
  content (fwrite f buf) a = c.
Proof.
  intros Ha Hc. unfold fwrite. cbn [content].
  pose proof (lookup_lt_Some _ _ _ Hc) as Hlt.
  rewrite decide_True by lia. by apply list_lookup_total_correct.
Qed.

Lemma position_fseek (f : FILE) (off : Z) : 0 ≤ off → position (fseek f off) = off.
Proof. intros Ho. unfold fseek. by rewrite decide_False by lia. Qed.

Lemma content_fseek (f : FILE) (off : Z) : content (fseek f off) = content f.
Proof. unfold fseek. by case_decide. Qed.

Lemma block_content_length (f : FILE) (b : Z) :
  length (block_content f b) = Z.to_nat BLOCK_SIZE.
Proof. unfold block_content. by rewrite length_fmap, length_seqZ. Qed.

Lemma block_content_ext (f f' : FILE) (b : Z) :
  (∀ a, b * BLOCK_SIZE ≤ a < b * BLOCK_SIZE + BLOCK_SIZE → content f' a = content f a) →
  block_content f' b = block_content f b.
Proof.
  intros Hext. unfold block_content. apply list_eq. intros i.
  rewrite !list_lookup_fmap.
  destruct (seqZ (b * BLOCK_SIZE) BLOCK_SIZE !! i) as [a|] eqn:Ha; [| done].
  apply lookup_seqZ in Ha as [-> Hi]. cbn. f_equal. apply Hext. lia.
Qed.

(** A block written at its offset reads back. *)
Lemma block_content_fwrite_same (f : FILE) (b : Z) (buf : list byte) :
  0 ≤ b → length buf = Z.to_nat BLOCK_SIZE →
  block_content (fwrite (fseek f (b * BLOCK_SIZE)) buf) b = buf.
Proof.
  intros Hb Hlen. unfold block_content. apply list_eq. intros i.
  rewrite list_lookup_fmap.
  destruct (decide (i < Z.to_nat BLOCK_SIZE)%nat) as [Hi | Hi].
  - rewrite lookup_seqZ_lt by lia. cbn.
    destruct (lookup_lt_is_Some_2 buf i ltac:(lia)) as [c Hc]. rewrite Hc. f_equal.
    apply content_fwrite_inside.
    + rewrite position_fseek by (unfold BLOCK_SIZE; lia). lia.
    + rewrite position_fseek by (unfold BLOCK_SIZE; lia).
      by replace (Z.to_nat (b * BLOCK_SIZE + Z.of_nat i - b * BLOCK_SIZE)) with i by lia.
  - rewrite lookup_seqZ_ge by lia. cbn. symmetry. apply lookup_ge_None. lia.
Qed.

(** A write that ends before a block or starts after it leaves the block. *)
Lemma block_content_fwrite_other (f : FILE) (off : Z) (buf : list byte) (b : Z) :
  0 ≤ off →
  off + Z.of_nat (length buf) ≤ b * BLOCK_SIZE ∨ b * BLOCK_SIZE + BLOCK_SIZE ≤ off →
  block_content (fwrite (fseek f off) buf) b = block_content f b.
Proof.
  intros Hoff Hdisj. apply block_content_ext. intros a Ha.
  rewrite content_fwrite_outside, content_fseek; [done |].
  rewrite position_fseek by done. lia.
Qed.

Lemma block_buffer_length (d : list byte) (off copy_len : Z) :
  copy_len ≤ BLOCK_SIZE → length (block_buffer d off copy_len) = Z.to_nat BLOCK_SIZE.
Proof.
  intros Hc. unfold block_buffer.
  rewrite length_app, length_replicate, length_take. lia.
Qed.

Lemma remaining_step (len j : Z) :
  remaining len j - (if decide (remaining len j > BLOCK_SIZE)
                     then BLOCK_SIZE else remaining len j)
  = remaining len (j + 1).
Proof. unfold remaining, BLOCK_SIZE. case_decide; lia. Qed.

Lemma copy_len_min (len j : Z) :
  (if decide (remaining len j > BLOCK_SIZE) then BLOCK_SIZE else remaining len j)
  = Z.min BLOCK_SIZE (remaining len j).
Proof. case_decide; lia. Qed.

(** The data loop: each ordinal's block holds its piece of the data, when the
    blocks are distinct data blocks. *)
Lemma write_blocks_content (fs : FileSystem) (k : Z) (ino : Inode)
    (d : list byte) (len : Z) (n : nat) (i : Z) :
  0 ≤ i →
  inode_at fs k = Some ino →
  (∀ j, i ≤ j < i + Z.of_nat n →
        ∃ b, block_at ino j = Some b ∧ 0 ≤ b < TOTAL_BLOCKS) →
  (∀ j j' b, i ≤ j < i + Z.of_nat n → i ≤ j' < i + Z.of_nat n →
             block_at ino j = Some b → block_at ino j' = Some b → j = j') →
  let fs' := write_blocks fs k d (remaining len i) i n in
  (∀ j b, i ≤ j < i + Z.of_nat n → block_at ino j = Some b →
          block_content (fp fs') b =
          block_buffer d (j * BLOCK_SIZE) (Z.min BLOCK_SIZE (remaining len j))) ∧
  (∀ b, 0 ≤ b → (∀ j, i ≤ j < i + Z.of_nat n → block_at ino j ≠ Some b) →
        block_content (fp fs') b = block_content (fp fs) b).
Proof.
  revert fs i. induction n as [|n IH]; intros fs i Hi Hino Hblk Hdist fs'.
  - split; [intros j b Hj; lia | done].
  - unfold fs'. cbn [write_blocks]. rewrite Hino. cbn [mbind option_bind].
    destruct (Hblk i ltac:(lia)) as (b & Hb & Hbr). rewrite Hb.
    rewrite decide_False by (unfold SENTINEL; lia).
    rewrite remaining_step, copy_len_min.
    rewrite wrap_int_id
      by (unfold INT_MIN, INT_MAX, BLOCK_SIZE, TOTAL_BLOCKS in *; lia).
    set (buffer := block_buffer d (i * BLOCK_SIZE) (Z.min BLOCK_SIZE (remaining len i))).
    set (fs1 := set_fp fs (fwrite (fseek (fp fs) (b * BLOCK_SIZE)) buffer)).
    assert (Hbuf : length buffer = Z.to_nat BLOCK_SIZE)
      by (apply block_buffer_length; lia).
    destruct (IH fs1 (i + 1) ltac:(lia) Hino) as [Hin Hout].
    { intros j Hj. apply Hblk. lia. }
    { intros j j' c Hj Hj'. apply Hdist; lia. }
    assert (Hlater : ∀ j, i + 1 ≤ j < i + 1 + Z.of_nat n → block_at ino j ≠ Some b).
    { intros j Hj Hjb. assert (i = j) by (apply (Hdist i j b); [lia | lia | done | done]).
      lia. }
    split.
    + intros j c Hj Hc. destruct (decide (j = i)) as [-> | Hji].
      * assert (c = b) as -> by congruence.
        rewrite Hout; [| lia | exact Hlater].
        unfold fs1. cbn [fp set_fp]. apply block_content_fwrite_same; [lia | done].
      * apply Hin; [lia | done].
    + intros c Hc Hnot. rewrite Hout; [| done | intros j Hj; apply Hnot; lia].
      unfold fs1. cbn [fp set_fp].
      assert (c ≠ b) as Hcb by (intros ->; by apply (Hnot i ltac:(lia))).
      apply block_content_fwrite_other; [unfold BLOCK_SIZE; lia |].
      rewrite Hbuf. unfold BLOCK_SIZE. lia.
Qed.

Lemma fread_block (f : FILE) (b : Z) :
  0 ≤ b < TOTAL_BLOCKS →
  (fread (fseek f (wrap_int (b * BLOCK_SIZE))) BLOCK_SIZE).1 = block_content f b ∧
  content (fread (fseek f (wrap_int (b * BLOCK_SIZE))) BLOCK_SIZE).2 = content f.
Proof.
  intros Hb.
  rewrite wrap_int_id by (unfold INT_MIN, INT_MAX, BLOCK_SIZE, TOTAL_BLOCKS in *; lia).
  unfold fread, block_content. cbn [fst snd content].
  rewrite position_fseek by (unfold BLOCK_SIZE; lia).
  by rewrite content_fseek.
Qed.



(** The read loop copies [size] bytes when the blocks reach as far as [size],
    whatever the image holds. *)
Lemma read_blocks_length (f : FILE) (ino : Inode) (acc : list byte)
    (n : nat) (i : Z) :
  0 ≤ i → covers_size ino →
  Z.of_nat (length acc) = Z.min (i * BLOCK_SIZE) (size ino) →
  size ino ≤ (i + Z.of_nat n) * BLOCK_SIZE →
  Z.of_nat (length (read_blocks f ino acc (Z.min (i * BLOCK_SIZE) (size ino)) i n).1)
  = size ino.
Proof.
  revert f acc i. induction n as [|n IH]; intros f acc i Hi Hcov Hacc Hn.
  - cbn [read_blocks fst]. unfold BLOCK_SIZE in *. lia.
  - cbn [read_blocks].
    destruct (decide (Z.min (i * BLOCK_SIZE) (size ino) < size ino)) as [Hlt | Hge];
      [| cbn [fst]; lia].
    assert (Hi' : i * BLOCK_SIZE < size ino ∧
                  Z.min (i * BLOCK_SIZE) (size ino) = i * BLOCK_SIZE) by lia.
    destruct Hi' as [Hil Hmin]. rewrite Hmin in *.
    destruct (Hcov i Hi Hil) as (b & Hb & Hbne).
    rewrite Hb. rewrite decide_False by done.
    unfold fread. cbn [fst snd].
    set (c := if decide (size ino - i * BLOCK_SIZE > BLOCK_SIZE)
              then BLOCK_SIZE else size ino - i * BLOCK_SIZE).
    assert (Hc0 : 0 < c ≤ BLOCK_SIZE ∧
                  i * BLOCK_SIZE + c = Z.min ((i + 1) * BLOCK_SIZE) (size ino)).
    { unfold c, BLOCK_SIZE in *. case_decide; lia. }
    destruct Hc0 as [Hc0 Hc1]. rewrite Hc1.
    apply IH; [lia | done | | lia].
    rewrite length_app, length_take, length_fmap, length_seqZ.
    unfold BLOCK_SIZE in *. lia.
Qed.

Lemma covers_size_bound (ino : Inode) :
  inode_shape ino → covers_size ino → size ino ≤ MAX_FILE_SIZE.
Proof.
  intros Hsh Hcov. destruct (decide (size ino ≤ MAX_FILE_SIZE)) as [| Hgt]; [done |].
  exfalso. destruct (Hcov NBLOCKS) as (b & Hb & _).
  - by change NBLOCKS with 10.
  - change NBLOCKS with 10. unfold MAX_FILE_SIZE, BLOCK_SIZE in *. lia.
  - apply (block_at_Some_range _ _ _ Hsh) in Hb. lia.
Qed.

Lemma read_blocks_done (f : FILE) (ino : Inode) (acc : list byte)
    (bytes_read i : Z) (n : nat) :
  ¬ bytes_read < size ino → read_blocks f ino acc bytes_read i n = (acc, f).
Proof.
  intros Hdone. destruct n as [|n]; [done |]. cbn [read_blocks].
  by rewrite decide_False.
Qed.

(** In a state that satisfies the invariant, [fs_read_file] of a file gives
    as many bytes as its [size]. *)
Lemma fs_read_file_length (fs : FileSystem) (nm : list byte) (ino : Inode) :
  fs_inv fs → fs_find_inode fs nm ≠ -1 →
  inode_at fs (fs_find_inode fs nm) = Some ino →
  ∃ data, (fs_read_file fs nm).2 = inr data ∧
          Z.of_nat (length data) = Z.max 0 (size ino).
Proof.
  intros Hinv Hk Hino. unfold fs_read_file.
  rewrite decide_False by done. rewrite Hino.
  destruct (decide (size ino = 0)) as [Hz | Hnz].
  - exists []. split; [done |]. rewrite Hz. done.
  - pose proof (inv_size fs Hinv _ ino Hino) as Hcov.
    destruct (inode_at_shape fs _ ino (inv_shape fs Hinv) Hino) as [Hsh _].
    pose proof (covers_size_bound ino Hsh Hcov) as Hmax.
    destruct (decide (0 < size ino)) as [Hpos | Hneg].
    + pose proof (read_blocks_length (fp fs) ino [] (Z.to_nat NBLOCKS) 0
                    ltac:(lia) Hcov) as Hrd.
      replace (Z.min (0 * BLOCK_SIZE) (size ino)) with 0 in Hrd by lia.
      specialize (Hrd ltac:(done)
                      ltac:(change (Z.of_nat (Z.to_nat NBLOCKS)) with 10;
                            unfold MAX_FILE_SIZE, BLOCK_SIZE in *; lia)).
      destruct (read_blocks (fp fs) ino [] 0 0 (Z.to_nat NBLOCKS)) as [got f'].
      exists got. split; [done |]. cbn [fst] in Hrd. lia.
    + exists []. split.
      * by rewrite read_blocks_done by lia.
      * cbn [length]. lia.
Qed.

(** C10. In every state a session reaches from a formatted image, in every
    slot of the inode table the entries of [blocks] other than -1 come first:
    once an entry is -1 all later ones are. The blocks reach as far as [size]:
    every ordinal [j] with [j * BLOCK_SIZE < size] holds a block. So the loop
    of [fs_read_file], which leaves at the first -1, is not cut short: a read
    gives as many bytes as [size] says. *)
Theorem C10_blocks_prefix (f0 : FILE) (ops : list op) :
  let fs := run (fs_format f0) ops in
  (∀ i ino, inode_at fs i = Some ino →
     ∀ j j' b, block_at ino j = Some SENTINEL → j ≤ j' →
               block_at ino j' = Some b → b = SENTINEL) ∧
  (∀ i ino, inode_at fs i = Some ino →
     ∀ j, 0 ≤ j → j * BLOCK_SIZE < size ino →
          ∃ b, block_at ino j = Some b ∧ b ≠ SENTINEL) ∧
  (∀ nm ino, fs_find_inode fs nm ≠ -1 →
     inode_at fs (fs_find_inode fs nm) = Some ino →
     ∃ data, (fs_read_file fs nm).2 = inr data ∧
             Z.of_nat (length data) = Z.max 0 (size ino)).
Proof.
  intros fs. pose proof (fs_inv_session f0 ops) as Hinv. fold fs in Hinv.
  split; [| split].
  - exact (inv_prefix fs Hinv).
  - exact (inv_size fs Hinv).
  - intros nm ino. by apply fs_read_file_length.
Qed.

(** ** Round trip *)

Lemma fs_find_inode_names (fs fs' : FileSystem) (nm : list byte) :
  (∀ j, name <$> inode_at fs' j = name <$> inode_at fs j) →
  fs_find_inode fs' nm = fs_find_inode fs nm.
Proof.
  intros Hnames. unfold fs_find_inode. apply first_from_ext. intros j _.
  specialize (Hnames j).
  destruct (inode_at fs' j) as [ino'|], (inode_at fs j) as [ino|]; try done.
  injection Hnames as Hn. unfold in_use. by rewrite Hn.
Qed.

Lemma alloc_blocks_names (fs : FileSystem) (k : Z) (n : nat) (ino : Inode) (j : Z) :
  wf_shape fs → inode_at fs k = Some ino →
  name <$> inode_at (alloc_blocks fs k 0 n).1 j = name <$> inode_at fs j.
Proof.
  intros Hwf Hino.
  destruct (alloc_blocks_rel fs k n ino Hwf Hino) as (i & _ & Hrel & _).
  destruct Hrel as [_ _ _ _ Hoth (ino1 & Hino1 & Hn & _)].
  destruct (decide (j = k)) as [-> | Hjk].
  - rewrite Hino1, Hino. cbn. by rewrite Hn.
  - by rewrite Hoth.
Qed.

Lemma written_names (fs : FileSystem) (k : Z) (data : list byte) (now : Z)
    (ino : Inode) (j : Z) :
  wf_shape fs → inode_at fs k = Some ino →
  name <$> inode_at (written fs k data now) j = name <$> inode_at fs j.
Proof.
  intros Hwf Hino.
  destruct (inode_at_shape fs k ino Hwf Hino) as [_ Hk].
  pose proof (inode_at_written fs k data now j ltac:(lia)) as Hat.
  cbv zeta in Hat. rewrite Hat.
  rewrite <- (alloc_blocks_names fs k
                (Z.to_nat ((wrap_int (strlen data) + BLOCK_SIZE - 1) `quot` BLOCK_SIZE))
                ino j Hwf Hino).
  destruct (decide (j = k)) as [-> | Hjk]; [| reflexivity].
  match goal with |- context [inode_at ?f k] => destruct (inode_at f k) end;
    reflexivity.
Qed.

Lemma fp_written (fs : FileSystem) (k : Z) (data : list byte) (now : Z) :
  let n := Z.to_nat ((wrap_int (strlen data) + BLOCK_SIZE - 1) `quot` BLOCK_SIZE) in
  let fs2 := write_blocks (alloc_blocks fs k 0 n).1 k (cstr data)
                          (wrap_int (strlen data)) 0 n in
  ∃ buf, fp (written fs k data now) =
           fwrite (fseek (fp fs2) (wrap_int (inode_table_start (super fs2) * BLOCK_SIZE)))
                  buf ∧
         Z.of_nat (length buf) = sizeof_Inode * MAX_INODES.
Proof.
  intros n fs2. unfold written. fold n fs2.
  eexists. split; [reflexivity |]. apply repr_inodes_length.
Qed.


End Properties.

(** * The rest of the code *)

Section Further.
Context `{ABI}.

(** ** The bitmap helpers together *)

(** What [set_block] does to the state. *)
Lemma set_block_bounds (fs : FileSystem) (block value c : Z) :
  ((block < 0 ∨ TOTAL_BLOCKS ≤ block) → set_block fs block value = fs) ∧
  super (set_block fs block value) = super fs ∧
  inodes (set_block fs block value) = inodes fs ∧
  fp (set_block fs block value) = fp fs ∧
  length (bitmap (set_block fs block value)) = length (bitmap fs) ∧
  bitmap_at (set_block fs block value) c =
    (if decide (c = block ∧ 0 ≤ block < TOTAL_BLOCKS)
     then (λ _, byte_of_int value) <$> bitmap_at fs block
     else bitmap_at fs c).
Proof.
  unfold set_block. split_and!.
  - intros Hout. rewrite decide_True by lia. reflexivity.
  - by case_decide.
  - by case_decide.
  - by case_decide.
  - case_decide; [done |]. cbn [bitmap set_bitmap]. by rewrite length_insert.
  - destruct (decide (block < 0 ∨ block >= TOTAL_BLOCKS)) as [Hout | Hin].
    + rewrite decide_False by lia. done.
    + unfold bitmap_at. cbn [bitmap set_bitmap].
      destruct (decide (c = block ∧ 0 ≤ block < TOTAL_BLOCKS)) as [[-> Hb] | Hne].
      * destruct (decide (0 ≤ block)) as [_ |]; [| lia]. rewrite list_lookup_insert.
        destruct (bitmap fs !! Z.to_nat block) eqn:Hl.
        -- apply lookup_lt_Some in Hl.
           rewrite decide_True by (split; [reflexivity | exact Hl]). done.
        -- apply lookup_ge_None in Hl.
           rewrite decide_False by (intros [_ ?]; lia). done.
      * destruct (decide (0 ≤ c)); [| done].
        rewrite list_lookup_insert_ne; [done | lia].
Qed.

(** X1. [set_block] is bounds-checked: with a block index below 0 or at or
    above TOTAL_BLOCKS it returns the state as it was; with an index inside
    the bitmap it stores [(unsigned char) value] in that entry and nothing
    else: the other entries, the length of the bitmap, the superblock, the
    inode table and the image are the same. *)
Theorem set_block_checked (fs : FileSystem) (block value c : Z) :
  ((block < 0 ∨ TOTAL_BLOCKS ≤ block) → set_block fs block value = fs) ∧
  super (set_block fs block value) = super fs ∧
  inodes (set_block fs block value) = inodes fs ∧
  fp (set_block fs block value) = fp fs ∧
  length (bitmap (set_block fs block value)) = length (bitmap fs) ∧
  bitmap_at (set_block fs block value) c =
    (if decide (c = block ∧ 0 ≤ block < TOTAL_BLOCKS)
     then (λ _, byte_of_int value) <$> bitmap_at fs block
     else bitmap_at fs c).
Proof.
  unfold set_block. split_and!.
  - intros Hout. rewrite decide_True by lia. reflexivity.
  - by case_decide.
  - by case_decide.
  - by case_decide.
  - case_decide; [done |]. cbn [bitmap set_bitmap]. by rewrite length_insert.
  - destruct (decide (block < 0 ∨ block >= TOTAL_BLOCKS)) as [Hout | Hin].
    + rewrite decide_False by lia. done.
    + unfold bitmap_at. cbn [bitmap set_bitmap].
      destruct (decide (c = block ∧ 0 ≤ block < TOTAL_BLOCKS)) as [[-> Hb] | Hne].
      * destruct (decide (0 ≤ block)) as [_ |]; [| lia]. rewrite list_lookup_insert.
        destruct (bitmap fs !! Z.to_nat block) eqn:Hl.
        -- apply lookup_lt_Some in Hl.
           rewrite decide_True by (split; [reflexivity | exact Hl]). done.
        -- apply lookup_ge_None in Hl.
           rewrite decide_False by (intros [_ ?]; lia). done.
      * destruct (decide (0 ≤ c)); [| done].
        rewrite list_lookup_insert_ne; [done | lia].
Qed.

(** X2. A block [get_free_block] returned and [set_block] marked with 1 is
    not handed out again: the mark changes that one entry of the bitmap, and
    the next scan returns -1 or a strictly larger index. *)
Theorem get_free_block_after_mark (fs : FileSystem) :
  length (bitmap fs) = Z.to_nat TOTAL_BLOCKS →
  get_free_block fs ≠ -1 →
  let b := get_free_block fs in
  let fs' := set_block fs b 1 in
  bitmap_at fs' b = Some x01 ∧
  (∀ c, c ≠ b → bitmap_at fs' c = bitmap_at fs c) ∧
  (get_free_block fs' = -1 ∨ b < get_free_block fs').
Proof.
  intros Hlen Hne b fs'.
  pose proof (get_free_block_spec fs) as Hs. cbv zeta in Hs. fold b in Hs.
  destruct Hs as [[Hr _] | (_ & Hrange & Hfree & Hmin)]; [done |].
  pose proof (bitmap_at_free_bounds _ _ _ Hfree) as Hb. rewrite Hlen in Hb.
  assert (Hat : ∀ c, bitmap_at fs' c =
                     if decide (c = b) then Some x01 else bitmap_at fs c).
  { intros c. unfold fs'.
    destruct (set_block_bounds fs b 1 c) as (_ & _ & _ & _ & _ & ->).
    destruct (decide (c = b)) as [-> | Hc].
    - rewrite decide_True by (split; [done | unfold TOTAL_BLOCKS in *; lia]).
      rewrite Hfree. done.
    - rewrite decide_False by (intros [? _]; done). done. }
  split; [by rewrite Hat, decide_True |].
  split; [intros c Hc; by rewrite Hat, decide_False |].
  pose proof (get_free_block_spec fs') as Hs'. cbv zeta in Hs'.
  assert (Hsup : super fs' = super fs).
  { unfold fs'. by destruct (set_block_bounds fs b 1 0) as (_ & -> & _). }
  rewrite Hsup in Hs'.
  destruct Hs' as [[Hr' _] | (_ & Hrange' & Hfree' & _)]; [by left |].
  right. rewrite Hat in Hfree'.
  destruct (decide (get_free_block fs' = b)) as [Heq | Hneq]; [done |].
  destruct (Z.lt_trichotomy (get_free_block fs') b) as [Hlt | [Heq | Hgt]];
    [| done | done].
  exfalso. apply (Hmin (get_free_block fs')); [lia | done].
Qed.

(** ** Lookup *)

(** What [fs_find_inode] returns. *)
Lemma fs_find_inode_result (fs : FileSystem) (nm : list byte) :
  (fs_find_inode fs nm = -1 ∨ 0 ≤ fs_find_inode fs nm < MAX_INODES) ∧
  (fs_find_inode fs nm = -1 ↔ ∀ j, ¬ holds_name fs j nm) ∧
  (fs_find_inode fs nm ≠ -1 →
     holds_name fs (fs_find_inode fs nm) nm ∧
     ∀ j, j < fs_find_inode fs nm → ¬ holds_name fs j nm) ∧
  (strlen nm = 0 → fs_find_inode fs nm = -1).
Proof.
  split_and!.
  - destruct (fs_find_inode_cases fs nm) as [[Hr _] | [[Hr _] _]]; [by left | by right].
  - apply fs_find_inode_none.
  - apply fs_find_inode_found.
  - intros Hlen. apply fs_find_inode_none.
    intros j (_ & ino & _ & Hu & Hnm).
    apply in_use_head in Hu as (c & Hc & Hc0).
    unfold strlen in Hlen. rewrite <- Hnm in Hlen.
    destruct (name ino) as [|c' t]; [done |]. injection Hc as ->.
    cbn [cstr] in Hlen. rewrite decide_False in Hlen by done.
    cbn [length] in Hlen. lia.
Qed.


(** ** create *)

(** X4. With every slot of the table in use, [fs_create_file] changes
    nothing: it reports "already exists" when the name is found, since that
    test comes first, and "no free inodes" otherwise. *)
Theorem fs_create_file_table_full (fs : FileSystem) (nm : list byte) (now : Z) :
  Forall (λ ino, in_use ino = true) (inodes fs) →
  fs_create_file fs nm now =
    (fs, inl (if decide (fs_find_inode fs nm = -1)
              then NoFreeInode else AlreadyExists)).
Proof.
  intros Hall. unfold fs_create_file.
  destruct (decide (fs_find_inode fs nm = -1)) as [Hnone | Hsome].
  - rewrite decide_False by (rewrite Hnone; lia).
    pose proof (first_free_cases fs) as Hc. cbv zeta in Hc.
    destruct Hc as [[-> _] | [(_ & ino & Hino & Hu) _]].
    + rewrite decide_True by done. done.
    + exfalso. unfold inode_at in Hino. case_decide; [| done].
      pose proof (Forall_lookup_1 _ _ _ _ Hall Hino) as Hu'. cbv beta in Hu'.
      congruence.
  - rewrite decide_True by done. done.
Qed.

(** What a successful [fs_create_file] returns. *)
Lemma fs_create_file_ok (fs fs' : FileSystem) (nm : list byte) (now k : Z) :
  fs_create_file fs nm now = (fs', inr k) →
  (∀ j, ¬ holds_name fs j nm) ∧
  free_slot fs k ∧ (∀ j, j < k → ¬ free_slot fs j) ∧
  fs' = flush_inodes
          (set_inodes fs
             (alter (λ ino, {| name := strncpy nm MAX_FILENAME; size := 0;
                               blocks := replicate (length (blocks ino)) SENTINEL;
                               created := now; modified := now |})
                    (Z.to_nat k) (inodes fs))).
Proof.
  intros Hc. unfold fs_create_file in Hc.
  destruct (decide (fs_find_inode fs nm ≠ -1)) as [| Hnone]; [done |].
  assert (Hnew : ∀ j, ¬ holds_name fs j nm).
  { apply fs_find_inode_none. lia. }
  pose proof (first_free_cases fs) as Hf. cbv zeta in Hf.
  destruct Hf as [[Hr _] | [Hk Hmin]].
  - rewrite Hr in Hc. rewrite decide_True in Hc by done. done.
  - destruct (decide (_ = -1)) as [| Hne] in Hc; [done |].
    injection Hc as <- <-.
    split; [exact Hnew |]. split; [exact Hk |]. split; [exact Hmin | reflexivity].
Qed.

(** What a successful [fs_create_file] changes. *)
Lemma fs_create_file_frame (fs fs' : FileSystem) (nm : list byte) (now k : Z) :
  fs_create_file fs nm now = (fs', inr k) →
  (∀ j, ¬ holds_name fs j nm) ∧
  free_slot fs k ∧ (∀ j, j < k → ¬ free_slot fs j) ∧
  super fs' = super fs ∧ bitmap fs' = bitmap fs ∧
  (∀ j, j ≠ k → inode_at fs' j = inode_at fs j) ∧
  ∃ ino, inode_at fs k = Some ino ∧
         inode_at fs' k =
           Some {| name := strncpy nm MAX_FILENAME; size := 0;
                   blocks := replicate (length (blocks ino)) SENTINEL;
                   created := now; modified := now |}.
Proof.
  intros Hc. apply fs_create_file_ok in Hc as (Hnew & Hk & Hmin & ->).
  pose proof Hk as [Hkr (ino & Hino & _)].
  split_and!; try done.
  - intros j Hj. rewrite inode_at_flush_inodes, inode_at_alter by lia.
    by rewrite decide_False.
  - exists ino. split; [done |].
    rewrite inode_at_flush_inodes, inode_at_alter by lia.
    rewrite decide_True by done. by rewrite Hino.
Qed.


(** The slot a create filled holds the name, when the name has 1 to 31
    bytes. *)
Lemma fs_create_file_holds (fs fs' : FileSystem) (nm : list byte) (now k : Z) :
  0 < strlen nm < MAX_FILENAME →
  fs_create_file fs nm now = (fs', inr k) →
  holds_name fs' k nm ∧ ∀ j, j ≠ k → ¬ holds_name fs' j nm.
Proof.
  intros [Hpos Hshort] Hc.
  apply fs_create_file_frame in Hc
    as (Hnew & [Hkr _] & _ & _ & _ & Hother & ino & Hino & Hino').
  split.
  - split; [done |]. eexists. split; [exact Hino' |]. cbn [name].
    split; [| by apply cstr_strncpy].
    apply in_use_head. cbn [name]. rewrite strncpy_head by done.
    destruct (cstr_head_nonempty nm Hpos) as (c & Hc & Hc0).
    exists c. by rewrite Hc.
  - intros j Hj Hh. apply (Hnew j).
    apply (holds_name_ext fs fs' j nm (Hother j Hj)). exact Hh.
Qed.

(** X6. Creating the same name twice: after a successful create of a name
    of 1 to 31 bytes, the lookup gives the slot the create returned, and a
    second create of that name reports "already exists" and changes
    nothing. *)
Theorem fs_create_file_twice (fs fs' : FileSystem) (nm : list byte)
    (now now' k : Z) :
  0 < strlen nm < MAX_FILENAME →
  fs_create_file fs nm now = (fs', inr k) →
  fs_find_inode fs' nm = k ∧
  fs_create_file fs' nm now' = (fs', inl AlreadyExists).
Proof.
  intros Hnm Hc. destruct (fs_create_file_holds _ _ _ _ _ Hnm Hc) as [Hk Hother].
  assert (Hfind : fs_find_inode fs' nm = k).
  { apply fs_find_inode_first; [done |]. intros j Hj. apply Hother. lia. }
  split; [done |]. unfold fs_create_file.
  rewrite decide_True; [done |]. rewrite Hfind. destruct Hk as [Hkr _]. lia.
Qed.

(** X7. The empty name is accepted by [fs_create_file]: with a free slot in
    the table the call succeeds and returns the lowest free slot, but the
    name it stores starts with NUL, so the slot is still free afterwards,
    still the lowest free one, and the lookup of the name still fails. *)
Theorem fs_create_file_empty_name (fs : FileSystem) (nm : list byte) (now : Z) :
  strlen nm = 0 →
  (∃ j, free_slot fs j) →
  ∃ fs' k,
    fs_create_file fs nm now = (fs', inr k) ∧
    free_slot fs' k ∧ (∀ j, j < k → ¬ free_slot fs' j) ∧
    fs_find_inode fs' nm = -1.
Proof.
  intros Hlen [j0 Hfree0].
  assert (Hnone : ∀ fs0, fs_find_inode fs0 nm = -1).
  { intros fs0. by apply fs_find_inode_result. }
  pose proof (first_free_cases fs) as Hf. cbv zeta in Hf.
  destruct Hf as [[_ Hall] | [Hk Hmin]]; [by apply Hall in Hfree0 |].
  set (k := first_from _ 0 _) in Hk, Hmin.
  eexists _, k. split.
  { apply fs_create_file_fresh; [| done | done].
    apply fs_find_inode_none, Hnone. }
  pose proof Hk as [Hkr (ino & Hino & Hu)].
  split_and!.
  - split; [done |]. eexists. split.
    + rewrite inode_at_flush_inodes, inode_at_alter by lia.
      rewrite decide_True by done. rewrite Hino. reflexivity.
    + unfold in_use. cbn [name]. unfold strncpy.
      unfold strlen in Hlen. destruct (cstr nm); [| done]. reflexivity.
  - intros j Hj [Hjr (ino' & Hino' & Hu')]. apply (Hmin j Hj).
    split; [done |]. exists ino'. split; [| done].
    rewrite inode_at_flush_inodes, inode_at_alter in Hino' by lia.
    rewrite decide_False in Hino' by lia. done.
  - apply Hnone.
Qed.

(** ** write: refusals *)


(** ** write: what a successful call touches *)



(** ** write: rewriting in place *)

(** The allocation loop over entries that all hold a block returns the state
    it was given. *)
Lemma alloc_blocks_filled (fs : FileSystem) (k : Z) (ino : Inode) (n : nat) (i : Z) :
  inode_at fs k = Some ino →
  (∀ j, i ≤ j < i + Z.of_nat n → block_at ino j ≠ Some SENTINEL) →
  alloc_blocks fs k i n = (fs, true).
Proof.
  intros Hino. revert i. induction n as [|n IH]; intros i Hfilled; [done |].
  cbn [alloc_blocks]. rewrite Hino. cbn [mbind option_bind].
  destruct (block_at ino i) as [b|] eqn:Hb.
  - rewrite decide_False.
    + apply IH. intros j Hj. apply Hfilled. lia.
    + intros ->. apply (Hfilled i); [lia | done].
  - apply IH. intros j Hj. apply Hfilled. lia.
Qed.

(** X10. Rewriting in place needs no free block: when the inode already
    holds a block at every ordinal the new data reaches, [fs_write_file]
    succeeds, whatever the bitmap holds, and leaves the bitmap, the
    superblock (so [free_blocks]) and the [blocks] of the inode as they
    were; only [size] and [modified] change. Data of length 0 is the case
    where no ordinal is reached. *)
Theorem fs_write_file_in_place (fs : FileSystem) (nm data : list byte) (now : Z)
    (ino : Inode) :
  fs_find_inode fs nm ≠ -1 →
  inode_at fs (fs_find_inode fs nm) = Some ino →
  strlen data ≤ MAX_FILE_SIZE →
  (∀ j, 0 ≤ j < ceil_div_block (strlen data) →
        ∃ b, block_at ino j = Some b ∧ b ≠ SENTINEL) →
  ∃ fs', fs_write_file fs nm data now = (fs', inr 0) ∧
         super fs' = super fs ∧ bitmap fs' = bitmap fs ∧
         inode_at fs' (fs_find_inode fs nm) =
           Some (set_size_modified ino (strlen data) now).
Proof.
  intros Hk Hino Hlen Hfilled.
  assert (Hdl : wrap_int (strlen data) = strlen data).
  { apply wrap_int_id.
    unfold strlen, INT_MIN, INT_MAX, MAX_FILE_SIZE, BLOCK_SIZE in *. lia. }
  destruct (fs_find_inode_found fs nm Hk) as [[Hkr _] _].
  set (k := fs_find_inode fs nm) in *.
  set (n := Z.to_nat ((wrap_int (strlen data) + BLOCK_SIZE - 1) `quot` BLOCK_SIZE)).
  assert (Halloc : alloc_blocks fs k 0 n = (fs, true)).
  { apply (alloc_blocks_filled fs k ino); [done |]. intros j Hj Hs.
    unfold n in Hj. rewrite Hdl, blocks_needed_ceil in Hj.
    pose proof (ceil_div_block_spec (strlen data)) as Hceil.
    assert (0 ≤ ceil_div_block (strlen data))
      by (unfold strlen, BLOCK_SIZE in *; lia).
    rewrite Z2Nat.id in Hj by lia.
    destruct (Hfilled j ltac:(lia)) as (b & Hb & Hne). congruence. }
  exists (written fs k data now). split.
  { unfold fs_write_file, written. fold k. rewrite decide_False by done.
    rewrite decide_False by lia. fold n. rewrite Halloc. reflexivity. }
  destruct (written_frame fs k data now) as (Hs & Hb & _). cbv zeta in Hs, Hb.
  fold n in Hs, Hb. rewrite Halloc in Hs, Hb. cbn [fst] in Hs, Hb.
  split; [exact Hs |]. split; [exact Hb |].
  pose proof (inode_at_written fs k data now k ltac:(lia)) as Hat.
  cbv zeta in Hat. fold n in Hat. rewrite Halloc in Hat. cbn [fst] in Hat.
  rewrite Hat, decide_True by done. rewrite Hino, Hdl. reflexivity.
Qed.

(** ** The counter and the bitmap *)

Lemma filter_length_split {A} (P : A → Prop) `{∀ x, Decision (P x)} (l : list A) :
  (length (filter P l) + length (filter (λ x, ¬ P x) l))%nat = length l.
Proof.
  induction l as [|x l IH]; [done |].
  rewrite !filter_cons. destruct (decide (P x)) as [Hp | Hp].
  - rewrite decide_False by tauto. cbn [length]. lia.
  - rewrite decide_True by done. cbn [length]. lia.
Qed.

Lemma count_used_app (l1 l2 : list byte) :
  count_used (l1 ++ l2) = count_used l1 + count_used l2.
Proof.
  induction l1 as [|c l1 IH]; [reflexivity |].
  rewrite <- app_comm_cons, !count_used_cons, IH. lia.
Qed.

Lemma filter_zero_nil (l : list byte) :
  filter (λ b, b = x00) l = [] ↔ x00 ∉ l.
Proof.
  split.
  - intros Hnil. by eapply filter_nil_not_elem_of.
  - intros Hnot. destruct (filter (λ b, b = x00) l) as [|y t] eqn:Hf; [done |].
    exfalso. assert (Hy : y ∈ filter (λ b, b = x00) l) by (rewrite Hf; left).
    apply list_elem_of_filter in Hy as [-> Hy]. done.
Qed.

Lemma count_used_zeros (l : list byte) :
  count_used l + Z.of_nat (length (filter (λ b, b = x00) l)) = Z.of_nat (length l).
Proof.
  unfold count_used.
  assert (Hs : (length (filter (λ b : byte, b = x00) l) +
                length (filter (λ b : byte, b ≠ x00) l))%nat = length l)
    by apply (filter_length_split (λ b : byte, b = x00) l).
  lia.
Qed.

(** The head of the bitmap when the metadata bits are as format leaves them
    and the data region starts at block 5. *)
Lemma metadata_bits_take (fs : FileSystem) :
  metadata_bits fs → data_start (super fs) = 5 →
  take 5 (bitmap fs) = [x01; x00; x00; x00; x00].
Proof.
  intros [H0 Hrest] Hds. rewrite Hds in Hrest.
  pose proof (Hrest 1 ltac:(lia)) as H1. pose proof (Hrest 2 ltac:(lia)) as H2.
  pose proof (Hrest 3 ltac:(lia)) as H3. pose proof (Hrest 4 ltac:(lia)) as H4.
  clear Hrest. unfold bitmap_at in *.
  rewrite decide_True in H0 by lia. rewrite decide_True in H1 by lia.
  rewrite decide_True in H2 by lia. rewrite decide_True in H3 by lia.
  rewrite decide_True in H4 by lia.
  change (Z.to_nat 0) with 0%nat in H0. change (Z.to_nat 1) with 1%nat in H1.
  change (Z.to_nat 2) with 2%nat in H2. change (Z.to_nat 3) with 3%nat in H3.
  change (Z.to_nat 4) with 4%nat in H4.
  destruct (bitmap fs) as [|a0 [|a1 [|a2 [|a3 [|a4 l]]]]]; try done.
  cbn in *. rewrite take_0. congruence.
Qed.

Lemma free_blocks_data (fs : FileSystem) :
  fs_inv fs → metadata_bits fs →
  free_blocks (super fs) = free_data_blocks fs + 4.
Proof.
  intros Hinv Hmeta.
  destruct (inv_layout _ Hinv) as (_ & _ & _ & _ & Hds).
  destruct (inv_shape _ Hinv) as (_ & _ & Hlen & _).
  rewrite (inv_count _ Hinv). unfold free_data_blocks. rewrite Hds.
  change (Z.to_nat 5) with 5%nat.
  pose proof (count_used_zeros (drop 5 (bitmap fs))) as Hz.
  rewrite length_drop, Hlen in Hz.
  rewrite <- (take_drop 5 (bitmap fs)) at 1.
  rewrite count_used_app, (metadata_bits_take fs Hmeta Hds).
  change (count_used [x01; x00; x00; x00; x00]) with 1.
  change (Z.to_nat TOTAL_BLOCKS) with 1024%nat in Hz. unfold TOTAL_BLOCKS. lia.
Qed.

Lemma get_free_block_none (fs : FileSystem) :
  fs_inv fs → (get_free_block fs = -1 ↔ free_data_blocks fs = 0).
Proof.
  intros Hinv.
  destruct (inv_layout _ Hinv) as (Htb & _ & _ & _ & Hds).
  destruct (inv_shape _ Hinv) as (_ & _ & Hlen & _).
  unfold free_data_blocks. rewrite Hds. change (Z.to_nat 5) with 5%nat.
  pose proof (get_free_block_spec fs) as Hs. cbv zeta in Hs.
  rewrite Hds, Htb in Hs.
  assert (Hiff : (∀ k, 5 ≤ k < TOTAL_BLOCKS → bitmap_at fs k ≠ Some x00) ↔
                 filter (λ b, b = x00) (drop 5 (bitmap fs)) = []).
  { rewrite filter_zero_nil. split.
    - intros Hall Hx.
      apply list_elem_of_lookup in Hx as [i Hi]. rewrite lookup_drop in Hi.
      apply (Hall (Z.of_nat (5 + i))).
      + apply lookup_lt_Some in Hi. rewrite Hlen in Hi.
        change (Z.to_nat TOTAL_BLOCKS) with 1024%nat in Hi. unfold TOTAL_BLOCKS. lia.
      + unfold bitmap_at. rewrite decide_True by lia. by rewrite Nat2Z.id.
    - intros Hnot k Hk Hfree. apply Hnot.
      apply list_elem_of_lookup. exists (Z.to_nat k - 5)%nat.
      rewrite lookup_drop. unfold bitmap_at in Hfree.
      rewrite decide_True in Hfree by lia.
      replace (5 + (Z.to_nat k - 5))%nat with (Z.to_nat k) by lia. done. }
  split.
  - intros Hr. destruct Hs as [[_ Hall] | (Hne & _)]; [| done].
    destruct Hiff as [Hforth _]. by rewrite (Hforth Hall).
  - intros Hz. destruct Hs as [[Hr _] | (_ & Hrange & Hfree & _)]; [done |].
    exfalso. assert (Hnil : filter (λ b, b = x00) (drop 5 (bitmap fs)) = []).
    { destruct (filter _ _); [done | cbn [length] in Hz; lia]. }
    destruct Hiff as [_ Hback]. by apply (Hback Hnil (get_free_block fs)).
Qed.

(** The bits before the data region along the operations. *)
Lemma bitmap_at_alloc_step_other (fs : FileSystem) (k i b c : Z) :
  c ≠ b → bitmap_at (alloc_step fs k i b) c = bitmap_at fs c.
Proof.
  intros Hc. unfold alloc_step.
  change (bitmap_at (flush_super (flush_bitmap (set_super ?f ?s))) c)
    with (bitmap_at f c).
  destruct (set_block_bounds (assign_block fs k i b) b 1 c)
    as (_ & _ & _ & _ & _ & ->).
  rewrite decide_False by (intros [? _]; done). reflexivity.
Qed.

Lemma metadata_bits_alloc_blocks (fs : FileSystem) (k : Z) (n : nat) (i : Z) :
  metadata_bits fs → metadata_bits (alloc_blocks fs k i n).1.
Proof.
  intros Hmeta.
  pose proof (alloc_blocks_loop (λ _ fs', metadata_bits fs') k) as Hloop.
  cbv beta in Hloop.
  assert (Hfin : if (alloc_blocks fs k i n).2
                 then metadata_bits (alloc_blocks fs k i n).1
                 else ∃ j, i ≤ j < i + Z.of_nat n ∧
                           metadata_bits (alloc_blocks fs k i n).1 ∧
                           inode_at (alloc_blocks fs k i n).1 k
                             ≫= (λ ino, block_at ino j) = Some SENTINEL ∧
                           get_free_block (alloc_blocks fs k i n).1 = -1).
  { apply Hloop; [done | done | | done].
    clear. intros i fs [H0 Hrest] _ Hne.
    pose proof (get_free_block_spec fs) as Hs. cbv zeta in Hs.
    destruct Hs as [[Hr _] | (_ & Hrange & Hfree & _)]; [done |].
    split.
    - rewrite bitmap_at_alloc_step_other; [done |].
      intros Hz. rewrite <- Hz in Hfree. congruence.
    - intros b Hb. rewrite alloc_step_super in Hb. cbn [data_start set_free_blocks] in Hb.
      rewrite bitmap_at_alloc_step_other by lia. by apply Hrest. }
  destruct (alloc_blocks fs k i n).2; [done |].
  by destruct Hfin as (j & _ & Hm & _).
Qed.

Lemma fs_create_file_bitmap (fs : FileSystem) (nm : list byte) (now : Z) :
  bitmap (fs_create_file fs nm now).1 = bitmap fs.
Proof.
  unfold fs_create_file. case_decide; [done |]. case_decide; done.
Qed.

Lemma metadata_bits_ext (fs fs' : FileSystem) :
  super fs' = super fs → bitmap fs' = bitmap fs →
  metadata_bits fs → metadata_bits fs'.
Proof.
  intros Hs Hb. unfold metadata_bits, bitmap_at. by rewrite Hs, Hb.
Qed.

Lemma metadata_bits_step (fs : FileSystem) (o : op) :
  metadata_bits fs → metadata_bits (step fs o).
Proof.
  intros Hmeta. destruct o as [nm now | nm data now | nm |]; cbn [step].
  - revert Hmeta. apply metadata_bits_ext;
      [apply fs_create_file_super | apply fs_create_file_bitmap].
  - pose proof (fs_write_file_cases fs nm data now) as Hc. cbv zeta in Hc.
    destruct Hc as [-> | [-> | [[_ ->] | [_ ->]]]]; cbn [fst]; try done.
    + by apply metadata_bits_alloc_blocks.
    + destruct (written_frame fs (fs_find_inode fs nm) data now) as (Hs & Hb & _).
      cbv zeta in Hs, Hb.
      eapply metadata_bits_ext; [exact Hs | exact Hb |].
      by apply metadata_bits_alloc_blocks.
  - destruct (fs_read_file_frame fs nm) as (Hs & _ & Hb).
    by eapply metadata_bits_ext.
  - done.
Qed.

Lemma metadata_bits_format (f0 : FILE) : metadata_bits (fs_format f0).
Proof.
  destruct (inv_layout _ (fs_inv_format f0)) as (_ & _ & _ & _ & Hds).
  unfold metadata_bits. rewrite Hds. unfold bitmap_at. rewrite format_bitmap.
  split.
  - rewrite decide_True by lia. reflexivity.
  - intros b Hb. rewrite decide_True by lia.
    destruct (Z.to_nat b) as [|m] eqn:Hm; [lia |].
    change ((x01 :: replicate (Z.to_nat TOTAL_BLOCKS - 1) x00) !! S m)
      with (replicate (Z.to_nat TOTAL_BLOCKS - 1) x00 !! m).
    apply lookup_replicate_2. change (Z.to_nat TOTAL_BLOCKS) with 1024%nat. lia.
Qed.

Lemma metadata_bits_session (f0 : FILE) (ops : list op) :
  metadata_bits (run (fs_format f0) ops).
Proof.
  unfold run. induction ops as [|o ops IH] using rev_ind.
  - apply metadata_bits_format.
  - rewrite foldl_app. cbn [foldl]. by apply metadata_bits_step.
Qed.

(** X11. Along a session started from a formatted image the counter
    [free_blocks] is the number of free blocks of the data region plus 4: the
    four blocks of the inode table and the bitmap are counted as free and
    never handed out. So the counter never goes below 4, and
    [get_free_block] returns -1 exactly when the counter reads 4. *)
Theorem free_blocks_counts_metadata (f0 : FILE) (ops : list op) :
  let fs := run (fs_format f0) ops in
  free_blocks (super fs) = free_data_blocks fs + 4 ∧
  4 ≤ free_blocks (super fs) ∧
  (get_free_block fs = -1 ↔ free_blocks (super fs) = 4).
Proof.
  intros fs.
  pose proof (fs_inv_session f0 ops) as Hinv. fold fs in Hinv.
  pose proof (metadata_bits_session f0 ops) as Hmeta. fold fs in Hmeta.
  pose proof (free_blocks_data fs Hinv Hmeta) as Hfree.
  split; [done |]. split.
  - unfold free_data_blocks in Hfree. lia.
  - rewrite (get_free_block_none fs Hinv). lia.
Qed.

(** ** write: when it succeeds *)

Lemma alloc_blocks_enough (fs : FileSystem) (k : Z) (ino : Inode) (n : nat) :
  fs_inv fs → metadata_bits fs →
  inode_at fs k = Some ino → in_use ino = true →
  Z.of_nat n + 4 ≤ free_blocks (super fs) →
  (alloc_blocks fs k 0 n).2 = true.
Proof.
  intros Hinv Hmeta Hino Hu Hfree.
  set (P := λ (i : Z) (fs' : FileSystem),
         0 ≤ i ∧ fs_inv fs' ∧ metadata_bits fs' ∧
         (∃ ino', inode_at fs' k = Some ino' ∧ in_use ino' = true ∧
                  ∀ j b, 0 ≤ j < i → block_at ino' j = Some b → b ≠ SENTINEL) ∧
         Z.of_nat n - i + 4 ≤ free_blocks (super fs')).
  assert (Hk : 0 ≤ k).
  { destruct (inode_at_shape fs k ino (inv_shape _ Hinv) Hino). lia. }
  pose proof (alloc_blocks_loop P k) as Hloop.
  assert (Hfin : if (alloc_blocks fs k 0 n).2
                 then P (0 + Z.of_nat n) (alloc_blocks fs k 0 n).1
                 else ∃ j, 0 ≤ j < 0 + Z.of_nat n ∧
                           P j (alloc_blocks fs k 0 n).1 ∧
                           inode_at (alloc_blocks fs k 0 n).1 k
                             ≫= (λ ino, block_at ino j) = Some SENTINEL ∧
                           get_free_block (alloc_blocks fs k 0 n).1 = -1).
  { apply Hloop; clear Hloop.
    - intros i fs' b (Hi & Hinv' & Hmeta' & (ino' & Hino' & Hu' & Hpre) & Hf') Hb Hne.
      split; [lia |]. split; [done |]. split; [done |]. split; [| lia].
      exists ino'. split; [done |]. split; [done |].
      intros j b' Hj Hb'. destruct (decide (j = i)) as [-> | Hji].
      + rewrite Hino' in Hb. cbn in Hb. congruence.
      + apply (Hpre j); [lia | done].
    - intros i fs' (Hi & Hinv' & Hmeta' & (ino' & Hino' & Hu' & Hpre) & Hf') Hb.
      split; [lia |]. split; [done |]. split; [done |]. split; [| lia].
      exists ino'. split; [done |]. split; [done |].
      intros j b' Hj Hb'. destruct (decide (j = i)) as [-> | Hji].
      + rewrite Hino' in Hb. cbn in Hb. congruence.
      + apply (Hpre j); [lia | done].
    - intros i fs' (Hi & Hinv' & Hmeta' & (ino' & Hino' & Hu' & Hpre) & Hf') Hb Hne.
      rewrite Hino' in Hb. cbn [mbind option_bind] in Hb.
      split; [lia |]. split.
      { by apply (fs_inv_alloc_step fs' k i ino'). }
      split.
      { pose proof (metadata_bits_alloc_blocks fs' k 1 i Hmeta') as Hm.
        cbn [alloc_blocks] in Hm. rewrite Hino' in Hm. cbn [mbind option_bind] in Hm.
        rewrite Hb in Hm. rewrite decide_True in Hm by done.
        rewrite decide_False in Hm by done. exact Hm. }
      split.
      + exists (set_blocks ino' (<[Z.to_nat i := get_free_block fs']> (blocks ino'))).
        split; [by rewrite inode_at_alloc_step, decide_True, Hino' by done |].
        split; [by rewrite in_use_set_blocks |].
        intros j b' Hj Hb'. rewrite block_at_set_blocks in Hb' by done.
        destruct (decide (j = i)) as [-> | Hji].
        * rewrite Hb in Hb'. cbn in Hb'. injection Hb' as <-. exact Hne.
        * apply (Hpre j); [lia | done].
      + rewrite alloc_step_super. cbn [free_blocks set_free_blocks].
        pose proof (fs_inv_free_range fs' Hinv') as Hr.
        rewrite wrap_int_id by (unfold INT_MIN, INT_MAX, TOTAL_BLOCKS in *; lia).
        lia.
    - unfold P. split; [lia |]. split; [done |]. split; [done |]. split; [| lia].
      exists ino. split; [done |]. split; [done |]. intros j b Hj. lia. }
  destruct (alloc_blocks fs k 0 n).2; [done |].
  destruct Hfin as (j & Hj & (_ & Hinv' & Hmeta' & _ & Hf') & _ & Hnone).
  exfalso. apply (get_free_block_none _ Hinv') in Hnone.
  pose proof (free_blocks_data _ Hinv' Hmeta') as Hd. lia.
Qed.

(** X12. A write that the image has room for succeeds: in a session started
    from a formatted image, [fs_write_file] on a name that is found, with
    data of at most MAX_FILE_SIZE bytes (that bound included), returns 0
    whenever [free_blocks] is at least the number of blocks the data needs
    plus 4. *)
Theorem fs_write_file_succeeds (f0 : FILE) (ops : list op) (nm data : list byte)
    (now : Z) :
  let fs := run (fs_format f0) ops in
  fs_find_inode fs nm ≠ -1 →
  strlen data ≤ MAX_FILE_SIZE →
  ceil_div_block (strlen data) + 4 ≤ free_blocks (super fs) →
  ∃ fs', fs_write_file fs nm data now = (fs', inr 0).
Proof.
  intros fs Hk Hlen Hfree.
  pose proof (fs_inv_session f0 ops) as Hinv. fold fs in Hinv.
  pose proof (metadata_bits_session f0 ops) as Hmeta. fold fs in Hmeta.
  assert (Hdl : wrap_int (strlen data) = strlen data).
  { apply wrap_int_id.
    unfold strlen, INT_MIN, INT_MAX, MAX_FILE_SIZE, BLOCK_SIZE in *. lia. }
  clearbody fs.
  destruct (fs_find_inode_found fs nm Hk) as [[Hkr (ino & Hino & Hu & _)] _].
  set (n := Z.to_nat ((wrap_int (strlen data) + BLOCK_SIZE - 1) `quot` BLOCK_SIZE)).
  assert (Hok : (alloc_blocks fs (fs_find_inode fs nm) 0 n).2 = true).
  { apply (alloc_blocks_enough fs _ ino); [done | done | done | done |].
    unfold n. rewrite Hdl, blocks_needed_ceil.
    pose proof (ceil_div_block_spec (strlen data)) as Hceil.
    assert (0 ≤ ceil_div_block (strlen data))
      by (unfold strlen, BLOCK_SIZE in *; lia).
    rewrite Z2Nat.id by lia. lia. }
  unfold fs_write_file. rewrite decide_False by exact Hk.
  rewrite decide_False by lia. fold n.
  destruct (alloc_blocks fs (fs_find_inode fs nm) 0 n) as [fs1 ok].
  cbn [snd] in Hok. subst ok. eexists. reflexivity.
Qed.

(** ** read *)

Lemma read_blocks_image (f : FILE) (ino : Inode) (acc : list byte)
    (bytes_read i : Z) (n : nat) :
  content (read_blocks f ino acc bytes_read i n).2 = content f.
Proof.
  revert f acc bytes_read i. induction n as [|n IH]; intros f acc br i; [done |].
  cbn [read_blocks]. case_decide; [| done].
  destruct (block_at ino i) as [b|]; [| done].
  case_decide; [done |].
  unfold fread. cbn [fst snd]. rewrite IH. cbn [content]. apply content_fseek.
Qed.

(** What [fs_read_file] leaves. *)
Lemma fs_read_file_only_reads (fs : FileSystem) (nm : list byte) :
  super (fs_read_file fs nm).1 = super fs ∧
  inodes (fs_read_file fs nm).1 = inodes fs ∧
  bitmap (fs_read_file fs nm).1 = bitmap fs ∧
  content (fp (fs_read_file fs nm).1) = content (fp fs) ∧
  ((∀ j, ¬ holds_name fs j nm) → fs_read_file fs nm = (fs, inl NotFound)) ∧
  (∀ ino, fs_find_inode fs nm ≠ -1 →
          inode_at fs (fs_find_inode fs nm) = Some ino → size ino = 0 →
          fs_read_file fs nm = (fs, inr [])).
Proof.
  destruct (fs_read_file_frame fs nm) as (Hs & Hi & Hb).
  split; [exact Hs |]. split; [exact Hi |]. split; [exact Hb |]. split_and!.
  - unfold fs_read_file. case_decide; [done |].
    destruct (inode_at fs _) as [ino|]; [| done].
    case_decide; [done |].
    pose proof (read_blocks_image (fp fs) ino [] 0 0 (Z.to_nat NBLOCKS)) as Hc.
    destruct (read_blocks (fp fs) ino [] 0 0 (Z.to_nat NBLOCKS)) as [d f].
    exact Hc.
  - intros Hnone. apply fs_find_inode_none in Hnone.
    unfold fs_read_file. rewrite decide_True by exact Hnone. reflexivity.
  - intros ino Hk Hino Hz. unfold fs_read_file.
    rewrite decide_False by exact Hk. rewrite Hino.
    rewrite decide_True by exact Hz. reflexivity.
Qed.


(** The read loop on two images and two inodes that agree on the blocks the
    size reaches into. *)
Lemma read_blocks_agree (f f' : FILE) (ino ino' : Inode) (acc : list byte)
    (n : nat) (i : Z) :
  0 ≤ i → size ino' = size ino →
  (∀ j, i ≤ j → j * BLOCK_SIZE < size ino →
        ∃ b, block_at ino j = Some b ∧ block_at ino' j = Some b ∧
             b ≠ SENTINEL ∧ 0 ≤ b < TOTAL_BLOCKS ∧
             block_content f' b = block_content f b) →
  (read_blocks f' ino' acc (Z.min (i * BLOCK_SIZE) (size ino)) i n).1 =
  (read_blocks f ino acc (Z.min (i * BLOCK_SIZE) (size ino)) i n).1.
Proof.
  revert f f' acc i. induction n as [|n IH]; intros f f' acc i Hi Hsz Hblk; [done |].
  cbn [read_blocks]. rewrite Hsz.
  destruct (decide (Z.min (i * BLOCK_SIZE) (size ino) < size ino)) as [Hlt | Hge];
    [| done].
  assert (Hi' : i * BLOCK_SIZE < size ino ∧
                Z.min (i * BLOCK_SIZE) (size ino) = i * BLOCK_SIZE) by lia.
  destruct Hi' as [Hil Hmin]. rewrite Hmin.
  destruct (Hblk i ltac:(lia) Hil) as (b & Hb & Hb' & Hbne & Hbr & Hcont).
  rewrite Hb, Hb'. rewrite !(decide_False (P := b = SENTINEL)) by done.
  destruct (fread_block f b Hbr) as [Hbuf Hsame].
  destruct (fread_block f' b Hbr) as [Hbuf' Hsame'].
  destruct (fread (fseek f (wrap_int (b * BLOCK_SIZE))) BLOCK_SIZE) as [buffer f1].
  destruct (fread (fseek f' (wrap_int (b * BLOCK_SIZE))) BLOCK_SIZE) as [buffer' f1'].
  cbn [fst snd] in Hbuf, Hsame, Hbuf', Hsame'. subst buffer buffer'.
  rewrite Hcont.
  set (c := if decide (size ino - i * BLOCK_SIZE > BLOCK_SIZE)
            then BLOCK_SIZE else size ino - i * BLOCK_SIZE).
  replace (i * BLOCK_SIZE + c) with (Z.min ((i + 1) * BLOCK_SIZE) (size ino))
    by (unfold c, BLOCK_SIZE in *; case_decide; lia).
  apply IH; [lia | done |].
  intros j Hj Hjl.
  destruct (Hblk j ltac:(lia) Hjl) as (b1 & Hb1 & Hb1' & Hbne1 & Hbr1 & Hcont1).
  exists b1. split; [done |]. split; [done |]. split; [done |]. split; [done |].
  transitivity (block_content f' b1).
  { apply block_content_ext. intros a _. by rewrite Hsame'. }
  rewrite Hcont1. symmetry.
  apply block_content_ext. intros a _. by rewrite Hsame.
Qed.

Lemma fs_read_file_agree (fs fs' : FileSystem) (nm : list byte) :
  fs_find_inode fs' nm = fs_find_inode fs nm →
  fs_find_inode fs nm ≠ -1 →
  same_file fs fs' (fs_find_inode fs nm) →
  (fs_read_file fs' nm).2 = (fs_read_file fs nm).2.
Proof.
  intros Hfind Hk (ino & ino' & Hino & Hino' & Hsz & Hblk).
  unfold fs_read_file. rewrite Hfind. rewrite !decide_False by exact Hk.
  rewrite Hino, Hino', Hsz.
  destruct (decide (size ino = 0)) as [| Hnz]; [done |].
  destruct (decide (0 < size ino)) as [Hpos | Hneg].
  - pose proof (read_blocks_agree (fp fs) (fp fs') ino ino' [] (Z.to_nat NBLOCKS) 0
                  ltac:(lia) Hsz) as Hrd.
    replace (Z.min (0 * BLOCK_SIZE) (size ino)) with 0 in Hrd by lia.
    specialize (Hrd ltac:(intros j Hj Hjl; apply Hblk; [lia | done])).
    destruct (read_blocks (fp fs') ino' [] 0 0 (Z.to_nat NBLOCKS)) as [d' f'].
    destruct (read_blocks (fp fs) ino [] 0 0 (Z.to_nat NBLOCKS)) as [d f].
    cbn [fst snd] in *. by rewrite Hrd.
  - rewrite !read_blocks_done by lia. reflexivity.
Qed.

(** The blocks of a file in a state that satisfies the invariant. *)
Lemma file_blocks (fs : FileSystem) (k : Z) (ino : Inode) :
  fs_inv fs → inode_at fs k = Some ino → in_use ino = true →
  ∀ j, 0 ≤ j → j * BLOCK_SIZE < size ino →
       ∃ b, block_at ino j = Some b ∧ b ≠ SENTINEL ∧ 5 ≤ b < TOTAL_BLOCKS.
Proof.
  intros Hinv Hino Hu j Hj Hjl.
  destruct (inv_size fs Hinv k ino Hino j Hj Hjl) as (b & Hb & Hbne).
  exists b. split; [done |]. split; [done |].
  destruct (inv_layout _ Hinv) as (Htb & _ & _ & _ & Hds).
  pose proof (inv_region _ Hinv k j b) as Hreg. rewrite Htb, Hds in Hreg.
  apply Hreg. by exists ino.
Qed.

(** A state with the same metadata and the same bytes reads the same. *)
Lemma same_file_image (fs fs' : FileSystem) (k : Z) (ino : Inode) :
  fs_inv fs → inode_at fs k = Some ino → in_use ino = true →
  inode_at fs' k = Some ino →
  (∀ b, 5 ≤ b → block_content (fp fs') b = block_content (fp fs) b) →
  same_file fs fs' k.
Proof.
  intros Hinv Hino Hu Hino' Hcont. exists ino, ino.
  split; [done |]. split; [done |]. split; [done |].
  intros j Hj Hjl.
  destruct (file_blocks fs k ino Hinv Hino Hu j Hj Hjl) as (b & Hb & Hbne & Hbr).
  exists b. split; [done |]. split; [done |]. split; [done |]. split; [lia |].
  apply Hcont. lia.
Qed.

(** X14. Reading twice gives the same content: in a state that satisfies the
    invariant of a session, [fs_read_file] on the state a first
    [fs_read_file] returned gives what the first one gave. *)
Theorem fs_read_file_twice (fs : FileSystem) (nm : list byte) :
  fs_inv fs →
  (fs_read_file (fs_read_file fs nm).1 nm).2 = (fs_read_file fs nm).2.
Proof.
  intros Hinv.
  destruct (fs_read_file_only_reads fs nm) as (Hs & Hi & Hb & Hc & Hnone & _).
  set (fs' := (fs_read_file fs nm).1) in *.
  assert (Hat : ∀ j, inode_at fs' j = inode_at fs j).
  { intros j. unfold inode_at. by rewrite Hi. }
  assert (Hfind : fs_find_inode fs' nm = fs_find_inode fs nm).
  { apply fs_find_inode_names. intros j. by rewrite Hat. }
  clearbody fs'.
  destruct (decide (fs_find_inode fs nm = -1)) as [Hk | Hk].
  - unfold fs_read_file. rewrite Hfind. rewrite !decide_True by exact Hk.
    reflexivity.
  - apply fs_read_file_agree; [exact Hfind | exact Hk |].
    destruct (fs_find_inode_found fs nm Hk) as [[_ (ino & Hino & Hu & _)] _].
    apply (same_file_image fs fs' _ ino); [done | done | done | |].
    + by rewrite Hat.
    + intros b _. apply block_content_ext. intros a _. by rewrite Hc.
Qed.

(** ** What the other operations leave of a file *)






(** ** The order of the slots *)

Lemma slots_in_order_names (fs fs' : FileSystem) :
  (∀ j, name <$> inode_at fs' j = name <$> inode_at fs j) →
  slots_in_order fs → slots_in_order fs'.
Proof.
  intros Hnames Hord i j ino' [Hir (ino_i & Hino_i & Hfree_i)] Hij Hino'.
  pose proof (Hnames i) as Hni. pose proof (Hnames j) as Hnj.
  rewrite Hino_i in Hni. rewrite Hino' in Hnj.
  destruct (inode_at fs i) as [a|] eqn:Ha; [| done].
  destruct (inode_at fs j) as [c|] eqn:Hc; [| done].
  injection Hni as Hni. injection Hnj as Hnj.
  assert (Hfa : in_use a = false).
  { unfold in_use in *. by rewrite <- Hni. }
  assert (Hc' : in_use c = false).
  { apply (Hord i j c); [| done | done]. split; [done |]. by exists a. }
  unfold in_use in *. by rewrite Hnj.
Qed.

Lemma slots_in_order_create (fs : FileSystem) (nm : list byte) (now : Z) :
  slots_in_order fs → slots_in_order (fs_create_file fs nm now).1.
Proof.
  intros Hord.
  destruct (fs_create_file fs nm now) as [fs' [e | k]] eqn:Hc; cbn [fst].
  - assert (fs' = fs) as ->; [| done].
    unfold fs_create_file in Hc. case_decide; [by injection Hc as <- |].
    case_decide; [by injection Hc as <- | done].
  - apply fs_create_file_frame in Hc
      as (_ & Hk & Hmin & _ & _ & Hother & ino_k & Hino_k & Hino_k').
    intros i j ino' [Hir (ino_i & Hino_i & Hfree_i)] Hij Hino'.
    destruct (decide (j = k)) as [-> | Hjk].
    + destruct (decide (i = k)) as [-> | Hik]; [congruence |].
      exfalso. apply (Hmin i); [lia |].
      split; [done |]. exists ino_i. split; [| done]. by rewrite <- Hother.
    + rewrite Hother in Hino' by done.
      destruct (decide (i = k)) as [-> | Hik].
      * by apply (Hord k j ino').
      * apply (Hord i j ino'); [| done | done].
        split; [done |]. exists ino_i. split; [| done]. by rewrite <- Hother.
Qed.

Lemma fs_write_file_names (fs : FileSystem) (nm data : list byte) (now : Z) (j : Z) :
  wf_shape fs →
  name <$> inode_at (fs_write_file fs nm data now).1 j = name <$> inode_at fs j.
Proof.
  intros Hwf.
  pose proof (fs_write_file_cases fs nm data now) as Hc. cbv zeta in Hc.
  destruct Hc as [Hc | [Hc | [[Hk Hc] | [Hk Hc]]]]; rewrite Hc; cbn [fst];
    [done | done | |].
  - destruct (fs_find_inode_found fs nm Hk) as [[_ (ino & Hino & _)] _].
    by apply (alloc_blocks_names fs _ _ ino).
  - destruct (fs_find_inode_found fs nm Hk) as [[_ (ino & Hino & _)] _].
    by apply (written_names fs _ data now ino).
Qed.

Lemma slots_in_order_step (fs : FileSystem) (o : op) :
  wf_shape fs → slots_in_order fs → slots_in_order (step fs o).
Proof.
  intros Hwf Hord. destruct o as [nm now | nm data now | nm |]; cbn [step].
  - by apply slots_in_order_create.
  - revert Hord. apply slots_in_order_names. intros j.
    by apply fs_write_file_names.
  - revert Hord. apply slots_in_order_names. intros j.
    destruct (fs_read_file_frame fs nm) as (_ & Hi & _).
    unfold inode_at. by rewrite Hi.
  - done.
Qed.

Lemma slots_in_order_session (f0 : FILE) (ops : list op) :
  slots_in_order (run (fs_format f0) ops).
Proof.
  unfold run. induction ops as [|o ops IH] using rev_ind.
  - intros i j ino _ _ Hino. apply inode_at_format in Hino as ->. reflexivity.
  - rewrite foldl_app. cbn [foldl]. apply slots_in_order_step; [| done].
    apply (inv_shape _ (fs_inv_session f0 ops)).
Qed.






(** ** list *)

Lemma filter_lookup_ordered {A} (P : A → Prop) `{∀ x, Decision (P x)}
    (l : list A) (i : nat) :
  (∀ a b x y, (a ≤ b)%nat → l !! a = Some x → l !! b = Some y → P y → P x) →
  filter P l !! i = l !! i ≫= λ x, if decide (P x) then Some x else None.
Proof.
  revert i. induction l as [|x l IH]; intros i Hord; [done |].
  rewrite filter_cons. destruct (decide (P x)) as [Hp | Hp].
  - destruct i as [|i]; cbn [lookup list_lookup].
    + cbn. by rewrite decide_True.
    + apply IH. intros a b x' y' Hab Ha Hb.
      apply (Hord (S a) (S b)); [lia | done | done].
  - assert (Hnone : ∀ y, y ∈ l → ¬ P y).
    { intros y Hy Hpy. apply list_elem_of_lookup in Hy as [b Hb].
      apply Hp. apply (Hord 0%nat (S b) x y); [lia | done | done | done]. }
    assert (Hnil : filter P l = []).
    { destruct (filter P l) as [|y t] eqn:Hf; [done |]. exfalso.
      assert (Hy : y ∈ filter P l) by (rewrite Hf; left).
      apply list_elem_of_filter in Hy as [Hpy Hy]. by apply (Hnone y). }
    rewrite Hnil. rewrite lookup_nil.
    destruct i as [|i]; cbn [lookup list_lookup].
    + cbn. by rewrite decide_False.
    + destruct (l !! i) as [y|] eqn:Hy; [| done]. cbn.
      rewrite decide_False; [done |]. apply Hnone.
      by apply list_elem_of_lookup_2 in Hy.
Qed.

Lemma fs_list_files_lookup (fs : FileSystem) (i : nat) :
  wf_shape fs → slots_in_order fs →
  fs_list_files fs !! i =
    inode_at fs (Z.of_nat i) ≫= λ ino,
      if in_use ino then Some (cstr (name ino), size ino) else None.
Proof.
  intros (Hlen & _) Hord. unfold fs_list_files. rewrite list_lookup_fmap.
  rewrite filter_lookup_ordered.
  - unfold inode_at. rewrite decide_True by lia. rewrite Nat2Z.id.
    destruct (inodes fs !! i) as [ino|]; [| done]. cbn.
    destruct (in_use ino) eqn:Hu.
    + by rewrite decide_True.
    + by rewrite decide_False.
  - intros a b x y Hab Ha Hb Hy.
    destruct (in_use x) eqn:Hx; [done |]. exfalso.
    assert (in_use y = false); [| congruence].
    apply (Hord (Z.of_nat a) (Z.of_nat b) y).
    + split.
      * apply lookup_lt_Some in Ha. rewrite Hlen in Ha.
        change (Z.to_nat MAX_INODES) with 128%nat in Ha. unfold MAX_INODES. lia.
      * exists x. split; [| done]. unfold inode_at.
        rewrite decide_True by lia. by rewrite Nat2Z.id.
    + lia.
    + unfold inode_at. rewrite decide_True by lia. by rewrite Nat2Z.id.
Qed.


Lemma length_by_lookup {A} (l : list A) (k : nat) :
  (∀ i, is_Some (l !! i) ↔ (i < k)%nat) → length l = k.
Proof.
  intros Hl. pose proof (Hl (length l)) as H1. pose proof (Hl k) as H2.
  rewrite lookup_lt_is_Some in H1. rewrite lookup_lt_is_Some in H2. lia.
Qed.

(** X18. A create appends to the listing: in a session started from a
    formatted image, after a successful [fs_create_file] of a name of 1 to
    31 bytes the listing is the listing before followed by the new name with
    size 0, and the slot returned is the number of files listed before. *)
Theorem fs_list_files_create (f0 : FILE) (ops : list op) (nm : list byte)
    (now k : Z) (fs' : FileSystem) :
  let fs := run (fs_format f0) ops in
  0 < strlen nm < MAX_FILENAME →
  fs_create_file fs nm now = (fs', inr k) →
  fs_list_files fs' = fs_list_files fs ++ [(cstr nm, 0)] ∧
  Z.of_nat (length (fs_list_files fs)) = k.
Proof.
  intros fs Hnm Hc.
  pose proof (inv_shape _ (fs_inv_session f0 ops)) as Hwf.
  pose proof (slots_in_order_session f0 ops) as Hord.
  pose proof (inv_shape _ (fs_inv_session f0 (ops ++ [Create nm now]))) as Hwf'.
  pose proof (slots_in_order_session f0 (ops ++ [Create nm now])) as Hord'.
  assert (Hstep : run (fs_format f0) (ops ++ [Create nm now]) = fs').
  { unfold run. rewrite foldl_app. cbn [foldl step]. fold (run (fs_format f0) ops).
    fold fs. by rewrite Hc. }
  rewrite Hstep in Hwf', Hord'. fold fs in Hwf, Hord. clearbody fs. clear Hstep.
  destruct (fs_create_file_holds _ _ _ _ _ Hnm Hc) as [[Hkr (inok & Hinok & Huk & Hnk)] _].
  apply fs_create_file_frame in Hc
    as (_ & Hk & Hmin & _ & _ & Hother & ino0 & Hino0 & Hino0').
  rewrite Hino0' in Hinok. injection Hinok as <-. cbn [name] in Hnk.
  (* the slots below [k] are in use, the slots from [k] on are free *)
  assert (Hbelow : ∀ i : nat, Z.of_nat i < k →
            ∃ ino, inode_at fs (Z.of_nat i) = Some ino ∧ in_use ino = true).
  { intros i Hi. destruct Hwf as (Hlen & _).
    destruct (lookup_lt_is_Some_2 (inodes fs) i) as [ino Hino].
    { rewrite Hlen. change (Z.to_nat MAX_INODES) with 128%nat.
      unfold MAX_INODES in Hkr. lia. }
    assert (Hat : inode_at fs (Z.of_nat i) = Some ino).
    { unfold inode_at. rewrite decide_True by lia. by rewrite Nat2Z.id. }
    exists ino. split; [done |]. destruct (in_use ino) eqn:Hu; [done |].
    exfalso. apply (Hmin (Z.of_nat i) Hi). split; [lia |]. by exists ino. }
  assert (Habove : ∀ i : nat, k ≤ Z.of_nat i → ∀ ino,
            inode_at fs (Z.of_nat i) = Some ino → in_use ino = false).
  { intros i Hi ino Hino. by apply (Hord k (Z.of_nat i) ino). }
  assert (Hlen : length (fs_list_files fs) = Z.to_nat k).
  { apply length_by_lookup. intros i.
    rewrite (fs_list_files_lookup fs i Hwf Hord).
    destruct (decide (Z.of_nat i < k)) as [Hi | Hi].
    - destruct (Hbelow i Hi) as (ino & -> & Hu). cbn. rewrite Hu.
      split; [lia | by eexists].
    - destruct (inode_at fs (Z.of_nat i)) as [ino|] eqn:Hino; cbn.
      + rewrite (Habove i ltac:(lia) ino Hino). split; [by intros [? ?] | lia].
      + split; [by intros [? ?] | lia]. }
  split; [| lia].
  apply list_eq. intros i.
  rewrite (fs_list_files_lookup fs' i Hwf' Hord').
  destruct (decide (Z.of_nat i = k)) as [Hik | Hik].
  - rewrite <- Hik in Hino0'. rewrite Hino0'. cbn [mbind option_bind].
    rewrite Huk.
    rewrite lookup_app_r by lia.
    replace (i - length (fs_list_files fs))%nat with 0%nat by lia.
    cbn [name size]. by rewrite Hnk.
  - rewrite Hother by done.
    rewrite <- (fs_list_files_lookup fs i Hwf Hord).
    destruct (decide (Z.of_nat i < k)) as [Hi | Hi].
    + by rewrite lookup_app_l by lia.
    + rewrite lookup_app_r by lia.
      rewrite (lookup_ge_None_2 (fs_list_files fs)) by lia.
      symmetry. apply lookup_ge_None_2. cbn [length]. lia.
Qed.



(** ** The image kept up to date *)

Lemma region_ext (f f' : FILE) (off n : Z) :
  (∀ a, off ≤ a < off + n → content f' a = content f a) →
  region f' off n = region f off n.
Proof.
  intros Hext. unfold region. apply list_eq. intros i.
  rewrite !list_lookup_fmap.
  destruct (seqZ off n !! i) as [a|] eqn:Ha; [| done].
  apply lookup_seqZ in Ha as [-> Hi]. cbn. f_equal. apply Hext. lia.
Qed.

Lemma region_fwrite_same (f : FILE) (off : Z) (buf : list byte) :
  0 ≤ off →
  region (fwrite (fseek f off) buf) off (Z.of_nat (length buf)) = buf.
Proof.
  intros Hoff. unfold region. apply list_eq. intros i.
  rewrite list_lookup_fmap.
  destruct (decide (i < length buf)%nat) as [Hi | Hi].
  - rewrite lookup_seqZ_lt by lia. cbn.
    destruct (lookup_lt_is_Some_2 buf i ltac:(lia)) as [c Hc]. rewrite Hc. f_equal.
    apply content_fwrite_inside.
    + rewrite position_fseek by done. lia.
    + rewrite position_fseek by done.
      by replace (Z.to_nat (off + Z.of_nat i - off)) with i by lia.
  - rewrite lookup_seqZ_ge by lia. cbn. symmetry. apply lookup_ge_None. lia.
Qed.

Lemma region_fwrite_other (f : FILE) (off : Z) (buf : list byte) (off' n : Z) :
  0 ≤ off →
  off + Z.of_nat (length buf) ≤ off' ∨ off' + n ≤ off →
  region (fwrite (fseek f off) buf) off' n = region f off' n.
Proof.
  intros Hoff Hdisj. apply region_ext. intros a Ha.
  rewrite content_fwrite_outside, content_fseek; [done |].
  rewrite position_fseek by done. lia.
Qed.

(** The three regions of the metadata in a formatted layout: the superblock
    in [0, 24), the inode table from 4096 and below 16384, the bitmap in
    [16384, 17408); the data blocks start at 20480. *)
Lemma flush_inodes_image (fs : FileSystem) :
  formatted_layout (super fs) → counters_on_image fs →
  counters_on_image (flush_inodes fs) ∧ inodes_on_image (flush_inodes fs).
Proof.
  intros (Htb & Hbs & Hits & Hbms & Hds) [Hsup Hbm].
  pose proof sizeof_Inode_range as Hsz.
  unfold counters_on_image, inodes_on_image, flush_inodes.
  cbn [fp set_fp super bitmap inodes]. rewrite Hits, Hbms in *.
  rewrite wrap_int_id by (unfold INT_MIN, INT_MAX, BLOCK_SIZE; lia).
  split; [split |].
  - rewrite region_fwrite_other; [done | unfold BLOCK_SIZE; lia |].
    right. unfold sizeof_Superblock, BLOCK_SIZE. lia.
  - rewrite region_fwrite_other; [done | unfold BLOCK_SIZE; lia |].
    left. rewrite repr_inodes_length. unfold MAX_INODES, BLOCK_SIZE. lia.
  - rewrite <- (repr_inodes_length (inodes fs)).
    apply region_fwrite_same. unfold BLOCK_SIZE. lia.
Qed.

Lemma counters_on_image_ext (fs fs' : FileSystem) :
  super fs' = super fs → bitmap fs' = bitmap fs →
  (∀ a, 0 ≤ a < 4 * BLOCK_SIZE + TOTAL_BLOCKS →
        content (fp fs') a = content (fp fs) a) →
  formatted_layout (super fs) →
  counters_on_image fs → counters_on_image fs'.
Proof.
  intros Hs Hb Hc (_ & _ & _ & Hbms & _) [Hsup Hbm].
  unfold counters_on_image. rewrite Hs, Hb, Hbms in *. split.
  - rewrite <- Hsup. apply region_ext. intros a Ha. apply Hc.
    unfold sizeof_Superblock, BLOCK_SIZE, TOTAL_BLOCKS in *. lia.
  - rewrite <- Hbm. apply region_ext. intros a Ha. apply Hc.
    unfold TOTAL_BLOCKS, BLOCK_SIZE in *. lia.
Qed.

Lemma inodes_on_image_ext (fs fs' : FileSystem) :
  super fs' = super fs → inodes fs' = inodes fs →
  (∀ a, 0 ≤ a < 4 * BLOCK_SIZE + TOTAL_BLOCKS →
        content (fp fs') a = content (fp fs) a) →
  formatted_layout (super fs) →
  inodes_on_image fs → inodes_on_image fs'.
Proof.
  intros Hs Hi Hc (_ & _ & Hits & _ & _) Hino.
  unfold inodes_on_image in *. rewrite Hs, Hi. rewrite Hits in *.
  rewrite <- Hino. apply region_ext. intros a Ha. apply Hc.
  pose proof sizeof_Inode_range.
  unfold MAX_INODES, BLOCK_SIZE, TOTAL_BLOCKS in *. lia.
Qed.

(** One allocation writes the bitmap and the superblock it has changed. *)
Lemma alloc_step_image (fs : FileSystem) (k i b : Z) :
  formatted_layout (super fs) → length (bitmap fs) = Z.to_nat TOTAL_BLOCKS →
  counters_on_image (alloc_step fs k i b) ∧
  region (fp (alloc_step fs k i b)) BLOCK_SIZE (sizeof_Inode * MAX_INODES)
  = region (fp fs) BLOCK_SIZE (sizeof_Inode * MAX_INODES).
Proof.
  intros (Htb & Hbs & Hits & Hbms & Hds) Hlen.
  pose proof sizeof_Inode_range as Hsz.
  destruct (set_block_bounds (assign_block fs k i b) b 1 0)
    as (_ & Hsup & _ & Hfp & Hbl & _).
  unfold counters_on_image.
  rewrite alloc_step_super. cbn [bitmap_start set_free_blocks]. rewrite Hbms.
  unfold alloc_step, flush_super, flush_bitmap.
  cbn [fp set_fp super set_super bitmap set_bitmap bitmap_start set_free_blocks].
  rewrite Hsup. cbn [super assign_block set_inodes]. rewrite Hbms, Hfp.
  cbn [fp assign_block set_inodes].
  rewrite wrap_int_id by (unfold INT_MIN, INT_MAX, BLOCK_SIZE; lia).
  set (bm := bitmap (set_block (assign_block fs k i b) b 1)) in *.
  assert (Hbm : Z.of_nat (length bm) = TOTAL_BLOCKS).
  { rewrite Hbl. cbn [bitmap assign_block set_inodes]. rewrite Hlen.
    unfold TOTAL_BLOCKS. lia. }
  clearbody bm. split; [split |].
  - set (sb := repr_Superblock _). unfold sizeof_Superblock.
    rewrite <- (repr_Superblock_length (set_free_blocks (super fs)
                  (wrap_int (free_blocks (super fs) - 1)))).
    apply region_fwrite_same. lia.
  - rewrite region_fwrite_other; [| lia |].
    + rewrite <- Hbm at 1. apply region_fwrite_same. unfold BLOCK_SIZE. lia.
    + left. rewrite repr_Superblock_length. unfold BLOCK_SIZE. lia.
  - rewrite region_fwrite_other; [| lia |].
    + apply region_fwrite_other; [unfold BLOCK_SIZE; lia |].
      right. unfold MAX_INODES, BLOCK_SIZE. lia.
    + left. rewrite repr_Superblock_length. unfold BLOCK_SIZE. lia.
Qed.

Lemma alloc_blocks_image (fs : FileSystem) (k : Z) (n : nat) (i : Z) :
  formatted_layout (super fs) → length (bitmap fs) = Z.to_nat TOTAL_BLOCKS →
  counters_on_image fs →
  let fs1 := (alloc_blocks fs k i n).1 in
  formatted_layout (super fs1) ∧ counters_on_image fs1 ∧
  region (fp fs1) BLOCK_SIZE (sizeof_Inode * MAX_INODES)
  = region (fp fs) BLOCK_SIZE (sizeof_Inode * MAX_INODES).
Proof.
  intros Hlay Hlen Hcnt.
  set (P := λ (_ : Z) (fs' : FileSystem),
         formatted_layout (super fs') ∧
         length (bitmap fs') = Z.to_nat TOTAL_BLOCKS ∧
         counters_on_image fs' ∧
         region (fp fs') BLOCK_SIZE (sizeof_Inode * MAX_INODES)
         = region (fp fs) BLOCK_SIZE (sizeof_Inode * MAX_INODES)).
  pose proof (alloc_blocks_loop P k) as Hloop.
  assert (Hfin : if (alloc_blocks fs k i n).2
                 then P (i + Z.of_nat n) (alloc_blocks fs k i n).1
                 else ∃ j, i ≤ j < i + Z.of_nat n ∧
                           P j (alloc_blocks fs k i n).1 ∧
                           inode_at (alloc_blocks fs k i n).1 k
                             ≫= (λ ino, block_at ino j) = Some SENTINEL ∧
                           get_free_block (alloc_blocks fs k i n).1 = -1).
  { apply Hloop; clear Hloop.
    - intros i0 fs0 b HP _ _. exact HP.
    - intros i0 fs0 HP _. exact HP.
    - intros i0 fs0 (Hlay0 & Hlen0 & _ & Hreg0) _ _.
      destruct (alloc_step_image fs0 k i0 (get_free_block fs0) Hlay0 Hlen0)
        as [Hc1 Hr1].
      split; [| split; [| split]].
      + rewrite alloc_step_super.
        destruct Hlay0 as (? & ? & ? & ? & ?). done.
      + unfold alloc_step.
        change (bitmap (flush_super (flush_bitmap (set_super ?f ?s))))
          with (bitmap f).
        destruct (set_block_bounds (assign_block fs0 k i0 (get_free_block fs0))
                    (get_free_block fs0) 1 0) as (_ & _ & _ & _ & -> & _).
        exact Hlen0.
      + exact Hc1.
      + by rewrite Hr1.
    - unfold P. done. }
  cbv zeta. destruct (alloc_blocks fs k i n).2.
  - by destruct Hfin as (? & _ & ? & ?).
  - by destruct Hfin as (j & _ & (? & _ & ? & ?) & _).
Qed.

(** The data loop writes data blocks only. *)
Lemma write_blocks_low (fs : FileSystem) (k : Z) (ino : Inode) (d : list byte)
    (len : Z) (n : nat) (i : Z) :
  inode_at fs k = Some ino →
  (∀ j b, i ≤ j < i + Z.of_nat n → block_at ino j = Some b →
          b = SENTINEL ∨ 5 ≤ b < TOTAL_BLOCKS) →
  ∀ a, a < 5 * BLOCK_SIZE →
    content (fp (write_blocks fs k d len i n)) a = content (fp fs) a.
Proof.
  revert fs len i. induction n as [|n IH]; intros fs len i Hino Hblk a Ha; [done |].
  cbn [write_blocks]. rewrite Hino. cbn [mbind option_bind].
  destruct (block_at ino i) as [b|] eqn:Hb.
  - destruct (decide (b = SENTINEL)) as [Hs | Hs].
    + apply IH; [done | | done]. intros j b' Hj. apply Hblk. lia.
    + rewrite IH; [| done | | done].
      * cbn [fp set_fp].
        destruct (Hblk i b ltac:(lia) Hb) as [| Hbr]; [done |].
        rewrite content_fwrite_outside, content_fseek; [done |].
        rewrite position_fseek;
          rewrite wrap_int_id
            by (unfold INT_MIN, INT_MAX, BLOCK_SIZE, TOTAL_BLOCKS in *; lia);
          unfold BLOCK_SIZE in *; lia.
      * intros j b' Hj. apply Hblk. lia.
  - apply IH; [done | | done]. intros j b' Hj. apply Hblk. lia.
Qed.

Lemma written_image (fs : FileSystem) (k : Z) (data : list byte) (now : Z)
    (ino : Inode) :
  fs_inv fs → counters_on_image fs →
  inode_at fs k = Some ino → in_use ino = true →
  counters_on_image (written fs k data now) ∧
  inodes_on_image (written fs k data now).
Proof.
  intros Hinv Hcnt Hino Hu.
  set (n := Z.to_nat ((wrap_int (strlen data) + BLOCK_SIZE - 1) `quot` BLOCK_SIZE)).
  destruct (fs_inv_alloc_blocks fs k n ino Hinv Hino Hu)
    as (Hinv1 & ino1 & Hino1 & Hu1 & _).
  destruct (alloc_blocks_image fs k n 0 (inv_layout _ Hinv)) as (Hlay1 & Hcnt1 & _);
    [by destruct (inv_shape _ Hinv) as (_ & _ & ? & _) | done |].
  cbv zeta in Hlay1, Hcnt1.
  unfold written. fold n.
  set (fs1 := (alloc_blocks fs k 0 n).1) in *.
  set (fs2 := write_blocks fs1 k (cstr data) (wrap_int (strlen data)) 0 n).
  destruct (write_blocks_frame fs1 k (cstr data) (wrap_int (strlen data)) 0 n)
    as (Hs2 & Hi2 & Hb2). fold fs2 in Hs2, Hi2, Hb2.
  assert (Hc2 : counters_on_image fs2).
  { apply (counters_on_image_ext fs1 fs2); [done | done | | done | done].
    intros a Ha. apply (write_blocks_low fs1 k ino1);
      [done | | unfold BLOCK_SIZE, TOTAL_BLOCKS in *; lia].
    intros j b _ Hb. destruct (decide (b = SENTINEL)) as [| Hne]; [by left |].
    right. destruct Hlay1 as (Htb & _ & _ & _ & Hds).
    pose proof (inv_region _ Hinv1 k j b) as Hreg. fold fs1 in Hreg.
    rewrite Htb, Hds in Hreg. apply Hreg. by exists ino1. }
  clearbody fs2 fs1.
  apply (flush_inodes_image
           (set_inodes fs2
              (alter (λ ino0, set_size_modified ino0 (wrap_int (strlen data)) now)
                     (Z.to_nat k) (inodes fs2)))).
  - cbn [super set_inodes]. by rewrite Hs2.
  - exact Hc2.
Qed.

Lemma fwrite_times_below (f : FILE) (buf : list byte) (n : nat) (a : Z) :
  a < position f → content (fwrite_times f buf n) a = content f a.
Proof.
  revert f. induction n as [|n IH]; intros f Ha; [done |].
  cbn [fwrite_times]. rewrite IH.
  - apply content_fwrite_outside. lia.
  - unfold fwrite. cbn [position]. lia.
Qed.

(** The three write-backs in the order [fs_init] makes them on format. *)
Lemma flush_all_image (fs : FileSystem) :
  formatted_layout (super fs) → length (bitmap fs) = Z.to_nat TOTAL_BLOCKS →
  let fs3 := flush_bitmap (flush_inodes (flush_super fs)) in
  counters_on_image fs3 ∧ inodes_on_image fs3 ∧
  position (fp fs3) = 4 * BLOCK_SIZE + TOTAL_BLOCKS.
Proof.
  intros (Htb & Hbs & Hits & Hbms & Hds) Hlen fs3.
  pose proof sizeof_Inode_range as Hsz.
  unfold counters_on_image, inodes_on_image, fs3, flush_bitmap, flush_inodes,
    flush_super.
  cbn [fp set_fp super bitmap inodes]. rewrite Hits, Hbms.
  rewrite !wrap_int_id by (unfold INT_MIN, INT_MAX, BLOCK_SIZE; lia).
  split; [split | split].
  - rewrite region_fwrite_other; [| unfold BLOCK_SIZE; lia |].
    + rewrite region_fwrite_other; [| unfold BLOCK_SIZE; lia |].
      * unfold sizeof_Superblock.
        rewrite <- (repr_Superblock_length (super fs)).
        apply region_fwrite_same. lia.
      * right. unfold sizeof_Superblock, BLOCK_SIZE. lia.
    + right. unfold sizeof_Superblock, BLOCK_SIZE. lia.
  - replace TOTAL_BLOCKS with (Z.of_nat (length (bitmap fs))) at 1
      by (rewrite Hlen; unfold TOTAL_BLOCKS; lia).
    apply region_fwrite_same. unfold BLOCK_SIZE. lia.
  - rewrite region_fwrite_other; [| unfold BLOCK_SIZE; lia |].
    + rewrite <- (repr_inodes_length (inodes fs)).
      apply region_fwrite_same. unfold BLOCK_SIZE. lia.
    + right. unfold MAX_INODES, BLOCK_SIZE. lia.
  - unfold fwrite at 1. cbn [position].
    rewrite position_fseek by (unfold BLOCK_SIZE; lia).
    rewrite Hlen. unfold TOTAL_BLOCKS. lia.
Qed.

(** The zero fill of the data region starts where the bitmap ends. *)
Lemma zero_fill_image (fs : FileSystem) (buf : list byte) (n : nat) :
  formatted_layout (super fs) →
  position (fp fs) = 4 * BLOCK_SIZE + TOTAL_BLOCKS →
  counters_on_image fs → inodes_on_image fs →
  counters_on_image (set_fp fs (fwrite_times (fp fs) buf n)) ∧
  inodes_on_image (set_fp fs (fwrite_times (fp fs) buf n)).
Proof.
  intros Hlay Hpos Hcnt Hino.
  assert (Hfp : ∀ a, 0 ≤ a < 4 * BLOCK_SIZE + TOTAL_BLOCKS →
                     content (fp (set_fp fs (fwrite_times (fp fs) buf n))) a
                     = content (fp fs) a).
  { intros a Ha. cbn [fp set_fp]. apply fwrite_times_below. lia. }
  split.
  - by apply (counters_on_image_ext fs).
  - by apply (inodes_on_image_ext fs).
Qed.

Lemma format_image (f0 : FILE) :
  counters_on_image (fs_format f0) ∧ inodes_on_image (fs_format f0).
Proof.
  unfold fs_format. cbv zeta.
  match goal with |- counters_on_image (set_fp (flush_bitmap (flush_inodes
                       (flush_super ?fs))) _) ∧ _ =>
    assert (Hlay : formatted_layout (super fs));
    [| assert (Hlen : length (bitmap fs) = Z.to_nat TOTAL_BLOCKS);
       [| destruct (flush_all_image fs Hlay Hlen) as (Hc & Hi & Hp);
          apply zero_fill_image; [exact Hlay | exact Hp | exact Hc | exact Hi]]]
  end.
  - match goal with |- formatted_layout (super (set_block ?f ?b ?v)) =>
      destruct (set_block_bounds f b v 0) as (_ & -> & _) end.
    unfold formatted_layout.
    cbn [super total_blocks block_size inode_table_start bitmap_start data_start].
    rewrite ceil_blocks_inodes, ceil_blocks_bitmap. done.
  - match goal with |- length (bitmap (set_block ?f ?b ?v)) = _ =>
      destruct (set_block_bounds f b v 0) as (_ & _ & _ & _ & -> & _) end.
    cbn [bitmap]. apply length_replicate.
Qed.

Lemma counters_on_image_step (fs : FileSystem) (o : op) :
  fs_inv fs → counters_on_image fs → counters_on_image (step fs o).
Proof.
  intros Hinv Hcnt. destruct o as [nm now | nm data now | nm |]; cbn [step].
  - destruct (fs_create_file fs nm now) as [fs' [e | k]] eqn:Hc; cbn [fst].
    + assert (fs' = fs) as ->; [| done].
      unfold fs_create_file in Hc. case_decide; [by injection Hc as <- |].
      case_decide; [by injection Hc as <- | done].
    + apply fs_create_file_ok in Hc as (_ & _ & _ & ->).
      apply flush_inodes_image; [apply (inv_layout _ Hinv) | done].
  - pose proof (fs_write_file_cases fs nm data now) as Hc. cbv zeta in Hc.
    destruct Hc as [Hc | [Hc | [[Hk Hc] | [Hk Hc]]]]; rewrite Hc; cbn [fst];
      [done | done | |].
    + apply alloc_blocks_image; [apply (inv_layout _ Hinv) | | done].
      by destruct (inv_shape _ Hinv) as (_ & _ & ? & _).
    + destruct (fs_find_inode_found fs nm Hk) as [[_ (ino & Hino & Hu & _)] _].
      by apply (written_image fs _ data now ino).
  - destruct (fs_read_file_only_reads fs nm) as (Hs & _ & Hb & Hc & _).
    apply (counters_on_image_ext fs); [done | done | | apply (inv_layout _ Hinv) | done].
    intros a _. by rewrite Hc.
  - done.
Qed.

Lemma counters_on_image_session (f0 : FILE) (ops : list op) :
  counters_on_image (run (fs_format f0) ops).
Proof.
  induction ops as [|o ops IH] using rev_ind.
  - apply format_image.
  - unfold run. rewrite foldl_app. cbn [foldl].
    apply counters_on_image_step; [apply fs_inv_session | exact IH].
Qed.

Lemma inodes_on_image_step (fs : FileSystem) (o : op) :
  fs_inv fs → counters_on_image fs →
  match o with
  | Create nm now => inodes_on_image fs ∨ ∃ k, (fs_create_file fs nm now).2 = inr k
  | Write nm data now =>
      (inodes_on_image fs ∧ (fs_write_file fs nm data now).2 ≠ inl NoFreeBlock) ∨
      ∃ r, (fs_write_file fs nm data now).2 = inr r
  | _ => inodes_on_image fs
  end →
  inodes_on_image (step fs o).
Proof.
  intros Hinv Hcnt Hcond.
  destruct o as [nm now | nm data now | nm |]; cbn [step].
  - destruct (fs_create_file fs nm now) as [fs' [e | k]] eqn:Hc; cbn [fst snd] in *.
    + assert (fs' = fs) as ->.
      { unfold fs_create_file in Hc. case_decide; [by injection Hc as <- |].
        case_decide; [by injection Hc as <- | done]. }
      destruct Hcond as [| [k Hk]]; [done | discriminate Hk].
    + apply fs_create_file_ok in Hc as (_ & _ & _ & ->).
      apply flush_inodes_image; [apply (inv_layout _ Hinv) | done].
  - pose proof (fs_write_file_cases fs nm data now) as Hc. cbv zeta in Hc.
    destruct Hc as [Hc | [Hc | [[Hk Hc] | [Hk Hc]]]]; rewrite Hc in *;
      cbn [fst snd] in *.
    + destruct Hcond as [[? _] | [r Hr]]; [done | discriminate Hr].
    + destruct Hcond as [[? _] | [r Hr]]; [done | discriminate Hr].
    + destruct Hcond as [[_ ?] | [r Hr]]; [done | discriminate Hr].
    + destruct (fs_find_inode_found fs nm Hk) as [[_ (ino & Hino & Hu & _)] _].
      by apply (written_image fs _ data now ino).
  - destruct (fs_read_file_only_reads fs nm) as (Hs & Hi & _ & Hc & _).
    apply (inodes_on_image_ext fs); [done | done | | apply (inv_layout _ Hinv) | done].
    intros a _. by rewrite Hc.
  - done.
Qed.

(** X20. The image follows the state. Along a session started from a
    formatted image the image holds at every moment the superblock and the
    bitmap of the state. It holds the inode table of the state after the
    format and after every successful create or write, and an operation
    other than a write that fails for want of blocks keeps it so. A write
    that fails with "no free blocks" leaves the inode table of the image as
    it was before the call. *)
Theorem image_follows_state (f0 : FILE) (ops : list op) (o : op) :
  let fs := run (fs_format f0) ops in
  counters_on_image fs ∧
  inodes_on_image (fs_format f0) ∧
  (match o with
   | Create nm now => inodes_on_image fs ∨ ∃ k, (fs_create_file fs nm now).2 = inr k
   | Write nm data now =>
       (inodes_on_image fs ∧ (fs_write_file fs nm data now).2 ≠ inl NoFreeBlock) ∨
       ∃ r, (fs_write_file fs nm data now).2 = inr r
   | _ => inodes_on_image fs
   end → inodes_on_image (step fs o)) ∧
  (∀ nm data now, (fs_write_file fs nm data now).2 = inl NoFreeBlock →
     region (fp (fs_write_file fs nm data now).1) BLOCK_SIZE
            (sizeof_Inode * MAX_INODES)
     = region (fp fs) BLOCK_SIZE (sizeof_Inode * MAX_INODES)).
Proof.
  intros fs.
  pose proof (fs_inv_session f0 ops) as Hinv.
  pose proof (counters_on_image_session f0 ops) as Hcnt.
  fold fs in Hinv, Hcnt. clearbody fs.
  split; [exact Hcnt |]. split; [apply format_image |]. split.
  - by apply inodes_on_image_step.
  - intros nm data now Hfail.
    pose proof (fs_write_file_cases fs nm data now) as Hc. cbv zeta in Hc.
    destruct Hc as [Hc | [Hc | [[Hk Hc] | [Hk Hc]]]]; rewrite Hc in *;
      cbn [fst snd] in *; try discriminate Hfail.
    apply alloc_blocks_image; [apply (inv_layout _ Hinv) | | done].
    by destruct (inv_shape _ Hinv) as (_ & _ & ? & _).
Qed.

(** ** Mounting the image again *)

Lemma fread_fseek (f : FILE) (off n : Z) :
  0 ≤ off →
  fread (fseek f off) n =
    (region f off n, {| content := content f; position := off + n |}).
Proof.
  intros Hoff. unfold fread, region.
  by rewrite position_fseek, content_fseek by done.
Qed.

(** X21. Mounting an up-to-date image gives the state back. When the image
    holds the superblock, the inode table and the bitmap of a state with the
    layout of a format, and the platform loads from their bytes the
    superblock and the inode table it stored, [fs_init] on that image returns
    the same superblock, the same inode table and the same bitmap. *)
Theorem fs_init_mounts_state (fs : FileSystem) :
  formatted_layout (super fs) →
  counters_on_image fs → inodes_on_image fs →
  load_Superblock (repr_Superblock (super fs)) = super fs →
  load_inodes (repr_inodes (inodes fs)) = inodes fs →
  super (fs_init (Some (fp fs))) = super fs ∧
  inodes (fs_init (Some (fp fs))) = inodes fs ∧
  bitmap (fs_init (Some (fp fs))) = bitmap fs.
Proof.
  intros (Htb & Hbs & Hits & Hbms & Hds) [Hsup Hbm] Hino Hls Hli.
  unfold inodes_on_image in Hino. rewrite Hits in Hino. rewrite Hbms in Hbm.
  unfold fs_init, fs_mount.
  rewrite (fread_fseek (fp fs) 0) by lia. cbv beta iota.
  rewrite Hsup, Hls, Hits, Hbms.
  rewrite !wrap_int_id by (unfold INT_MIN, INT_MAX, BLOCK_SIZE; lia).
  rewrite fread_fseek by (unfold BLOCK_SIZE; lia). cbv beta iota.
  rewrite fread_fseek by (unfold BLOCK_SIZE; lia). cbv beta iota.
  cbn [super inodes bitmap]. unfold region in *. cbn [content].
  rewrite Hino, Hli, Hbm. done.
Qed.

(** ** write: what the blocks hold *)

(** X27. After a successful [fs_write_file] of at most MAX_FILE_SIZE bytes,
    in a state that satisfies the invariant of a session, every ordinal the
    data reaches has a block of the data region, and that block holds in the
    image its piece of the data followed by zeros up to BLOCK_SIZE: nothing
    of what the block held before is left in it. *)
Theorem fs_write_file_blocks_hold (fs fs' : FileSystem) (nm data : list byte)
    (now r : Z) :
  fs_inv fs → strlen data ≤ MAX_FILE_SIZE →
  fs_write_file fs nm data now = (fs', inr r) →
  ∃ ino',
    inode_at fs' (fs_find_inode fs nm) = Some ino' ∧
    ∀ j, 0 ≤ j < ceil_div_block (strlen data) →
      ∃ b, block_at ino' j = Some b ∧
           data_start (super fs') ≤ b < total_blocks (super fs') ∧
           block_content (fp fs') b =
             block_buffer (cstr data) (j * BLOCK_SIZE)
                          (Z.min BLOCK_SIZE (strlen data - j * BLOCK_SIZE)) ∧
           length (block_content (fp fs') b) = Z.to_nat BLOCK_SIZE.
Proof.
  intros Hinv Hlen Hw.
  apply fs_write_file_ok in Hw. cbv zeta in Hw.
  destruct Hw as (Hk & _ & Hok & -> & ->).
  assert (Hdl : wrap_int (strlen data) = strlen data).
  { apply wrap_int_id.
    unfold strlen, INT_MIN, INT_MAX, MAX_FILE_SIZE, BLOCK_SIZE in *. lia. }
  destruct (fs_find_inode_found fs nm Hk) as [[Hkr (ino & Hino & Hu & _)] _].
  pose proof (inode_at_written fs (fs_find_inode fs nm) data now
                (fs_find_inode fs nm) ltac:(lia)) as Hat.
  pose proof (fp_written fs (fs_find_inode fs nm) data now) as Hfp.
  pose proof (super_written fs (fs_find_inode fs nm) data now) as Hsw.
  cbv zeta in Hat, Hfp, Hsw. rewrite decide_True in Hat by done.
  set (k := fs_find_inode fs nm) in *.
  rewrite Hdl in Hok, Hat, Hfp, Hsw.
  rewrite blocks_needed_ceil in Hok, Hat, Hfp, Hsw.
  set (L := strlen data) in *.
  set (n := Z.to_nat (ceil_div_block L)) in *.
  destruct (fs_inv_alloc_blocks fs k n ino Hinv Hino Hu)
    as (Hinv1 & ino1 & Hino1 & Hu1 & Hfilled).
  specialize (Hfilled Hok). rewrite Hino1 in Hat.
  cbn [fmap option_fmap option_map] in Hat.
  pose proof (ceil_div_block_spec L) as Hceil.
  assert (HL : 0 ≤ L) by (unfold L, strlen; lia).
  assert (Hn : Z.of_nat n = ceil_div_block L ∧ Z.of_nat n ≤ 10).
  { unfold n, MAX_FILE_SIZE, BLOCK_SIZE in *. lia. }
  destruct Hn as [Hn Hn10].
  destruct (inode_at_shape _ k ino1 (inv_shape _ Hinv1) Hino1) as [Hsh1 _].
  destruct (inv_layout _ Hinv1) as (Htb & Hbs & Hits & Hbms & Hds).
  assert (Hblk : ∀ j, 0 ≤ j < Z.of_nat n →
                      ∃ b, block_at ino1 j = Some b ∧ b ≠ SENTINEL ∧ 5 ≤ b < TOTAL_BLOCKS).
  { intros j Hj.
    destruct (block_at_is_Some ino1 j Hsh1 ltac:(change NBLOCKS with 10; lia)) as [b Hb].
    pose proof (Hfilled j b Hj Hb) as Hbne.
    exists b. split; [done |]. split; [done |].
    pose proof (inv_region _ Hinv1 k j b) as Hreg.
    rewrite Htb, Hds in Hreg. apply Hreg. by exists ino1. }
  assert (Hdist : ∀ j j' b, 0 ≤ j < 0 + Z.of_nat n → 0 ≤ j' < 0 + Z.of_nat n →
                            block_at ino1 j = Some b → block_at ino1 j' = Some b → j = j').
  { intros j j' b Hj Hj' Hb Hb'.
    pose proof (Hfilled j b ltac:(lia) Hb) as Hbne.
    apply (inv_unshared _ Hinv1 k j k j' b); by exists ino1. }
  set (fs1 := (alloc_blocks fs k 0 n).1) in *.
  pose proof (write_blocks_content fs1 k ino1 (cstr data) L n 0 ltac:(lia) Hino1)
    as Hwb.
  cbv zeta in Hwb.
  replace (remaining L 0) with L in Hwb by (unfold remaining; lia).
  destruct Hwb as [Hin _].
  { intros j Hj. destruct (Hblk j ltac:(lia)) as (b & Hb & _ & Hbr).
    exists b. split; [done | lia]. }
  { exact Hdist. }
  set (fs2 := write_blocks fs1 k (cstr data) L 0 n) in *.
  assert (Hsup2 : inode_table_start (super fs2) = 1).
  { unfold fs2. by destruct (write_blocks_frame fs1 k (cstr data) L 0 n) as (-> & _ & _). }
  destruct Hfp as (buf & Hfp & Hbuf). rewrite Hsup2 in Hfp.
  rewrite (wrap_int_id (1 * BLOCK_SIZE)) in Hfp
    by (unfold INT_MIN, INT_MAX, BLOCK_SIZE; lia).
  set (fsw := written fs k data now) in *.
  clearbody fsw fs2 fs1.
  exists (set_size_modified ino1 L now). split; [exact Hat |].
  intros j Hj.
  destruct (Hblk j ltac:(lia)) as (b & Hb & Hbne & Hbr).
  exists b. split; [exact Hb |]. rewrite Hsw, Htb, Hds.
  split; [lia |]. split; [| apply block_content_length].
  rewrite Hfp.
  replace (Z.min BLOCK_SIZE (L - j * BLOCK_SIZE))
    with (Z.min BLOCK_SIZE (remaining L j))
    by (unfold remaining, BLOCK_SIZE in *; lia).
  rewrite <- (Hin j b ltac:(lia) Hb).
  apply block_content_fwrite_other; [unfold BLOCK_SIZE; lia |].
  left. rewrite Hbuf. pose proof sizeof_Inode_range.
  unfold MAX_INODES, BLOCK_SIZE. lia.
Qed.

(** ** The extent of the format *)

Lemma fwrite_times_position (f : FILE) (buf : list byte) (n : nat) :
  position (fwrite_times f buf n) =
  position f + Z.of_nat n * Z.of_nat (length buf).
Proof.
  revert f. induction n as [|n IH]; intros f; cbn [fwrite_times]; [lia |].
  rewrite IH. unfold fwrite. cbn [position]. lia.
Qed.

Lemma fwrite_times_above (f : FILE) (buf : list byte) (n : nat) (a : Z) :
  position f + Z.of_nat n * Z.of_nat (length buf) ≤ a →
  content (fwrite_times f buf n) a = content f a.
Proof.
  revert f. induction n as [|n IH]; intros f Ha; [done |].
  cbn [fwrite_times]. rewrite IH.
  - apply content_fwrite_outside. lia.
  - unfold fwrite. cbn [position]. lia.
Qed.

Lemma fwrite_times_zeros (f : FILE) (m n : nat) (a : Z) :
  position f ≤ a < position f + Z.of_nat n * Z.of_nat m →
  content (fwrite_times f (replicate m x00) n) a = x00.
Proof.
  revert f. induction n as [|n IH]; intros f Ha; [lia |].
  cbn [fwrite_times].
  destruct (decide (a < position f + Z.of_nat m)) as [Hin | Hout].
  - rewrite fwrite_times_below by (unfold fwrite; cbn [position];
                                   rewrite length_replicate; lia).
    apply content_fwrite_inside; [lia |].
    apply lookup_replicate_2. lia.
  - apply IH. unfold fwrite. cbn [position]. rewrite length_replicate. lia.
Qed.

(** X22. What format writes, and where it stops. The zero fill of the data
    region starts where the bitmap ends, at byte 17408, and not at
    [data_start * BLOCK_SIZE]: so the last byte format writes is byte
    4191231, the stream ends 3072 bytes short of
    [TOTAL_BLOCKS * BLOCK_SIZE], every byte from 17408 up to there is 0, and
    the bytes from there on (the tail of block 1023) are not written. *)
Theorem fs_format_extent (f0 : FILE) :
  position (fp (fs_format f0)) = TOTAL_BLOCKS * BLOCK_SIZE - 3072 ∧
  (∀ a, 4 * BLOCK_SIZE + TOTAL_BLOCKS ≤ a < TOTAL_BLOCKS * BLOCK_SIZE - 3072 →
        content (fp (fs_format f0)) a = x00) ∧
  (∀ a, TOTAL_BLOCKS * BLOCK_SIZE - 3072 ≤ a →
        content (fp (fs_format f0)) a = content f0 a).
Proof.
  unfold fs_format. cbv zeta. cbn [fp set_fp].
  match goal with |- context [fwrite_times (fp (flush_bitmap (flush_inodes
                       (flush_super ?fs)))) _ (Z.to_nat ?n)] =>
    assert (Hlay : formatted_layout (super fs));
    [| assert (Hlen : length (bitmap fs) = Z.to_nat TOTAL_BLOCKS);
       [| destruct (flush_all_image fs Hlay Hlen) as (_ & _ & Hp);
          assert (Hn : n = TOTAL_BLOCKS - 5);
          [| rewrite Hn; set (fs3 := flush_bitmap (flush_inodes (flush_super fs)))
               in *;
             assert (Hout : ∀ a, 4 * BLOCK_SIZE + TOTAL_BLOCKS ≤ a →
                                 content (fp fs3) a = content f0 a) ]]]
  end.
  - match goal with |- formatted_layout (super (set_block ?f ?b ?v)) =>
      destruct (set_block_bounds f b v 0) as (_ & -> & _) end.
    unfold formatted_layout.
    cbn [super total_blocks block_size inode_table_start bitmap_start data_start].
    rewrite ceil_blocks_inodes, ceil_blocks_bitmap. done.
  - match goal with |- length (bitmap (set_block ?f ?b ?v)) = _ =>
      destruct (set_block_bounds f b v 0) as (_ & _ & _ & _ & -> & _) end.
    cbn [bitmap]. apply length_replicate.
  - destruct Hlay as (_ & _ & _ & _ & Hds).
    cbn [super flush_bitmap flush_inodes flush_super set_fp].
    rewrite Hds. reflexivity.
  - intros a Ha. destruct Hlay as (_ & _ & Hits & Hbms & _).
    pose proof sizeof_Inode_range as Hsz.
    unfold fs3, flush_bitmap, flush_inodes, flush_super.
    cbn [fp set_fp super bitmap inodes]. rewrite Hits, Hbms.
    rewrite !wrap_int_id by (unfold INT_MIN, INT_MAX, BLOCK_SIZE; lia).
    rewrite content_fwrite_outside, content_fseek.
    + rewrite content_fwrite_outside, content_fseek.
      * rewrite content_fwrite_outside, content_fseek.
        -- match goal with |- content (fp (set_block ?f ?b ?v)) a = _ =>
             destruct (set_block_bounds f b v 0) as (_ & _ & _ & -> & _) end.
           reflexivity.
        -- rewrite position_fseek by lia. rewrite repr_Superblock_length.
           unfold BLOCK_SIZE, TOTAL_BLOCKS in *. lia.
      * rewrite position_fseek by (unfold BLOCK_SIZE; lia).
        rewrite repr_inodes_length.
        unfold MAX_INODES, BLOCK_SIZE, TOTAL_BLOCKS in *. lia.
    + rewrite position_fseek by (unfold BLOCK_SIZE; lia).
      rewrite Hlen. unfold BLOCK_SIZE, TOTAL_BLOCKS in *. lia.
  - clearbody fs3.
    change (Z.to_nat BLOCK_SIZE) with 4096%nat.
    split; [| split].
    + rewrite fwrite_times_position, Hp, length_replicate.
      unfold TOTAL_BLOCKS, BLOCK_SIZE. lia.
    + intros a Ha. apply fwrite_times_zeros. rewrite Hp.
      unfold TOTAL_BLOCKS, BLOCK_SIZE in *. lia.
    + intros a Ha. rewrite fwrite_times_above.
      * apply Hout. unfold TOTAL_BLOCKS, BLOCK_SIZE in *. lia.
      * rewrite Hp, length_replicate. unfold TOTAL_BLOCKS, BLOCK_SIZE in *. lia.
Qed.

(** ** The create of omin.c *)

Lemma omin_strcpy_cstr (dst src : list byte) :
  (strlen src < Z.of_nat (length dst)) →
  cstr (Omin.strcpy dst src) = cstr src ∧
  length (Omin.strcpy dst src) = length dst.
Proof.
  unfold strlen, Omin.strcpy. intros Hlen.
  rewrite take_ge.
  - split; [apply cstr_app_nul |].
    rewrite length_app. cbn [length]. rewrite length_drop. lia.
  - rewrite length_app. cbn [length]. rewrite length_drop. lia.
Qed.

(** X23. The create of omin.c gives the new file a block at once and counts
    neither. For a new name of 1 to 31 bytes, a successful call takes the
    lowest free slot and the block [get_free_block] finds: the slot gets the
    name, [size] the length of the name plus one, [blocks[0]] that block,
    while the other entries of [blocks] keep what the slot held; the block is
    marked in the bitmap in memory, but the superblock, [free_blocks]
    included, is the one before, and the other slots are untouched. *)
Theorem omin_create_file_effect (fs fs' : FileSystem) (nm : list byte)
    (now r : Z) :
  wf_shape fs → 0 < strlen nm < MAX_FILENAME →
  Omin.fs_create_file fs nm now = (fs', inr r) →
  r = 0 ∧
  ∃ k ino,
    free_slot fs k ∧ (∀ j, j < k → ¬ free_slot fs j) ∧
    inode_at fs k = Some ino ∧
    get_free_block fs ≠ -1 ∧
    inode_at fs' k =
      Some {| name := Omin.strcpy (name ino) nm;
              size := strlen nm + 1;
              blocks := <[0%nat := get_free_block fs]> (blocks ino);
              created := now; modified := now |} ∧
    fs_find_inode fs' nm = k ∧
    (∀ j, j ≠ k → inode_at fs' j = inode_at fs j) ∧
    bitmap_at fs (get_free_block fs) = Some x00 ∧
    bitmap_at fs' (get_free_block fs) = Some x01 ∧
    super fs' = super fs.
Proof.
  intros Hwf [Hpos Hshort] Hc. unfold Omin.fs_create_file in Hc.
  destruct (decide (fs_find_inode fs nm ≠ -1)) as [| Hnone]; [done |].
  assert (Hnew : ∀ j, ¬ holds_name fs j nm).
  { apply fs_find_inode_none. lia. }
  pose proof (first_free_cases fs) as Hf. cbv zeta in Hf.
  destruct Hf as [[Hr _] | [Hk Hmin]].
  { rewrite Hr in Hc. rewrite decide_True in Hc by done. done. }
  set (k := first_from _ 0 _) in *. clearbody k.
  destruct (decide (k = -1)) as [| Hk1]; [done |].
  assert (Hnb : wrap_int ((strlen nm + 1) / BLOCK_SIZE + 1) = 1).
  { rewrite Z.div_small by (unfold MAX_FILENAME, BLOCK_SIZE in *; lia).
    reflexivity. }
  rewrite Hnb in Hc. change (Z.to_nat 1) with 1%nat in Hc.
  cbn [Omin.create_blocks] in Hc.
  destruct (decide (get_free_block fs = -1)) as [| Hb]; [done |].
  pose proof (get_free_block_spec fs) as Hs. cbv zeta in Hs.
  destruct Hs as [[Hr _] | (_ & Hrange & Hfree & _)]; [done |].
  set (b := get_free_block fs) in *. clearbody b.
  injection Hc as <- <-.
  pose proof (bitmap_at_free_bounds _ _ _ Hfree) as Hbr.
  destruct Hwf as (Hli & Hshape & Hlb & _). rewrite Hlb in Hbr.
  pose proof Hk as [Hkr (ino & Hino & Hu)].
  assert (Hsh : inode_shape ino).
  { unfold inode_at in Hino. rewrite decide_True in Hino by lia.
    exact (Forall_lookup_1 _ _ _ _ Hshape Hino). }
  destruct Hsh as [Hln Hlbk].
  set (fs1 := set_block (assign_block fs k 0 b) b 1).
  destruct (set_block_bounds (assign_block fs k 0 b) b 1 b)
    as (_ & Hsup1 & Hino1 & _ & _ & Hbm1).
  fold fs1 in Hsup1, Hino1, Hbm1.
  assert (Hat1 : ∀ j, inode_at fs1 j =
            if decide (j = k)
            then Some (set_blocks ino (<[0%nat := b]> (blocks ino)))
            else inode_at fs j).
  { intros j. unfold inode_at at 1. rewrite Hino1.
    change (if decide (0 ≤ j) then inodes (assign_block fs k 0 b) !! Z.to_nat j
            else None) with (inode_at (assign_block fs k 0 b) j).
    unfold assign_block. rewrite inode_at_alter by lia.
    destruct (decide (j = k)) as [_ | _]; [| reflexivity].
    rewrite Hino. reflexivity. }
  set (init := λ ino0 : Inode,
         {| name := Omin.strcpy (name ino0) nm;
            size := wrap_int (strlen nm + 1); blocks := blocks ino0;
            created := now; modified := now |}).
  assert (Hat : ∀ j, inode_at (flush_inodes
                        (set_inodes fs1 (alter init (Z.to_nat k) (inodes fs1)))) j =
            if decide (j = k)
            then Some (init (set_blocks ino (<[0%nat := b]> (blocks ino))))
            else inode_at fs j).
  { intros j. rewrite inode_at_flush_inodes, inode_at_alter by lia.
    rewrite !Hat1. rewrite (decide_True (P := k = k)) by reflexivity.
    destruct (decide (j = k)) as [_ | _]; reflexivity. }
  set (fs' := flush_inodes (set_inodes fs1 (alter init (Z.to_nat k) (inodes fs1))))
    in *.
  assert (Hsz : wrap_int (strlen nm + 1) = strlen nm + 1).
  { apply wrap_int_id. unfold INT_MIN, INT_MAX, MAX_FILENAME in *. lia. }
  destruct (omin_strcpy_cstr (name ino) nm) as [Hcs Hls].
  { rewrite Hln. unfold MAX_FILENAME in *. lia. }
  assert (Hholds : holds_name fs' k nm).
  { split; [done |]. eexists. split; [by rewrite Hat, decide_True |].
    unfold init. cbn [name set_blocks]. split; [| exact Hcs].
    apply in_use_head. cbn [name].
    destruct (cstr_head_nonempty nm Hpos) as (c & Hc & Hc0).
    exists c. split; [| done]. unfold Omin.strcpy.
    destruct (cstr nm) as [|c' t]; [done |]. injection Hc as ->.
    destruct (name ino) as [|d0 dt]; [cbn [length] in Hln; done |].
    reflexivity. }
  assert (Hbm' : bitmap_at fs' b = Some x01).
  { change (bitmap_at fs' b) with (bitmap_at fs1 b). rewrite Hbm1.
    rewrite decide_True by (unfold TOTAL_BLOCKS in *; lia).
    change (bitmap_at (assign_block fs k 0 b) b) with (bitmap_at fs b).
    rewrite Hfree. reflexivity. }
  assert (Hsup' : super fs' = super fs).
  { change (super fs') with (super fs1). rewrite Hsup1. reflexivity. }
  clearbody fs'. split; [reflexivity |]. exists k, ino.
  split; [done |]. split; [done |]. split; [done |]. split; [done |].
  split.
  { rewrite Hat, decide_True by done. unfold init. cbn [name blocks set_blocks].
    by rewrite Hsz. }
  split.
  { apply fs_find_inode_first; [done |]. intros j Hj Hh. apply (Hnew j).
    assert (Heq : inode_at fs' j = inode_at fs j).
    { rewrite Hat. rewrite decide_False by lia. done. }
    apply (holds_name_ext fs fs' j nm Heq). exact Hh. }
  split.
  { intros j Hj. rewrite Hat. by rewrite decide_False. }
  split; [exact Hfree |]. split; [exact Hbm' | exact Hsup'].
Qed.

End Further.

(** ** minifs_2.c *)

Lemma first_from_none (p : Z → bool) (i : Z) (n : nat) :
  (∀ k, i ≤ k < i + Z.of_nat n → p k = false) → first_from p i n = -1.
Proof.
  intros Hall. destruct (first_from_spec p i n) as [[Hr _] | (Hr & Hp & _)];
    [done |].
  rewrite Hall in Hp by lia. done.
Qed.

Lemma in_use_cstr (ino : Inode) : in_use ino = false ↔ cstr (name ino) = [].
Proof.
  unfold in_use. destruct (name ino) as [|c t]; [done |]. cbn [cstr].
  destruct (decide (c = x00)) as [-> | Hc].
  - split; [done |]. intros _. apply bool_decide_eq_false.
    intros Hne. by apply Hne.
  - split; [| done]. intros Hf. apply bool_decide_eq_false in Hf.
    by exfalso.
Qed.

Lemma first_from_head (p : Z → bool) (i : Z) (n : nat) :
  p i = true → first_from p i (S n) = i.
Proof. intros Hp. cbn [first_from]. by rewrite Hp. Qed.

(** X24. The lookup of minifs_2.c does not ask whether a slot is in use. On
    the same inode table it agrees with the lookup of tinyfs.c for every
    name that is not empty; for the empty name, which tinyfs.c never finds,
    it returns the first free slot, the one the next new file would take (or
    -1 when no slot is free). *)
Theorem minifs2_fs_find_inode (s : Minifs2Store.Store) (fs : FileSystem)
    (nm : list byte) :
  inodes fs = Minifs2Store.st_inodes s →
  (0 < strlen nm → Minifs2Store.fs_find_inode s nm = fs_find_inode fs nm) ∧
  (strlen nm = 0 →
     fs_find_inode fs nm = -1 ∧
     Minifs2Store.fs_find_inode s nm =
       first_from (λ i, match inode_at fs i with
                        | Some ino => negb (in_use ino)
                        | None => false
                        end) 0 (Z.to_nat MAX_INODES)).
Proof.
  intros Htab. split.
  - intros Hpos. unfold Minifs2Store.fs_find_inode, fs_find_inode.
    apply first_from_ext. intros k Hk. unfold inode_at.
    rewrite decide_True by lia. rewrite Htab.
    destruct (Minifs2Store.st_inodes s !! Z.to_nat k) as [ino|]; [| done].
    destruct (bool_decide (strcmp (name ino) nm = 0)) eqn:Hcmp;
      [| by rewrite andb_false_r].
    rewrite andb_true_r. symmetry.
    apply bool_decide_eq_true in Hcmp. apply strcmp_0 in Hcmp.
    destruct (in_use ino) eqn:Hu; [done |]. exfalso.
    apply in_use_cstr in Hu. unfold strlen in Hpos.
    rewrite <- Hcmp, Hu in Hpos. cbn [length] in Hpos. lia.
  - intros Hlen. split; [by apply fs_find_inode_result |].
    unfold Minifs2Store.fs_find_inode.
    apply first_from_ext. intros k Hk. unfold inode_at.
    rewrite decide_True by lia. rewrite Htab.
    destruct (Minifs2Store.st_inodes s !! Z.to_nat k) as [ino|]; [| done].
    assert (Hnil : cstr nm = []).
    { unfold strlen in Hlen. by destruct (cstr nm). }
    destruct (in_use ino) eqn:Hu; cbn [negb].
    + apply bool_decide_eq_false. rewrite strcmp_0, Hnil.
      intros Hc. apply in_use_cstr in Hc. congruence.
    + apply bool_decide_eq_true. rewrite strcmp_0, Hnil.
      by apply in_use_cstr.
Qed.

(** X25. [fs_update_inode] of minifs_2.c takes 0 for an empty entry of
    [blocks]. It sets [size] and marks the block in the bitmap in every
    case. With [size] 0 before, it stores the block in [blocks[0]] whatever
    was there. Otherwise it stores it in the first entry that holds 0; and
    when no entry holds 0 the array stays as it was: the block is marked
    used and no inode records it. *)
Theorem minifs2_fs_update_inode (s : Minifs2Store.Store) (k b sz : Z)
    (ino : Inode) :
  0 ≤ k → 0 ≤ b < Z.of_nat (length (Minifs2Store.st_bitmap s)) →
  Minifs2Store.st_inodes s !! Z.to_nat k = Some ino →
  length (blocks ino) = 10%nat →
  let s' := Minifs2Store.fs_update_inode s k b sz in
  Minifs2Store.st_bitmap s' !! Z.to_nat b = Some x01 ∧
  ∃ ino',
    Minifs2Store.st_inodes s' !! Z.to_nat k = Some ino' ∧
    size ino' = sz ∧ name ino' = name ino ∧
    (size ino = 0 → blocks ino' = <[0%nat := b]> (blocks ino)) ∧
    (size ino ≠ 0 → 0 ∉ blocks ino → blocks ino' = blocks ino) ∧
    (size ino ≠ 0 →
       ∀ j : nat, blocks ino !! j = Some 0 →
                  (∀ j' : nat, (j' < j)%nat → blocks ino !! j' ≠ Some 0) →
                  blocks ino' = <[j := b]> (blocks ino)).
Proof.
  intros Hk Hb Hino Hlen s'. split.
  - unfold s', Minifs2Store.fs_update_inode. cbn [Minifs2Store.st_bitmap].
    rewrite list_lookup_insert. rewrite decide_True by (split; [done | lia]).
    done.
  - eexists. split.
    { unfold s', Minifs2Store.fs_update_inode. cbn [Minifs2Store.st_inodes].
      rewrite list_lookup_alter. rewrite decide_True by done.
      rewrite Hino. reflexivity. }
    cbn [size name blocks]. split; [done |]. split; [done |].
    unfold Minifs2Store.record_block.
    match goal with |- context [first_from ?p 0 10] =>
      pose proof (first_from_spec p 0 10) as Hs; set (r := first_from p 0 10) in *
    end.
    split_and!.
    + intros Hz. by rewrite decide_True.
    + intros Hnz Hnone. rewrite decide_False by done.
      destruct Hs as [[Hr _] | (Hr & Hp & _)].
      * by rewrite decide_True.
      * exfalso. apply bool_decide_eq_true in Hp. apply Hnone.
        by apply list_elem_of_lookup_2 in Hp.
    + intros Hnz j Hj Hmin. rewrite decide_False by done.
      pose proof (lookup_lt_Some _ _ _ Hj) as Hjl. rewrite Hlen in Hjl.
      destruct Hs as [[Hr Hall] | (Hr & Hp & Hall)].
      * exfalso. specialize (Hall (Z.of_nat j) ltac:(lia)).
        apply bool_decide_eq_false in Hall. apply Hall. by rewrite Nat2Z.id.
      * rewrite decide_False by lia. apply bool_decide_eq_true in Hp.
        assert (Z.to_nat r = j) as ->; [| done].
        destruct (Nat.lt_trichotomy (Z.to_nat r) j) as [Hlt | [Heq | Hgt]].
        -- exfalso. by apply (Hmin (Z.to_nat r) Hlt).
        -- done.
        -- exfalso. specialize (Hall (Z.of_nat j) ltac:(lia)).
           apply bool_decide_eq_false in Hall. apply Hall. by rewrite Nat2Z.id.
Qed.

(** X26. In minifs_2.c the first file written after [fs_init] cannot be read
    back. A write of 1 to BLOCK_SIZE bytes to a new name of 1 to 31 bytes
    takes slot 0 and block 0, the first free block of the zeroed bitmap: the
    bytes are stored in block 0, [size] is their number and the block is
    marked used, but [blocks[0]] holds 0, which [fs_read_file] takes for an
    empty entry, so reading the file prints nothing. *)
Theorem minifs2_first_file_unreadable (nm data : list byte) (now : Z) :
  0 < strlen nm < MAX_FILENAME →
  0 < strlen data ≤ BLOCK_SIZE →
  ∃ s' ino,
    Minifs2Store.fs_write_file Minifs2Store.fs_init nm data now = Some s' ∧
    Minifs2Store.fs_find_inode s' nm = 0 ∧
    Minifs2Store.st_inodes s' !! 0%nat = Some ino ∧
    size ino = strlen data ∧ blocks ino = replicate 10 0 ∧
    Minifs2Store.st_bitmap s' !! 0%nat = Some x01 ∧
    (∀ a, 0 ≤ a < strlen data →
          Minifs2Store.st_data s' a = cstr data !!! Z.to_nat a) ∧
    Minifs2Store.fs_read_file s' nm = inr [].
Proof.
  intros [Hpos Hshort] [Hdpos Hdmax].
  assert (Hdl : wrap_int (strlen data) = strlen data).
  { apply wrap_int_id. unfold INT_MIN, INT_MAX, BLOCK_SIZE in *. lia. }
  assert (Hfind0 : Minifs2Store.fs_find_inode Minifs2Store.fs_init nm = -1).
  { unfold Minifs2Store.fs_find_inode. apply first_from_none. intros k Hk.
    cbn [Minifs2Store.st_inodes Minifs2Store.fs_init].
    destruct (replicate (Z.to_nat MAX_INODES) zero_inode !! Z.to_nat k)
      as [ino|] eqn:Hl; [| done].
    apply lookup_replicate_1 in Hl as [-> _].
    apply bool_decide_eq_false. rewrite strcmp_0.
    change (cstr (name zero_inode)) with (@nil byte).
    intros Hnil. unfold strlen in Hpos. rewrite <- Hnil in Hpos.
    cbn [length] in Hpos. lia. }
  assert (Hfree0 :
    first_from (λ i, match Minifs2Store.st_inodes Minifs2Store.fs_init !! Z.to_nat i with
                     | Some ino => negb (in_use ino)
                     | None => false
                     end) 0 (Z.to_nat MAX_INODES) = 0)
    by (vm_compute; reflexivity).
  assert (Hblock0 :
    Minifs2.get_free_block (replicate (Z.to_nat TOTAL_BLOCKS) x00) = 0)
    by (vm_compute; reflexivity).
  assert (Hneed : Z.to_nat ((strlen data + BLOCK_SIZE - 1) `quot` BLOCK_SIZE) = 1%nat).
  { rewrite blocks_needed_ceil.
    pose proof (ceil_div_block_spec (strlen data)) as Hc.
    unfold BLOCK_SIZE in *. lia. }
  destruct (omin_strcpy_cstr (name zero_inode) nm) as [Hcs Hls].
  { change (length (name zero_inode)) with 32%nat. unfold MAX_FILENAME in *. lia. }
  set (ino := {| name := Omin.strcpy (name zero_inode) nm;
                 size := strlen data;
                 blocks := <[0%nat := 0]> (blocks zero_inode);
                 created := now; modified := now |}).
  set (s' := {| Minifs2Store.st_super := Minifs2.init_super;
                Minifs2Store.st_inodes :=
                  ino :: replicate (Z.to_nat MAX_INODES - 1) zero_inode;
                Minifs2Store.st_bitmap :=
                  <[0%nat := x01]> (replicate (Z.to_nat TOTAL_BLOCKS) x00);
                Minifs2Store.st_data :=
                  Minifs2Store.memcpy_block (λ _, x00) 0 (cstr data) 0
                                            (strlen data - 0) |}).
  assert (Hfind : Minifs2Store.fs_find_inode s' nm = 0).
  { unfold Minifs2Store.fs_find_inode.
    change (Z.to_nat MAX_INODES) with (S 127). apply first_from_head.
    change (Minifs2Store.st_inodes s' !! Z.to_nat 0) with (Some ino).
    apply bool_decide_eq_true_2. apply strcmp_0. exact Hcs. }
  exists s', ino. split_and!.
  - unfold Minifs2Store.fs_write_file. rewrite Hfind0.
    rewrite decide_True by done. rewrite Hfree0.
    rewrite decide_False by done. rewrite decide_False by done.
    rewrite Hdl, Hneed.
    cbn [Minifs2Store.write_chunks Minifs2Store.st_bitmap Minifs2Store.fs_init].
    rewrite Hblock0. rewrite decide_False by done.
    rewrite decide_False by (unfold BLOCK_SIZE in *; lia).
    reflexivity.
  - exact Hfind.
  - reflexivity.
  - reflexivity.
  - reflexivity.
  - reflexivity.
  - intros a Ha. unfold s'. cbn [Minifs2Store.st_data].
    unfold Minifs2Store.memcpy_block.
    rewrite decide_True by lia. f_equal. lia.
  - unfold Minifs2Store.fs_read_file. rewrite Hfind.
    rewrite decide_False by done. reflexivity.
Qed.

(** * Concrete runs on the LP64 platform *)

Module Scenarios.
Import Runs.


(** The scenario of the specification: format, create, write 11 bytes, read
    them back, list. *)
Example scenario_hello :
  let w := fs_write_file (H := LP64.abi) fs1 (str "a.txt") (str "hello world") 200 in
  w.2 = inr 0 ∧
  (fs_read_file w.1 (str "a.txt")).2 = inr (str "hello world") ∧
  fs_list_files w.1 = [(str "a.txt", 11)] ∧
  (blocks <$> inode_at w.1 0) = Some [5; -1; -1; -1; -1; -1; -1; -1; -1; -1] ∧
  free_blocks (super w.1) = 1022.
Proof. vm_compute. repeat split; reflexivity. Qed.


(** *** create *)


(** *** write *)

Lemma written_result (fs : FileSystem) (nm data : list byte) (now r : Z) :
  (fs_write_file (H := LP64.abi) fs nm data now).2 = inr r →
  fs_write_file (H := LP64.abi) fs nm data now =
    ((fs_write_file (H := LP64.abi) fs nm data now).1, inr r).
Proof. intros <-. apply surjective_pairing. Qed.


(** C3 on a first write of 4097 bytes: two blocks. *)
Lemma C3_write_blocks_witness :
  wf_shape fs1 ∧ strlen two_blocks ≤ INT_MAX ∧
  ∃ ino', inode_at (fs_write_file (H := LP64.abi) fs1 (str "a.txt") two_blocks 200).1 0
            = Some ino' ∧
          count_blocks (blocks ino') = 2.
Proof.
  assert (Hwf : wf_shape fs1) by exact (inv_shape _ (fs_inv_session new_file _)).
  assert (Hlen : strlen two_blocks ≤ INT_MAX) by (vm_compute; discriminate).
  split; [exact Hwf |]. split; [exact Hlen |].
  assert (Hres : (fs_write_file (H := LP64.abi) fs1 (str "a.txt") two_blocks 200).2
                 = inr 0) by (vm_compute; reflexivity).
  destruct (C3_write_blocks (H := LP64.abi) fs1 (str "a.txt") two_blocks 200
              (fs_write_file (H := LP64.abi) fs1 (str "a.txt") two_blocks 200).1 0
              Hwf Hlen (written_result fs1 (str "a.txt") two_blocks 200 0 Hres))
    as (ino & ino' & Hino & Hino' & _ & _ & _ & Hfresh).
  replace (fs_find_inode fs1 (str "a.txt")) with 0 in Hino, Hino'
    by (vm_compute; reflexivity).
  exists ino'. split; [exact Hino' |].
  replace (ceil_div_block (strlen two_blocks)) with 2 in Hfresh
    by (vm_compute; reflexivity).
  apply Hfresh. intros j b Hb.
  vm_compute in Hino. injection Hino as <-.
  match type of Hb with block_at ?R j = _ =>
    exact (block_at_replicate_sentinel R [] j b 10 eq_refl Hb) end.
Defined.



(** What that write leaves: nine blocks attached to the file, the counter nine
    lower (1023 - 1010 - 9), no free block. *)
Example disk_full :
  let w := fs_write_file (H := LP64.abi) fs_full (fname 101) full_file 0 in
  fs_find_inode fs_full (fname 101) = 101 ∧
  free_blocks (super fs_full) = 13 ∧
  w.2 = inl NoFreeBlock ∧
  (blocks <$> inode_at w.1 101)
    = Some [1015; 1016; 1017; 1018; 1019; 1020; 1021; 1022; 1023; -1] ∧
  (size <$> inode_at w.1 101) = Some 0 ∧
  free_blocks (super w.1) = 4 ∧
  get_free_block w.1 = -1.
Proof. vm_compute. repeat split; reflexivity. Qed.

(** *** Rewrites, untouched slots and foreign images *)


(** C3: a write after which the inode holds more blocks than the length
    needs. After a write of two blocks, a write of one byte to the same file
    succeeds and the inode keeps both blocks, one more than
    [ceil(1 / BLOCK_SIZE)]. *)
Lemma C3_counterexample :
  let w := fs_write_file (H := LP64.abi) fs2 (str "a.txt") (str "x") 300 in
  w.2 = inr 0 ∧
  fs_find_inode fs2 (str "a.txt") = 0 ∧
  ceil_div_block (strlen (str "x")) = 1 ∧
  (count_blocks <$> (blocks <$> inode_at w.1 0)) = Some 2 ∧
  (blocks <$> inode_at w.1 0) = Some [5; 6; -1; -1; -1; -1; -1; -1; -1; -1].
Proof. vm_compute. repeat split; reflexivity. Qed.

(** C8: entries other than -1 outside the data region. Right after format
    the slots of the inode table hold zeros, not -1, in [blocks]: slot 0 has
    the entry 0 at ordinals 0 and 1, and block 0 is below [data_start]. *)
Lemma C8_counterexample :
  slot_entry fs0 0 0 0 ∧ slot_entry fs0 0 1 0 ∧
  data_start (super fs0) = 5 ∧ 0 < data_start (super fs0).
Proof.
  split; [| split].
  - exists zero_inode. split; [reflexivity |]. split; [reflexivity | discriminate].
  - exists zero_inode. split; [reflexivity |]. split; [reflexivity | discriminate].
  - vm_compute. split; reflexivity.
Qed.


(** The state mounted from the image of omin.c: the file has the size of its
    name, block 5 and zeros in the other entries, and the bitmap of the image
    still has block 5 free (omin.c does not write the bitmap back). *)
Example mounted_from_omin :
  fs_find_inode mounted (str "a.txt") = 0 ∧
  (size <$> inode_at mounted 0) = Some 6 ∧
  (blocks <$> inode_at mounted 0) = Some [5; 0; 0; 0; 0; 0; 0; 0; 0; 0] ∧
  bitmap_at mounted 5 = Some x00.
Proof. vm_compute. repeat split; reflexivity. Qed.


(** What the read gives there: the first piece, then the third piece where
    the second was. *)
Example mounted_read :
  let w := fs_write_file (H := LP64.abi) mounted (str "a.txt") three_blocks 200 in
  (fs_read_file w.1 (str "a.txt")).2
  = inr (replicate 4096 "a"%byte ++ ("c"%byte :: replicate 4095 x00) ++ ["c"%byte]).
Proof. vm_compute. reflexivity. Qed.

(** The create of omin.c on the formatted image: the new file has the size
    of its name and a block, and zeros, not -1, in the other entries. *)
Example omin_create_fresh :
  let c := Omin.fs_create_file (H := LP64.abi) fs0 (str "a.txt") 100 in
  c.2 = inr 0 ∧
  fs_find_inode c.1 (str "a.txt") = 0 ∧
  (size <$> inode_at c.1 0) = Some 6 ∧
  (blocks <$> inode_at c.1 0) = Some [5; 0; 0; 0; 0; 0; 0; 0; 0; 0].
Proof. vm_compute. repeat split; reflexivity. Qed.

End Scenarios.

(** * More concrete runs on the LP64 platform *)

Module Checks.
Import Runs Sessions.

Lemma created_result (fs : FileSystem) (nm : list byte) (now k : Z) :
  (fs_create_file (H := LP64.abi) fs nm now).2 = inr k →
  fs_create_file (H := LP64.abi) fs nm now =
    ((fs_create_file (H := LP64.abi) fs nm now).1, inr k).
Proof. intros <-. apply surjective_pairing. Qed.

Lemma wrote_result (fs : FileSystem) (nm data : list byte) (now r : Z) :
  (fs_write_file (H := LP64.abi) fs nm data now).2 = inr r →
  fs_write_file (H := LP64.abi) fs nm data now =
    ((fs_write_file (H := LP64.abi) fs nm data now).1, inr r).
Proof. intros <-. apply surjective_pairing. Qed.

Lemma omin_created_result (fs : FileSystem) (nm : list byte) (now r : Z) :
  (Omin.fs_create_file (H := LP64.abi) fs nm now).2 = inr r →
  Omin.fs_create_file (H := LP64.abi) fs nm now =
    ((Omin.fs_create_file (H := LP64.abi) fs nm now).1, inr r).
Proof. intros <-. apply surjective_pairing. Qed.

(** X2 on the formatted image: block 5 is marked. *)
Lemma get_free_block_after_mark_witness :
  bitmap_at (set_block fs0 (get_free_block fs0) 1) (get_free_block fs0)
  = Some x01.
Proof.
  assert (Hlen : length (bitmap fs0) = Z.to_nat TOTAL_BLOCKS)
    by (vm_compute; reflexivity).
  assert (Hb : get_free_block fs0 ≠ -1) by (vm_compute; discriminate).
  exact (proj1 (get_free_block_after_mark fs0 Hlen Hb)).
Defined.

(** X4 on a table with no free slot and a name it does not hold. *)
Lemma fs_create_file_table_full_witness :
  fs_create_file (H := LP64.abi) full_table (str "a.txt") 100
  = (full_table, inl NoFreeInode).
Proof.
  assert (Hall : Forall (λ ino, in_use ino = true) (inodes full_table)).
  { apply Forall_replicate. vm_compute. reflexivity. }
  assert (Hfind : fs_find_inode full_table (str "a.txt") = -1)
    by (vm_compute; reflexivity).
  pose proof (fs_create_file_table_full (H := LP64.abi) full_table
                (str "a.txt") 100 Hall) as Hc.
  rewrite decide_True in Hc by exact Hfind. exact Hc.
Defined.


(** X6 on the formatted image: ["a.txt"] created twice. *)
Lemma fs_create_file_twice_witness :
  0 < strlen (str "a.txt") < MAX_FILENAME ∧
  fs_create_file (H := LP64.abi) fs1 (str "a.txt") 300 = (fs1, inl AlreadyExists).
Proof.
  assert (Hnm : 0 < strlen (str "a.txt") < MAX_FILENAME)
    by (vm_compute; split; reflexivity).
  assert (Hres : (fs_create_file (H := LP64.abi) fs0 (str "a.txt") 100).2 = inr 0)
    by (vm_compute; reflexivity).
  split; [exact Hnm |].
  exact (proj2 (fs_create_file_twice (H := LP64.abi) fs0 _ (str "a.txt") 100 300 0
                  Hnm (created_result fs0 (str "a.txt") 100 0 Hres))).
Defined.

(** X7 on the formatted image and the empty name. *)
Lemma fs_create_file_empty_name_witness :
  ∃ fs' k, fs_create_file (H := LP64.abi) fs0 (str "") 100 = (fs', inr k) ∧
           free_slot fs' k ∧ fs_find_inode fs' (str "") = -1.
Proof.
  assert (Hlen : strlen (str "") = 0) by reflexivity.
  assert (Hfree : ∃ j, free_slot fs0 j).
  { exists 0. split; [done |]. exists zero_inode. split; reflexivity. }
  destruct (fs_create_file_empty_name (H := LP64.abi) fs0 (str "") 100 Hlen Hfree)
    as (fs' & k & Hc & Hk & _ & Hf).
  exists fs', k. split; [exact Hc |]. split; [exact Hk | exact Hf].
Defined.


(** X10 on a rewrite of ["a.txt"] with the shorter ["hi"]. *)
Lemma fs_write_file_in_place_witness :
  ∃ fs', fs_write_file (H := LP64.abi) fs_hello (str "a.txt") (str "hi") 300
         = (fs', inr 0) ∧
         super fs' = super fs_hello ∧ bitmap fs' = bitmap fs_hello.
Proof.
  assert (Hk : fs_find_inode fs_hello (str "a.txt") ≠ -1)
    by (vm_compute; discriminate).
  assert (Hino : ∃ ino, inode_at fs_hello (fs_find_inode fs_hello (str "a.txt"))
                        = Some ino ∧ blocks ino = 5 :: replicate 9 SENTINEL).
  { eexists. split; vm_compute; reflexivity. }
  destruct Hino as (ino & Hino & Hbl).
  assert (Hlen : strlen (str "hi") ≤ MAX_FILE_SIZE) by (vm_compute; discriminate).
  destruct (fs_write_file_in_place (H := LP64.abi) fs_hello (str "a.txt") (str "hi")
              300 ino Hk Hino Hlen) as (fs' & Hw & Hs & Hb & _).
  { intros j Hj.
    replace (ceil_div_block (strlen (str "hi"))) with 1 in Hj
      by (vm_compute; reflexivity).
    assert (j = 0) as -> by lia. exists 5. unfold block_at. rewrite Hbl.
    split; [reflexivity | discriminate]. }
  exists fs'. split; [exact Hw |]. split; [exact Hs | exact Hb].
Defined.

(** X12 on the first write to ["a.txt"] on the formatted image. *)
Lemma fs_write_file_succeeds_witness :
  ∃ fs', fs_write_file (H := LP64.abi) fs1 (str "a.txt") (str "hello world") 200
         = (fs', inr 0).
Proof.
  apply (fs_write_file_succeeds (H := LP64.abi) new_file [Create (str "a.txt") 100]
           (str "a.txt") (str "hello world") 200).
  - vm_compute. discriminate.
  - vm_compute. discriminate.
  - vm_compute. discriminate.
Defined.

(** X14 on the file written. *)
Lemma fs_read_file_twice_witness :
  (fs_read_file (fs_read_file fs_hello (str "a.txt")).1
                (str "a.txt")).2
  = (fs_read_file fs_hello (str "a.txt")).2.
Proof.
  apply (fs_read_file_twice fs_hello (str "a.txt")).
  exact (fs_inv_session (H := LP64.abi) new_file hello_ops).
Defined.



(** X18 on the create of ["a.txt"] on the formatted image. *)
Lemma fs_list_files_create_witness :
  fs_list_files (fs_create_file (H := LP64.abi) fs0 (str "a.txt") 100).1
  = fs_list_files fs0 ++ [(cstr (str "a.txt"), 0)].
Proof.
  assert (Hnm : 0 < strlen (str "a.txt") < MAX_FILENAME)
    by (vm_compute; split; reflexivity).
  assert (Hres : (fs_create_file (H := LP64.abi) fs0 (str "a.txt") 100).2 = inr 0)
    by (vm_compute; reflexivity).
  exact (proj1 (fs_list_files_create (H := LP64.abi) new_file [] (str "a.txt") 100 0
                  _ Hnm (created_result fs0 (str "a.txt") 100 0 Hres))).
Defined.


(** X21 on the image of the session of the specification. *)
Lemma fs_init_mounts_state_witness :
  super (fs_init (H := LP64.abi) (Some (fp fs_hello))) = super fs_hello ∧
  inodes (fs_init (H := LP64.abi) (Some (fp fs_hello))) = inodes fs_hello ∧
  bitmap (fs_init (H := LP64.abi) (Some (fp fs_hello))) = bitmap fs_hello.
Proof.
  apply (fs_init_mounts_state (H := LP64.abi) fs_hello).
  - exact (inv_layout _ (fs_inv_session (H := LP64.abi) new_file hello_ops)).
  - exact (counters_on_image_session (H := LP64.abi) new_file hello_ops).
  - apply (inodes_on_image_step (H := LP64.abi) fs1
             (Write (str "a.txt") (str "hello world") 200)).
    + exact (fs_inv_session (H := LP64.abi) new_file [Create (str "a.txt") 100]).
    + exact (counters_on_image_session (H := LP64.abi) new_file [Create (str "a.txt") 100]).
    + right. exists 0. vm_compute. reflexivity.
  - vm_compute. reflexivity.
  - vm_compute. reflexivity.
Defined.

(** X23 on the formatted image and the name ["a.txt"]. *)
Lemma omin_create_file_effect_witness :
  wf_shape fs0 ∧ 0 < strlen (str "a.txt") < MAX_FILENAME ∧
  super (Omin.fs_create_file (H := LP64.abi) fs0 (str "a.txt") 100).1 = super fs0.
Proof.
  assert (Hwf : wf_shape fs0) by exact (inv_shape _ (fs_inv_format (H := LP64.abi) new_file)).
  assert (Hnm : 0 < strlen (str "a.txt") < MAX_FILENAME)
    by (vm_compute; split; reflexivity).
  assert (Hres : (Omin.fs_create_file (H := LP64.abi) fs0 (str "a.txt") 100).2
                 = inr 0) by (vm_compute; reflexivity).
  split; [exact Hwf |]. split; [exact Hnm |].
  destruct (omin_create_file_effect (H := LP64.abi) fs0 _ (str "a.txt") 100 0
              Hwf Hnm (omin_created_result fs0 (str "a.txt") 100 0 Hres))
    as (_ & k & ino & _ & _ & _ & _ & _ & _ & _ & _ & _ & Hs).
  exact Hs.
Defined.

(** X24 on the zeroed table and the name ["a.txt"]. *)
Lemma minifs2_fs_find_inode_witness :
  Minifs2Store.fs_find_inode Minifs2Store.fs_init (str "a.txt")
  = fs_find_inode fs0 (str "a.txt").
Proof.
  assert (Htab : inodes fs0 = Minifs2Store.st_inodes Minifs2Store.fs_init)
    by reflexivity.
  apply (proj1 (minifs2_fs_find_inode Minifs2Store.fs_init fs0 (str "a.txt") Htab)).
  vm_compute. reflexivity.
Defined.

(** X25 on the zeroed store: block 7 recorded for slot 0. *)
Lemma minifs2_fs_update_inode_witness :
  Minifs2Store.st_bitmap (Minifs2Store.fs_update_inode Minifs2Store.fs_init 0 7 100)
    !! Z.to_nat 7 = Some x01.
Proof.
  apply (minifs2_fs_update_inode Minifs2Store.fs_init 0 7 100 zero_inode).
  - lia.
  - vm_compute. split; [discriminate | reflexivity].
  - reflexivity.
  - reflexivity.
Defined.

(** X26 on the file ["a.txt"] and the content ["hello world"]. *)
Lemma minifs2_first_file_unreadable_witness :
  ∃ s', Minifs2Store.fs_write_file Minifs2Store.fs_init (str "a.txt")
          (str "hello world") 100 = Some s' ∧
        Minifs2Store.fs_read_file s' (str "a.txt") = inr [].
Proof.
  destruct (minifs2_first_file_unreadable (str "a.txt") (str "hello world") 100)
    as (s' & ino & Hw & _ & _ & _ & _ & _ & _ & Hr).
  - vm_compute. split; reflexivity.
  - vm_compute. split; [reflexivity | discriminate].
  - exists s'. split; [exact Hw | exact Hr].
Defined.

(** X27 on the write of ["hello world"] to ["a.txt"]. *)
Lemma fs_write_file_blocks_hold_witness :
  fs_inv fs1 ∧ strlen (str "hello world") ≤ MAX_FILE_SIZE ∧
  ∃ ino', inode_at (fs_write_file (H := LP64.abi) fs1 (str "a.txt")
                      (str "hello world") 200).1
                   (fs_find_inode fs1 (str "a.txt")) = Some ino'.
Proof.
  assert (Hinv : fs_inv fs1)
    by exact (fs_inv_session (H := LP64.abi) new_file [Create (str "a.txt") 100]).
  assert (Hlen : strlen (str "hello world") ≤ MAX_FILE_SIZE)
    by (vm_compute; discriminate).
  assert (Hres : (fs_write_file (H := LP64.abi) fs1 (str "a.txt")
                    (str "hello world") 200).2 = inr 0) by (vm_compute; reflexivity).
  split; [exact Hinv |]. split; [exact Hlen |].
  destruct (fs_write_file_blocks_hold (H := LP64.abi) fs1 _ (str "a.txt")
              (str "hello world") 200 0 Hinv Hlen
              (wrote_result fs1 (str "a.txt") (str "hello world") 200 0 Hres))
    as (ino' & Hino' & _).
  exists ino'. exact Hino'.
Defined.

End Checks.
